(** * cxml: the token decoder of the streaming XML parser

    A shallow embedding of [src/parser/Parser.ts] (class [Parser]) and
    [src/parser/TokenChunk.ts] (class [TokenChunk]), followed by the
    properties of the decoder: reassembly of byte ranges split between
    input buffers, forward resolution of namespace prefixes inside a start
    tag, the pool of output chunks, the per-instance tables of undeclared
    names, newline normalisation, the latched error state and the flushing
    protocol of the transform stream.

    JavaScript values are modelled as the code uses them: strings are lists
    of UTF-16 code units, byte arrays are lists of bytes, arrays are finite
    maps from indices with a [length], objects with identity carry an object
    number, and exceptions are an explicit result. *)

From stdpp Require Import gmap list strings.
From Stdlib Require Import ZArith Strings.Byte Lia.

Open Scope Z_scope.

(** ** JavaScript values *)

(** A string is a sequence of UTF-16 code units. *)
Abbreviation jsstring := (list N).

(** A [Uint8Array] or [Buffer]. *)
Abbreviation bytes := (list byte).

Definition jstr (s : string) : jsstring :=
  map Ascii.N_of_ascii (String.list_ascii_of_string s).

Definition CR : N := 13%N.
Definition LF : N := 10%N.

(** A call either returns or throws. *)
Inductive Result (A : Type) : Type :=
| Ok (a : A)
| Throw (msg : string).
Arguments Ok {A} a.
Arguments Throw {A} msg.

#[global] Instance Result_ret : MRet Result := fun A a => Ok a.

#[global] Instance Result_bind : MBind Result := fun A B f m =>
  match m with
  | Ok a => f a
  | Throw e => Throw e
  end.

(** [ToInt32], applied by the bitwise operators to their operands. *)
Definition toInt32 (v : Z) : Z := (v + 2 ^ 31) mod 2 ^ 32 - 2 ^ 31.

(** [a & b] *)
Definition js_and (a b : Z) : Z := Z.land (toInt32 a) (toInt32 b).

(** [a >> n], for [0 <= n < 32] *)
Definition js_sar (a n : Z) : Z := Z.shiftr (toInt32 a) n.

(** Relative index of [slice]: negative indices count from the end and
    every index is clamped to the array. *)
Definition relIndex (len i : Z) : Z :=
  if i <? 0 then Z.max (len + i) 0 else Z.min i len.

(** [arr.slice(start, end)]; [end] may be [undefined]. *)
Definition js_slice {A} (arr : list A) (start : Z) (end_ : option Z) : list A :=
  let len := Z.of_nat (length arr) in
  let from := relIndex len start in
  let to := match end_ with
            | None => len
            | Some e => relIndex len e
            end in
  take (Z.to_nat (to - from)) (drop (Z.to_nat from) arr).

(** A JavaScript array: the properties that were assigned, and [length].
    Reading a missing index gives [undefined] ([None]); writing at or beyond
    [length] extends the array, writing at a negative key sets a property
    that is not an element. *)
Record JsArray (A : Type) : Type := mkArr {
  arr_length : Z;
  arr_items : gmap Z A
}.
Arguments mkArr {A} _ _.
Arguments arr_length {A} _.
Arguments arr_items {A} _.

Definition arr_empty {A} : JsArray A := mkArr 0 ∅.

Definition arr_get {A} (a : JsArray A) (i : Z) : option A := arr_items a !! i.

Definition arr_set {A} (a : JsArray A) (i : Z) (v : A) : JsArray A :=
  mkArr (if 0 <=? i then Z.max (arr_length a) (i + 1) else arr_length a)
        (<[i := v]> (arr_items a)).

(** The elements in index order, as [for ... of] visits them. *)
Definition arr_elements {A} (a : JsArray A) : list (option A) :=
  map (fun i => arr_get a (Z.of_nat i)) (seq 0 (Z.to_nat (arr_length a))).

(** ** Regular expressions

    [getSlice] normalises newlines with [replace(/\r\n?|\n\r/g, '\n')].  The
    matcher below is the backtracking matcher of the language for the
    operators that occur in that pattern: alternatives are tried in order,
    [?] is greedy, and a global replace scans from left to right, resuming
    after each match. *)

Inductive regex : Type :=
| RChar (c : N)
| RSeq (r1 r2 : regex)
| RAlt (r1 r2 : regex)
| ROpt (r : regex).

(** [rmatch r s k]: match [r] at the start of [s] and continue with [k] on
    the rest; the first success in priority order wins. *)
Fixpoint rmatch (r : regex) (s : jsstring)
    (k : jsstring -> option jsstring) : option jsstring :=
  match r with
  | RChar c =>
      match s with
      | x :: s' => if N.eqb x c then k s' else None
      | [] => None
      end
  | RSeq a b => rmatch a s (fun s' => rmatch b s' k)
  | RAlt a b =>
      match rmatch a s k with
      | Some rest => Some rest
      | None => rmatch b s k
      end
  | ROpt a =>
      match rmatch a s k with
      | Some rest => Some rest
      | None => k s
      end
  end.

(** The rest of [s] after a match at its start, if there is one. *)
Definition regex_exec (r : regex) (s : jsstring) : option jsstring :=
  rmatch r s Some.

Fixpoint replaceAll_fuel (fuel : nat) (r : regex) (rep s : jsstring) : jsstring :=
  match fuel with
  | O => s
  | S fuel' =>
      match s with
      | [] =>
          match regex_exec r [] with
          | Some _ => rep
          | None => []
          end
      | c :: t =>
          match regex_exec r s with
          | Some rest =>
              if Nat.ltb (length rest) (length s)
              then rep ++ replaceAll_fuel fuel' r rep rest
              else rep ++ c :: replaceAll_fuel fuel' r rep t
          | None => c :: replaceAll_fuel fuel' r rep t
          end
      end
  end.

(** [s.replace(r, rep)] for a global [r] and a literal [rep]. *)
Definition replaceAll (r : regex) (rep s : jsstring) : jsstring :=
  replaceAll_fuel (S (length s)) r rep s.

(** [/\r\n?|\n\r/g] *)
Definition newlineRegex : regex :=
  RAlt (RSeq (RChar CR) (ROpt (RChar LF))) (RSeq (RChar LF) (RChar CR)).

Definition normalizeNewlines (s : jsstring) : jsstring :=
  replaceAll newlineRegex [LF] s.

(** ** Tokens, namespaces and the symbol table

    [Token.ts], [InternalToken.ts], [Namespace.ts], [ParserNamespace.ts] and
    [ParserConfig.ts] are not among the sources.  Their objects are modelled
    by the fields and members that [Parser.ts] reads and writes; their
    methods are the operations of the class [Env] below. *)

Inductive MemberKind : Type := KOpen | KClose | KEmitted | KString.

(** A [MemberToken]: [OpenToken], [CloseToken], [EmittedToken] and
    [StringToken] are its kinds.  [mt_obj] is the identity of the object (of
    the element's token triple for the three element kinds); [mt_ns] is
    [None] for [Namespace.unknown]. *)
Record MemberToken : Type := mkMember {
  mt_kind : MemberKind;
  mt_obj : positive;
  mt_name : jsstring;
  mt_ns : option Z
}.

(** What a slot of the token buffer, or a variable typed as a token, can
    hold at run time.  [VProto name] is the value of the property [name] of
    [Object.prototype], which every object literal inherits. *)
Inductive Value : Type :=
| VUndefined
| VMember (t : MemberToken)
| VComment
| VString (s : jsstring)
| VProto (name : jsstring).

#[global] Instance MemberKind_eq_dec : EqDecision MemberKind.
Proof. solve_decision. Defined.
#[global] Instance MemberToken_eq_dec : EqDecision MemberToken.
Proof. solve_decision. Defined.
#[global] Instance Value_eq_dec : EqDecision Value.
Proof. solve_decision. Defined.

(** Modelled from the spec: the members [emitted] and [close] of an
    [OpenToken] ([Token.ts] is not among the sources) are the
    ElementBodyStart and ElementEnd tokens of the same qualified name. *)
Definition tokEmitted (t : MemberToken) : MemberToken :=
  mkMember KEmitted (mt_obj t) (mt_name t) (mt_ns t).

Definition tokClose (t : MemberToken) : MemberToken :=
  mkMember KClose (mt_obj t) (mt_name t) (mt_ns t).

(** [v.emitted] and [v.close]: reading a property of [undefined] throws;
    an object without the property gives [undefined]. *)
Definition getEmitted (v : Value) : Result Value :=
  match v with
  | VUndefined => Throw "TypeError: cannot read property emitted of undefined"
  | VMember t =>
      Ok (match mt_kind t with KOpen => VMember (tokEmitted t) | _ => VUndefined end)
  | _ => Ok VUndefined
  end.

Definition getClose (v : Value) : Result Value :=
  match v with
  | VUndefined => Throw "TypeError: cannot read property close of undefined"
  | VMember t =>
      Ok (match mt_kind t with KOpen => VMember (tokClose t) | _ => VUndefined end)
  | _ => Ok VUndefined
  end.

(** The names every object literal inherits from [Object.prototype]; the
    inherited values are functions, or the prototype itself for
    [__proto__], all of them truthy. *)
Definition objectPrototypeNames : list jsstring :=
  map jstr
    ["constructor"; "toString"; "toLocaleString"; "valueOf"; "hasOwnProperty";
     "isPrototypeOf"; "propertyIsEnumerable"; "__defineGetter__";
     "__defineSetter__"; "__lookupGetter__"; "__lookupSetter__"; "__proto__"]%string.

(** [tbl[name]] on a table created as [{}]: the own property if there is
    one, otherwise the property found on the prototype chain. *)
Definition tbl_get (tbl : gmap (list N) MemberToken) (name : jsstring) : Value :=
  match tbl !! name with
  | Some t => VMember t
  | None =>
      if bool_decide (name ∈ objectPrototypeNames) then VProto name else VUndefined
  end.

(** [!v] *)
Definition falsy (v : Value) : bool :=
  match v with
  | VUndefined => true
  | VString [] => true
  | _ => false
  end.

(** An [InternalToken]: an entry of the element, attribute, prefix or URI
    list of the symbol table. *)
Record InternalToken : Type := mkInternal {
  it_obj : positive;
  it_id : Z;
  it_name : jsstring;
  it_buf : bytes;
  it_open : MemberToken;
  it_close : MemberToken;
  it_string : MemberToken
}.

#[global] Instance byte_eq_dec : EqDecision byte := Byte.byte_eq_dec.

#[global] Instance InternalToken_eq_dec : EqDecision InternalToken.
Proof. solve_decision. Defined.

(** One of the lists [config.*Space.list]: an array object compared by
    reference ([tl_obj]) in the partial-name cases. *)
Record TokenList : Type := mkTokenList {
  tl_obj : positive;
  tl_items : list InternalToken
}.

Definition tl_get (l : TokenList) (i : Z) : option InternalToken :=
  if i <? 0 then None else tl_items l !! Z.to_nat i.

Record Namespace : Type := mkNamespace {
  ns_name : jsstring;
  ns_uri : jsstring;
  ns_id : Z;
  ns_defaultPrefix : option jsstring;
  ns_isSpecial : bool
}.

Record ParserNamespace : Type := mkParserNamespace {
  pn_id : Z;
  pn_base : Namespace
}.

(** The state of a [ParserConfig] that the parser reads. *)
Module ParserConfig.
Record t : Type := mk {
  elementSpace_list : TokenList;
  attributeSpace_list : TokenList;
  prefixSpace_list : TokenList;
  uriSpace_list : TokenList;
  namespaceList : list (option ParserNamespace);
  maxNamespace : Z
}.

(** [config.namespaceList[i]] *)
Definition getNamespace (c : t) (i : Z) : option ParserNamespace :=
  if i <? 0 then None else mjoin (namespaceList c !! Z.to_nat i).

(** [config.namespaceList[i].base = base], the effect of assigning to a
    field of the namespace object that the list holds at [i]. *)
Definition setBase (c : t) (i : Z) (base : Namespace) : t :=
  mk (elementSpace_list c) (attributeSpace_list c) (prefixSpace_list c)
     (uriSpace_list c)
     (if i <? 0 then namespaceList c
      else alter (fmap (fun ns => mkParserNamespace (pn_id ns) base))
                 (Z.to_nat i) (namespaceList c))
     (maxNamespace c).
End ParserConfig.

(** The kinds of op-code that [parseCodeBuffer] distinguishes; [OTHER] is
    any kind that reaches the [default] case. *)
Inductive CodeType : Type :=
| OPEN_ELEMENT_ID | CLOSE_ELEMENT_ID | ELEMENT_EMITTED | CLOSED_ELEMENT_EMITTED
| ATTRIBUTE_ID | PREFIX_ID | XMLNS_ID | NAMESPACE_ID
| TEXT_START_OFFSET | VALUE_START_OFFSET | COMMENT_START_OFFSET
| UNKNOWN_START_OFFSET
| UNKNOWN_OPEN_ELEMENT_END_OFFSET | UNKNOWN_CLOSE_ELEMENT_END_OFFSET
| UNKNOWN_ATTRIBUTE_END_OFFSET
| VALUE_END_OFFSET | TEXT_END_OFFSET
| UNKNOWN_PREFIX_END_OFFSET | UNKNOWN_XMLNS_END_OFFSET | UNKNOWN_URI_END_OFFSET
| COMMENT_END_OFFSET
| PARTIAL_LEN | PARTIAL_URI_ID | PARTIAL_PREFIX_ID | PARTIAL_ATTRIBUTE_ID
| PARTIAL_ELEMENT_ID
| OTHER.

#[global] Instance CodeType_eq_dec : EqDecision CodeType.
Proof. solve_decision. Defined.

(** What the parser imports and cannot be read from the sources: the
    numbering of the enumerations [CodeType] and [ErrorType], the codec of
    [../Buffer], and the methods of the tokens, namespaces and symbol table.
    A method of the symbol table may change the table. *)
Class Env : Type := {
  (** the [CodeType] whose numeric value is the 5-bit tag *)
  codeType : Z -> CodeType;
  (** the numeric value of [ErrorType.OK] *)
  ErrorType_OK : Z;
  (** [decodeArray(bytes)] and [encodeArray(string)] *)
  decodeBytes : bytes -> jsstring;
  encodeArray : jsstring -> bytes;
  (** [token.resolve(ns)] *)
  memberResolve :
    ParserConfig.t -> MemberToken -> option ParserNamespace ->
    Value * ParserConfig.t;
  (** [config.addPrefix(name)] *)
  addPrefix : ParserConfig.t -> jsstring -> InternalToken * ParserConfig.t;
  (** [config.bindNamespace(ns, prefixName, parser)] *)
  bindNamespace :
    ParserConfig.t -> Namespace -> jsstring -> Z * ParserConfig.t;
  (** [config.updateNamespaces()] *)
  updateNamespaces : ParserConfig.t -> ParserConfig.t;
  (** [ns.addElement(name)] *)
  addElement :
    ParserConfig.t -> ParserNamespace -> jsstring ->
    InternalToken * ParserConfig.t
}.

(** Modelled from the spec: [decodeArray(chunk, start, end)] of [../Buffer]
    decodes the single slice [[start, end)] of the buffer. *)
Definition decodeArray {E : Env} (arr : bytes) (start : Z) (end_ : option Z) : jsstring :=
  decodeBytes (js_slice arr start end_).

(** Modelled from the spec: [concatArray(parts, len)] of [../Buffer] is the
    concatenation of the parts in order, in an array of [len] bytes: cut at
    [len], or filled with zero bytes up to it.  A length that is not a
    number is outside its contract and is modelled as an exception. *)
Definition concatArray (parts : list bytes) (len : option Z) : Result bytes :=
  match len with
  | Some n =>
      let all := concat parts in
      Ok (take (Z.to_nat n) (all ++ replicate (Z.to_nat n - length all)%nat x00))
  | None => Throw "RangeError: invalid length"
  end.

(** ** [TokenChunk.ts]

    The chunks are objects with identity: [Store] holds the objects by
    address together with the private static field [first], the head of the
    free list.  There is one such field in the program. *)

Module TokenChunk.
Record t : Type := mk {
  length : Z;
  buffer : JsArray Value;
  next : option positive;
  namespaceList : option (JsArray Namespace)
}.

(** [new TokenChunk()]: no field is assigned yet. *)
Definition blank : t := mk 0 arr_empty None None.

Record Store : Type := mkStore {
  objects : gmap positive t;
  (** the address of the next object created by [new TokenChunk()] *)
  fresh : positive;
  (** [private static first] *)
  first : option positive
}.

Definition get (s : Store) (chunk : positive) : t :=
  default blank (objects s !! chunk).

Definition put (s : Store) (chunk : positive) (c : t) : Store :=
  mkStore (<[chunk := c]> (objects s)) (fresh s) (first s).

(** [static allocate(buffer: TokenBuffer = [])] *)
Definition allocate (buf : option (JsArray Value)) (s : Store) : positive * Store :=
  let buf := default arr_empty buf in
  let '(chunk, s1) :=
    match first s with
    | Some chunk =>
        (chunk, mkStore (objects s) (fresh s) (next (get s chunk)))
    | None =>
        (fresh s,
         mkStore (<[fresh s := blank]> (objects s)) (Pos.succ (fresh s)) None)
    end in
  (chunk, put s1 chunk (mk (arr_length buf) buf None None)).

(** [free()], called on the chunk at address [this] *)
Definition free (this : positive) (s : Store) : Store :=
  let c := get s this in
  mkStore (<[this := mk (length c) (buffer c) (first s) (namespaceList c)]>
             (objects s))
          (fresh s) (Some this).

Definition empty : Store := mkStore ∅ 1%positive None.
End TokenChunk.

(** ** The state outside a parser instance *)

Record World : Type := mkWorld {
  (** the [TokenChunk] objects and the static [TokenChunk.first] *)
  chunks : TokenChunk.Store;
  (** the identity of the next token object created by [new] *)
  nextObj : positive;
  (** the symbol table, shared by the parsers created from it *)
  config : ParserConfig.t
}.

Definition set_chunks (v : TokenChunk.Store) (x : World) : World :=
  mkWorld v (nextObj x) (config x).

Definition set_nextObj (v : positive) (x : World) : World :=
  mkWorld (chunks x) v (config x).

Definition set_config (v : ParserConfig.t) (x : World) : World :=
  mkWorld (chunks x) (nextObj x) v.

(** ** The parser instance *)

(** Calls from the parser to the native scanner. *)
Inductive NativeCall : Type :=
| NativeParse (chunk : bytes)
| NativeSetPrefix (id : Z)
| NativeDestroy.

(** What the parser hands to the stream: an ['error'] event with the
    fields of the [ParseError], or a call of the [flush] callback with a
    chunk (its address and its contents at that moment) or with [null].
    [Uncaught] records that the [ParseError] was thrown out of the call by
    [emit], to the caller of [write]. *)
Inductive StreamEvent : Type :=
| EmitError (code row col : Z)
| Flush (chunk : option (positive * TokenChunk.t))
| Uncaught (code row col : Z).

(** A listener attached with [this.on('error', listener)], as far as the
    parser can tell: it returns, or it throws, as the listener
    [(err) => { throw(err); }] of [parseSync] does. *)
Inductive Listener : Type :=
| ListenerReturns
| ListenerThrows.

#[global] Instance Listener_eq_dec : EqDecision Listener.
Proof. solve_decision. Defined.

(** [emit('error', err)] of the event emitter the stream inherits from
    returns when there is a listener and every listener returns: with no
    listener for ['error'] the emitter throws [err] itself, and it lets
    through what a listener throws. *)
Definition emitReturns (listeners : list Listener) : bool :=
  match listeners with
  | [] => false
  | _ => forallb (fun l => bool_decide (l = ListenerReturns)) listeners
  end.

(** What one call [native.parse(chunk)] does, seen from the parser: the
    code buffers for which it invokes the callback
    [parseCodeBuffer(true)] while it runs, the contents of the code buffer
    when it returns, its status, and the position it reports. *)
Record NativeRun : Type := mkRun {
  pendingBuffers : list (list Z);
  finalBuffer : list Z;
  status : Z;
  row : Z;
  col : Z
}.

(** A chunk written to the stream: [string | ArrayType]. *)
Inductive Input : Type :=
| InString (s : jsstring)
| InArray (b : bytes).

Record Parser : Type := mkParser {
  (** Current element not yet emitted (closing angle bracket unseen). *)
  latestElement : Value;
  (** Previous namespace prefix token, applied to the next element,
      attribute or xmlns definition. *)
  latestPrefix : option InternalToken;
  latestNamespace : option ParserNamespace;
  (** Current input buffer. *)
  chunk : bytes;
  namespaceList : JsArray Namespace;
  namespacesChanged : bool;
  (** Storage for parts of strings split between chunks of input. *)
  partList : option (list bytes);
  (** [None] stands for a value that is not a number. *)
  partListTotalByteLen : option Z;
  (** Offset to start of text in input buffer, or -1 if not reading text. *)
  partStart : Z;
  (** Number of valid initial bytes in next token; [undefined] at first. *)
  partialLen : option Z;
  (** Stream output buffer chunk: the address of a [TokenChunk]. *)
  tokenChunk : positive;
  (** Offset to start of current element definition in output buffer. *)
  elementStart : Z;
  (** Prefixes of latest tokenBuffer entries; index 0 corresponds to
      elementStart. *)
  prefixBuffer : JsArray (option InternalToken);
  namespaceBuffer : JsArray (option ParserNamespace);
  (** Unresolved elements and attributes: the own properties of the two
      tables, which are created as [{}]. *)
  unknownElementTbl : gmap (list N) MemberToken;
  unknownAttributeTbl : gmap (list N) MemberToken;
  unknownOffsetList : JsArray Z;
  unknownCount : Z;
  hasError : bool;
  (** The calls made to the native scanner, latest last. *)
  nativeLog : list NativeCall;
  (** What the stream was handed, latest last. *)
  output : list StreamEvent;
  (** The listeners attached for the ['error'] event, in the order of the
      calls of [on]. *)
  errorListeners : list Listener
}.

Definition set_latestElement (v : Value) (x : Parser) : Parser :=
  mkParser v (latestPrefix x) (latestNamespace x) (chunk x) (namespaceList x)
    (namespacesChanged x) (partList x) (partListTotalByteLen x) (partStart x)
    (partialLen x) (tokenChunk x) (elementStart x) (prefixBuffer x)
    (namespaceBuffer x) (unknownElementTbl x) (unknownAttributeTbl x)
    (unknownOffsetList x) (unknownCount x) (hasError x) (nativeLog x)
    (output x) (errorListeners x).

Definition set_latestPrefix (v : option InternalToken) (x : Parser) : Parser :=
  mkParser (latestElement x) v (latestNamespace x) (chunk x) (namespaceList x)
    (namespacesChanged x) (partList x) (partListTotalByteLen x) (partStart x)
    (partialLen x) (tokenChunk x) (elementStart x) (prefixBuffer x)
    (namespaceBuffer x) (unknownElementTbl x) (unknownAttributeTbl x)
    (unknownOffsetList x) (unknownCount x) (hasError x) (nativeLog x)
    (output x) (errorListeners x).

Definition set_latestNamespace (v : option ParserNamespace) (x : Parser) : Parser :=
  mkParser (latestElement x) (latestPrefix x) v (chunk x) (namespaceList x)
    (namespacesChanged x) (partList x) (partListTotalByteLen x) (partStart x)
    (partialLen x) (tokenChunk x) (elementStart x) (prefixBuffer x)
    (namespaceBuffer x) (unknownElementTbl x) (unknownAttributeTbl x)
    (unknownOffsetList x) (unknownCount x) (hasError x) (nativeLog x)
    (output x) (errorListeners x).

Definition set_chunk (v : bytes) (x : Parser) : Parser :=
  mkParser (latestElement x) (latestPrefix x) (latestNamespace x) v
    (namespaceList x) (namespacesChanged x) (partList x)
    (partListTotalByteLen x) (partStart x) (partialLen x) (tokenChunk x)
    (elementStart x) (prefixBuffer x) (namespaceBuffer x)
    (unknownElementTbl x) (unknownAttributeTbl x) (unknownOffsetList x)
    (unknownCount x) (hasError x) (nativeLog x) (output x) (errorListeners x).

Definition set_namespaceList (v : JsArray Namespace) (x : Parser) : Parser :=
  mkParser (latestElement x) (latestPrefix x) (latestNamespace x) (chunk x) v
    (namespacesChanged x) (partList x) (partListTotalByteLen x) (partStart x)
    (partialLen x) (tokenChunk x) (elementStart x) (prefixBuffer x)
    (namespaceBuffer x) (unknownElementTbl x) (unknownAttributeTbl x)
    (unknownOffsetList x) (unknownCount x) (hasError x) (nativeLog x)
    (output x) (errorListeners x).

Definition set_namespacesChanged (v : bool) (x : Parser) : Parser :=
  mkParser (latestElement x) (latestPrefix x) (latestNamespace x) (chunk x)
    (namespaceList x) v (partList x) (partListTotalByteLen x) (partStart x)
    (partialLen x) (tokenChunk x) (elementStart x) (prefixBuffer x)
    (namespaceBuffer x) (unknownElementTbl x) (unknownAttributeTbl x)
    (unknownOffsetList x) (unknownCount x) (hasError x) (nativeLog x)
    (output x) (errorListeners x).

Definition set_partList (v : option (list bytes)) (x : Parser) : Parser :=
  mkParser (latestElement x) (latestPrefix x) (latestNamespace x) (chunk x)
    (namespaceList x) (namespacesChanged x) v (partListTotalByteLen x)
    (partStart x) (partialLen x) (tokenChunk x) (elementStart x)
    (prefixBuffer x) (namespaceBuffer x) (unknownElementTbl x)
    (unknownAttributeTbl x) (unknownOffsetList x) (unknownCount x)
    (hasError x) (nativeLog x) (output x) (errorListeners x).

Definition set_partListTotalByteLen (v : option Z) (x : Parser) : Parser :=
  mkParser (latestElement x) (latestPrefix x) (latestNamespace x) (chunk x)
    (namespaceList x) (namespacesChanged x) (partList x) v (partStart x)
    (partialLen x) (tokenChunk x) (elementStart x) (prefixBuffer x)
    (namespaceBuffer x) (unknownElementTbl x) (unknownAttributeTbl x)
    (unknownOffsetList x) (unknownCount x) (hasError x) (nativeLog x)
    (output x) (errorListeners x).

Definition set_partStart (v : Z) (x : Parser) : Parser :=
  mkParser (latestElement x) (latestPrefix x) (latestNamespace x) (chunk x)
    (namespaceList x) (namespacesChanged x) (partList x)
    (partListTotalByteLen x) v (partialLen x) (tokenChunk x) (elementStart x)
    (prefixBuffer x) (namespaceBuffer x) (unknownElementTbl x)
    (unknownAttributeTbl x) (unknownOffsetList x) (unknownCount x)
    (hasError x) (nativeLog x) (output x) (errorListeners x).

Definition set_partialLen (v : option Z) (x : Parser) : Parser :=
  mkParser (latestElement x) (latestPrefix x) (latestNamespace x) (chunk x)
    (namespaceList x) (namespacesChanged x) (partList x)
    (partListTotalByteLen x) (partStart x) v (tokenChunk x) (elementStart x)
    (prefixBuffer x) (namespaceBuffer x) (unknownElementTbl x)
    (unknownAttributeTbl x) (unknownOffsetList x) (unknownCount x)
    (hasError x) (nativeLog x) (output x) (errorListeners x).

Definition set_tokenChunk (v : positive) (x : Parser) : Parser :=
  mkParser (latestElement x) (latestPrefix x) (latestNamespace x) (chunk x)
    (namespaceList x) (namespacesChanged x) (partList x)
    (partListTotalByteLen x) (partStart x) (partialLen x) v (elementStart x)
    (prefixBuffer x) (namespaceBuffer x) (unknownElementTbl x)
    (unknownAttributeTbl x) (unknownOffsetList x) (unknownCount x)
    (hasError x) (nativeLog x) (output x) (errorListeners x).

Definition set_elementStart (v : Z) (x : Parser) : Parser :=
  mkParser (latestElement x) (latestPrefix x) (latestNamespace x) (chunk x)
    (namespaceList x) (namespacesChanged x) (partList x)
    (partListTotalByteLen x) (partStart x) (partialLen x) (tokenChunk x) v
    (prefixBuffer x) (namespaceBuffer x) (unknownElementTbl x)
    (unknownAttributeTbl x) (unknownOffsetList x) (unknownCount x)
    (hasError x) (nativeLog x) (output x) (errorListeners x).

Definition set_prefixBuffer (v : JsArray (option InternalToken)) (x : Parser) : Parser :=
  mkParser (latestElement x) (latestPrefix x) (latestNamespace x) (chunk x)
    (namespaceList x) (namespacesChanged x) (partList x)
    (partListTotalByteLen x) (partStart x) (partialLen x) (tokenChunk x)
    (elementStart x) v (namespaceBuffer x) (unknownElementTbl x)
    (unknownAttributeTbl x) (unknownOffsetList x) (unknownCount x)
    (hasError x) (nativeLog x) (output x) (errorListeners x).

Definition set_namespaceBuffer (v : JsArray (option ParserNamespace)) (x : Parser) : Parser :=
  mkParser (latestElement x) (latestPrefix x) (latestNamespace x) (chunk x)
    (namespaceList x) (namespacesChanged x) (partList x)
    (partListTotalByteLen x) (partStart x) (partialLen x) (tokenChunk x)
    (elementStart x) (prefixBuffer x) v (unknownElementTbl x)
    (unknownAttributeTbl x) (unknownOffsetList x) (unknownCount x)
    (hasError x) (nativeLog x) (output x) (errorListeners x).

Definition set_unknownElementTbl (v : gmap (list N) MemberToken) (x : Parser) : Parser :=
  mkParser (latestElement x) (latestPrefix x) (latestNamespace x) (chunk x)
    (namespaceList x) (namespacesChanged x) (partList x)
    (partListTotalByteLen x) (partStart x) (partialLen x) (tokenChunk x)
    (elementStart x) (prefixBuffer x) (namespaceBuffer x) v
    (unknownAttributeTbl x) (unknownOffsetList x) (unknownCount x)
    (hasError x) (nativeLog x) (output x) (errorListeners x).

Definition set_unknownAttributeTbl (v : gmap (list N) MemberToken) (x : Parser) : Parser :=
  mkParser (latestElement x) (latestPrefix x) (latestNamespace x) (chunk x)
    (namespaceList x) (namespacesChanged x) (partList x)
    (partListTotalByteLen x) (partStart x) (partialLen x) (tokenChunk x)
    (elementStart x) (prefixBuffer x) (namespaceBuffer x)
    (unknownElementTbl x) v (unknownOffsetList x) (unknownCount x)
    (hasError x) (nativeLog x) (output x) (errorListeners x).

Definition set_unknownOffsetList (v : JsArray Z) (x : Parser) : Parser :=
  mkParser (latestElement x) (latestPrefix x) (latestNamespace x) (chunk x)
    (namespaceList x) (namespacesChanged x) (partList x)
    (partListTotalByteLen x) (partStart x) (partialLen x) (tokenChunk x)
    (elementStart x) (prefixBuffer x) (namespaceBuffer x)
    (unknownElementTbl x) (unknownAttributeTbl x) v (unknownCount x)
    (hasError x) (nativeLog x) (output x) (errorListeners x).

Definition set_unknownCount (v : Z) (x : Parser) : Parser :=
  mkParser (latestElement x) (latestPrefix x) (latestNamespace x) (chunk x)
    (namespaceList x) (namespacesChanged x) (partList x)
    (partListTotalByteLen x) (partStart x) (partialLen x) (tokenChunk x)
    (elementStart x) (prefixBuffer x) (namespaceBuffer x)
    (unknownElementTbl x) (unknownAttributeTbl x) (unknownOffsetList x) v
    (hasError x) (nativeLog x) (output x) (errorListeners x).

Definition set_hasError (v : bool) (x : Parser) : Parser :=
  mkParser (latestElement x) (latestPrefix x) (latestNamespace x) (chunk x)
    (namespaceList x) (namespacesChanged x) (partList x)
    (partListTotalByteLen x) (partStart x) (partialLen x) (tokenChunk x)
    (elementStart x) (prefixBuffer x) (namespaceBuffer x)
    (unknownElementTbl x) (unknownAttributeTbl x) (unknownOffsetList x)
    (unknownCount x) v (nativeLog x) (output x) (errorListeners x).

Definition set_nativeLog (v : list NativeCall) (x : Parser) : Parser :=
  mkParser (latestElement x) (latestPrefix x) (latestNamespace x) (chunk x)
    (namespaceList x) (namespacesChanged x) (partList x)
    (partListTotalByteLen x) (partStart x) (partialLen x) (tokenChunk x)
    (elementStart x) (prefixBuffer x) (namespaceBuffer x)
    (unknownElementTbl x) (unknownAttributeTbl x) (unknownOffsetList x)
    (unknownCount x) (hasError x) v (output x) (errorListeners x).

Definition set_output (v : list StreamEvent) (x : Parser) : Parser :=
  mkParser (latestElement x) (latestPrefix x) (latestNamespace x) (chunk x)
    (namespaceList x) (namespacesChanged x) (partList x)
    (partListTotalByteLen x) (partStart x) (partialLen x) (tokenChunk x)
    (elementStart x) (prefixBuffer x) (namespaceBuffer x)
    (unknownElementTbl x) (unknownAttributeTbl x) (unknownOffsetList x)
    (unknownCount x) (hasError x) (nativeLog x) v (errorListeners x).


(** The local variables of [parseCodeBuffer]. *)
Module Loc.
Record t : Type := mk {
  elementList : TokenList;
  attributeList : TokenList;
  prefixList : TokenList;
  uriList : TokenList;
  partialList : TokenList;
  partStart : Z;
  partialLen : option Z;
  latestElement : Value;
  latestPrefix : option InternalToken;
  latestNamespace : option ParserNamespace;
  tokenNum : Z;
  elementStart : Z;
  unknownCount : Z
}.

Definition set_elementList (v : TokenList) (x : t) : t :=
  mk v (attributeList x) (prefixList x) (uriList x) (partialList x)
    (partStart x) (partialLen x) (latestElement x) (latestPrefix x)
    (latestNamespace x) (tokenNum x) (elementStart x) (unknownCount x).

Definition set_attributeList (v : TokenList) (x : t) : t :=
  mk (elementList x) v (prefixList x) (uriList x) (partialList x)
    (partStart x) (partialLen x) (latestElement x) (latestPrefix x)
    (latestNamespace x) (tokenNum x) (elementStart x) (unknownCount x).

Definition set_prefixList (v : TokenList) (x : t) : t :=
  mk (elementList x) (attributeList x) v (uriList x) (partialList x)
    (partStart x) (partialLen x) (latestElement x) (latestPrefix x)
    (latestNamespace x) (tokenNum x) (elementStart x) (unknownCount x).

Definition set_uriList (v : TokenList) (x : t) : t :=
  mk (elementList x) (attributeList x) (prefixList x) v (partialList x)
    (partStart x) (partialLen x) (latestElement x) (latestPrefix x)
    (latestNamespace x) (tokenNum x) (elementStart x) (unknownCount x).

Definition set_partialList (v : TokenList) (x : t) : t :=
  mk (elementList x) (attributeList x) (prefixList x) (uriList x) v
    (partStart x) (partialLen x) (latestElement x) (latestPrefix x)
    (latestNamespace x) (tokenNum x) (elementStart x) (unknownCount x).

Definition set_partStart (v : Z) (x : t) : t :=
  mk (elementList x) (attributeList x) (prefixList x) (uriList x)
    (partialList x) v (partialLen x) (latestElement x) (latestPrefix x)
    (latestNamespace x) (tokenNum x) (elementStart x) (unknownCount x).

Definition set_partialLen (v : option Z) (x : t) : t :=
  mk (elementList x) (attributeList x) (prefixList x) (uriList x)
    (partialList x) (partStart x) v (latestElement x) (latestPrefix x)
    (latestNamespace x) (tokenNum x) (elementStart x) (unknownCount x).

Definition set_latestElement (v : Value) (x : t) : t :=
  mk (elementList x) (attributeList x) (prefixList x) (uriList x)
    (partialList x) (partStart x) (partialLen x) v (latestPrefix x)
    (latestNamespace x) (tokenNum x) (elementStart x) (unknownCount x).

Definition set_latestPrefix (v : option InternalToken) (x : t) : t :=
  mk (elementList x) (attributeList x) (prefixList x) (uriList x)
    (partialList x) (partStart x) (partialLen x) (latestElement x) v
    (latestNamespace x) (tokenNum x) (elementStart x) (unknownCount x).

Definition set_latestNamespace (v : option ParserNamespace) (x : t) : t :=
  mk (elementList x) (attributeList x) (prefixList x) (uriList x)
    (partialList x) (partStart x) (partialLen x) (latestElement x)
    (latestPrefix x) v (tokenNum x) (elementStart x) (unknownCount x).

Definition set_tokenNum (v : Z) (x : t) : t :=
  mk (elementList x) (attributeList x) (prefixList x) (uriList x)
    (partialList x) (partStart x) (partialLen x) (latestElement x)
    (latestPrefix x) (latestNamespace x) v (elementStart x) (unknownCount x).

Definition set_elementStart (v : Z) (x : t) : t :=
  mk (elementList x) (attributeList x) (prefixList x) (uriList x)
    (partialList x) (partStart x) (partialLen x) (latestElement x)
    (latestPrefix x) (latestNamespace x) (tokenNum x) v (unknownCount x).

Definition set_unknownCount (v : Z) (x : t) : t :=
  mk (elementList x) (attributeList x) (prefixList x) (uriList x)
    (partialList x) (partStart x) (partialLen x) (latestElement x)
    (latestPrefix x) (latestNamespace x) (tokenNum x) (elementStart x) v.
End Loc.

(** ** [Parser.ts] *)

Section ParserCode.
Context {E : Env}.

(** [this.tokenChunk.buffer], which [parseCodeBuffer] and [resolve] name
    [tokenBuffer]. *)
Definition tokenBuffer (p : Parser) (w : World) : JsArray Value :=
  TokenChunk.buffer (TokenChunk.get (chunks w) (tokenChunk p)).

(** [tokenBuffer[i]] *)
Definition tb_get (p : Parser) (w : World) (i : Z) : Value :=
  default VUndefined (arr_get (tokenBuffer p w) i).

(** [tokenBuffer[i] = v] *)
Definition tb_set (p : Parser) (w : World) (i : Z) (v : Value) : World :=
  let c := TokenChunk.get (chunks w) (tokenChunk p) in
  set_chunks
    (TokenChunk.put (chunks w) (tokenChunk p)
       (TokenChunk.mk (TokenChunk.length c)
          (arr_set (TokenChunk.buffer c) i v)
          (TokenChunk.next c) (TokenChunk.namespaceList c)))
    w.

(** [this.tokenChunk.length = n] *)
Definition set_chunkLength (p : Parser) (w : World) (n : Z) : World :=
  let c := TokenChunk.get (chunks w) (tokenChunk p) in
  set_chunks
    (TokenChunk.put (chunks w) (tokenChunk p)
       (TokenChunk.mk n (TokenChunk.buffer c)
          (TokenChunk.next c) (TokenChunk.namespaceList c)))
    w.

(** [this.tokenChunk.namespaceList = list] *)
Definition set_chunkNamespaceList (p : Parser) (w : World)
    (list : JsArray Namespace) : World :=
  let c := TokenChunk.get (chunks w) (tokenChunk p) in
  set_chunks
    (TokenChunk.put (chunks w) (tokenChunk p)
       (TokenChunk.mk (TokenChunk.length c) (TokenChunk.buffer c)
          (TokenChunk.next c) (Some list)))
    w.

(** The tokens of a chunk in order, as [parseSync] collects them. *)
Definition chunkTokens (c : TokenChunk.t) : list Value :=
  map (default VUndefined) (arr_elements (TokenChunk.buffer c)).

(** *** Slices of the input split between buffers *)

(** [storeSlice(start, end?)] *)
Definition storeSlice (start : Z) (end_ : option Z) (p : Parser) : Parser :=
  let p := match partList p with
           | None => set_partList (Some []) p
           | Some _ => p
           end in
  if bool_decide (end_ = Some 0) then p
  else
    let p := set_partList
               (Some (default [] (partList p) ++ [js_slice (chunk p) start end_])) p in
    set_partListTotalByteLen
      (total ← partListTotalByteLen p;
       Some (total + (default (Z.of_nat (length (chunk p))) end_ - start))) p.

(** [buildSlice(start, end?)]: getSlice helper for concatenating buffer
    parts. *)
Definition buildSlice (start : Z) (end_ : option Z) (p : Parser) : Result (jsstring * Parser) :=
  let p := storeSlice start end_ p in
  all ← concatArray (default [] (partList p)) (partListTotalByteLen p);
  let result := decodeBytes all in
  let p := set_partList None p in
  let p := set_partListTotalByteLen (Some 0) p in
  Ok (result, p).

(** [getSlice(start, end?)]: get a string from the input buffer, prepending
    any parts left from previous code buffers. *)
Definition getSlice (start : Z) (end_ : option Z) (p : Parser) : Result (jsstring * Parser) :=
  '(raw, p) ← match partList p with
              | Some _ => buildSlice start end_ p
              | None => Ok (decodeArray (chunk p) start end_, p)
              end;
  Ok (normalizeNewlines raw, p).

(** *** Resolution of a prefix inside the open start tag *)

(** [prefixBuffer[pos]]; [null] and [undefined] are both [None], as [==]
    identifies them. *)
Definition pb_get (p : Parser) (pos : Z) : option InternalToken :=
  mjoin (arr_get (prefixBuffer p) pos).

(** The body of the loop of [resolve] at [pos]. *)
Definition resolveSlot (elementStart : Z) (prefix : option InternalToken)
    (ns : ParserNamespace) (pos : Z) (p : Parser) (w : World) : Parser * World :=
  if bool_decide (pb_get p pos = prefix) then
    match tb_get p w (pos + elementStart) with
    | VMember token =>
        let '(v, cfg) := memberResolve (config w) token (Some ns) in
        let w := tb_set p (set_config cfg w) (pos + elementStart) v in
        (set_namespaceBuffer (arr_set (namespaceBuffer p) pos None) p, w)
    | _ => (p, w)
    end
  else (p, w).

(** [for(let pos = ...; pos <= len; ++pos)] with [n] iterations left. *)
Fixpoint resolveLoop (n : nat) (elementStart : Z) (prefix : option InternalToken)
    (ns : ParserNamespace) (pos : Z) (p : Parser) (w : World) : Parser * World :=
  match n with
  | O => (p, w)
  | S n' =>
      let '(p, w) := resolveSlot elementStart prefix ns pos p w in
      resolveLoop n' elementStart prefix ns (pos + 1) p w
  end.

(** [!ns.base.defaultPrefix] *)
Definition noDefaultPrefix (base : Namespace) : bool :=
  match ns_defaultPrefix base with
  | None | Some [] => true
  | Some _ => false
  end.

(** [resolve(elementStart, tokenNum, prefix, idNamespace)]: resolve any
    prior occurrences of a recently defined prefix within the same
    element. *)
Definition resolve (elementStart tokenNum : Z) (prefix : option InternalToken)
    (idNamespace : Z) (p : Parser) (w : World) : Result (Parser * World) :=
  match ParserConfig.getNamespace (config w) idNamespace with
  | None => Throw "TypeError: cannot read property base of undefined"
  | Some ns =>
      let len := tokenNum - elementStart in
      '(ns, w) ←
        (if noDefaultPrefix (pn_base ns) then
           match prefix with
           | None => Throw "TypeError: cannot read property name of null"
           | Some pr =>
               let base := pn_base ns in
               let base := mkNamespace (ns_name base) (ns_uri base) (ns_id base)
                             (Some (it_name pr)) (ns_isSpecial base) in
               Ok (mkParserNamespace (pn_id ns) base,
                   set_config (ParserConfig.setBase (config w) idNamespace base) w)
           end
         else Ok (ns, w));
      let p := set_namespaceList
                 (arr_set (namespaceList p) (ns_id (pn_base ns)) (pn_base ns)) p in
      let p := set_namespacesChanged true p in
      Ok (resolveLoop (Z.to_nat (len + 1)) elementStart prefix ns 0 p w)
  end.

(** *** The decoder of op-codes *)

(** [tokenBuffer[++tokenNum] = v] *)
Definition pushToken (v : Value) (l : Loc.t) (p : Parser) (w : World) : Loc.t * World :=
  let n := Loc.tokenNum l + 1 in
  (Loc.set_tokenNum n l, tb_set p w n v).

(** The loop of the cases [ELEMENT_EMITTED] and [CLOSED_ELEMENT_EMITTED]
    over the queue of unknown names, with [n] iterations left. *)
Fixpoint resolveUnknown (n : nat) (elementStart : Z) (pos : Z) (p : Parser)
    (w : World) : Result World :=
  match n with
  | O => Ok w
  | S n' =>
      w ← match arr_get (unknownOffsetList p) pos with
          | None => Ok w
          | Some offset =>
              (* If an xmlns definition already resolved this token, ns
                 will be null. *)
              match mjoin (arr_get (namespaceBuffer p) offset) with
              | None => Ok w
              | Some ns =>
                  (* Ensure namespace is updated after config unlink. *)
                  let ns := ParserConfig.getNamespace (config w) (pn_id ns) in
                  match tb_get p w (offset + elementStart) with
                  | VMember token =>
                      let '(v, cfg) := memberResolve (config w) token ns in
                      Ok (tb_set p (set_config cfg w) (offset + elementStart) v)
                  | _ => Throw "TypeError: resolve is not a function"
                  end
              end
          end;
      resolveUnknown n' elementStart (pos + 1) p w
  end.

(** The last four cases of the [switch], which fall through into one
    another: [entry] tells how many of the assignments to [partialList] are
    executed before the common body. *)
Definition partialCase (entry : CodeType) (code : Z) (l : Loc.t) (p : Parser)
    : Result (Loc.t * Parser) :=
  let same (a b : TokenList) := Pos.eqb (tl_obj a) (tl_obj b) in
  let l := match entry with
           | PARTIAL_URI_ID => Loc.set_partialList (Loc.uriList l) l
           | _ => l
           end in
  let l := match entry with
           | PARTIAL_URI_ID | PARTIAL_PREFIX_ID =>
               if same (Loc.partialList l) (Loc.elementList l)
               then Loc.set_partialList (Loc.prefixList l) l else l
           | _ => l
           end in
  let l := match entry with
           | PARTIAL_URI_ID | PARTIAL_PREFIX_ID | PARTIAL_ATTRIBUTE_ID =>
               if same (Loc.partialList l) (Loc.elementList l)
               then Loc.set_partialList (Loc.attributeList l) l else l
           | _ => l
           end in
  match tl_get (Loc.partialList l) code with
  | None => Throw "TypeError: cannot read property buf of undefined"
  | Some tok =>
      let p := set_partList (Some [js_slice (it_buf tok) 0 (Loc.partialLen l)]) p in
      let p := set_partListTotalByteLen (Loc.partialLen l) p in
      Ok (Loc.set_partialList (Loc.elementList l) l, p)
  end.

(** One turn of the [while] loop of [parseCodeBuffer], after [kind] and
    [code] have been taken from the code buffer. *)
Definition step (kind : CodeType) (code : Z) (l : Loc.t) (p : Parser) (w : World)
    : Result (Loc.t * Parser * World) :=
  match kind with
  | OPEN_ELEMENT_ID =>
      match tl_get (Loc.elementList l) code with
      | None => Throw "TypeError: cannot read property open of undefined"
      | Some e =>
          let l := Loc.set_latestElement (VMember (it_open e)) l in
          (* TODO: If latestprefix is null, use current prefix for element's
             namespace. *)
          let '(l, w) := pushToken (Loc.latestElement l) l p w in
          let p := set_prefixBuffer (arr_set (prefixBuffer p) 0 (Loc.latestPrefix l)) p in
          Ok (Loc.set_elementStart (Loc.tokenNum l) l, p, w)
      end
  | CLOSE_ELEMENT_ID =>
      match tl_get (Loc.elementList l) code with
      | None => Throw "TypeError: cannot read property close of undefined"
      | Some e =>
          let '(l, w) := pushToken (VMember (it_close e)) l p w in
          Ok (l, p, w)
      end
  | ELEMENT_EMITTED | CLOSED_ELEMENT_EMITTED =>
      '(l, w) ←
        (if bool_decide (Loc.unknownCount l = 0) then Ok (l, w)
         else
           w ← resolveUnknown (Z.to_nat (Loc.unknownCount l))
                 (Loc.elementStart l) 0 p w;
           let l := Loc.set_latestElement (tb_get p w (Loc.elementStart l)) l in
           Ok (Loc.set_unknownCount 0 l, w));
      v ← (if bool_decide (kind = ELEMENT_EMITTED)
           then getEmitted (Loc.latestElement l)
           else getClose (Loc.latestElement l));
      let '(l, w) := pushToken v l p w in
      Ok (Loc.set_elementStart (-1) l, p, w)
  | ATTRIBUTE_ID =>
      match tl_get (Loc.attributeList l) code with
      | None => Throw "TypeError: cannot read property string of undefined"
      | Some a =>
          let '(l, w) := pushToken (VMember (it_string a)) l p w in
          (* If latestprefix is null, set attribute prefix to match its
             parent element. *)
          let pre := match Loc.latestPrefix l with
                     | Some pr => Some pr
                     | None => pb_get p 0
                     end in
          let p := set_prefixBuffer
                     (arr_set (prefixBuffer p) (Loc.tokenNum l - Loc.elementStart l) pre) p in
          Ok (l, p, w)
      end
  | PREFIX_ID =>
      let l := Loc.set_latestNamespace
                 (ParserConfig.getNamespace (config w) (js_sar code 14)) l in
      let code := js_and code 16383 in
      Ok (Loc.set_latestPrefix (tl_get (Loc.prefixList l) code) l, p, w)
  | XMLNS_ID =>
      Ok (Loc.set_latestPrefix (tl_get (Loc.prefixList l) code) l, p, w)
  | NAMESPACE_ID =>
      '(p, w) ← resolve (Loc.elementStart l) (Loc.tokenNum l) (Loc.latestPrefix l) code p w;
      Ok (Loc.set_latestPrefix None l, p, w)
  | TEXT_START_OFFSET | VALUE_START_OFFSET | COMMENT_START_OFFSET
  | UNKNOWN_START_OFFSET =>
      Ok (Loc.set_partStart code l, p, w)
  | UNKNOWN_OPEN_ELEMENT_END_OFFSET =>
      '(name, p) ← getSlice (Loc.partStart l) (Some code) p;
      let l := Loc.set_latestElement (tbl_get (unknownElementTbl p) name) l in
      let '(l, p, w) :=
        if falsy (Loc.latestElement l) then
          let t := mkMember KOpen (nextObj w) name None in
          (Loc.set_latestElement (VMember t) l,
           set_unknownElementTbl (<[name := t]> (unknownElementTbl p)) p,
           set_nextObj (Pos.succ (nextObj w)) w)
        else (l, p, w) in
      let '(l, w) := pushToken (Loc.latestElement l) l p w in
      let p := set_prefixBuffer (arr_set (prefixBuffer p) 0 (Loc.latestPrefix l)) p in
      let p := set_namespaceBuffer
                 (arr_set (namespaceBuffer p) 0 (Loc.latestNamespace l)) p in
      let l := Loc.set_elementStart (Loc.tokenNum l) l in
      let p := set_unknownOffsetList (arr_set (unknownOffsetList p) 0 0) p in
      let l := Loc.set_unknownCount 1 l in
      Ok (Loc.set_partStart (-1) l, p, w)
  | UNKNOWN_CLOSE_ELEMENT_END_OFFSET =>
      '(name, p) ← getSlice (Loc.partStart l) (Some code) p;
      '(v, w) ←
        match Loc.latestNamespace l with
        | Some ns =>
            let '(e, cfg) := addElement (config w) ns name in
            Ok (VMember (it_close e), set_config cfg w)
        | None =>
            v ← getClose (tbl_get (unknownElementTbl p) name);
            Ok (v, w)
        end;
      let '(l, w) := pushToken v l p w in
      Ok (Loc.set_partStart (-1) l, p, w)
  | UNKNOWN_ATTRIBUTE_END_OFFSET =>
      '(name, p) ← getSlice (Loc.partStart l) (Some code) p;
      let token := tbl_get (unknownAttributeTbl p) name in
      let '(token, p, w) :=
        if falsy token then
          let t := mkMember KString (nextObj w) name None in
          (VMember t,
           set_unknownAttributeTbl (<[name := t]> (unknownAttributeTbl p)) p,
           set_nextObj (Pos.succ (nextObj w)) w)
        else (token, p, w) in
      let '(l, w) := pushToken token l p w in
      let pos := Loc.tokenNum l - Loc.elementStart l in
      let p := set_prefixBuffer (arr_set (prefixBuffer p) pos (Loc.latestPrefix l)) p in
      let p := set_namespaceBuffer
                 (arr_set (namespaceBuffer p) pos (Loc.latestNamespace l)) p in
      let p := set_unknownOffsetList
                 (arr_set (unknownOffsetList p) (Loc.unknownCount l) pos) p in
      let l := Loc.set_unknownCount (Loc.unknownCount l + 1) l in
      Ok (Loc.set_partStart (-1) l, p, w)
  | VALUE_END_OFFSET | TEXT_END_OFFSET =>
      '(s, p) ← getSlice (Loc.partStart l) (Some code) p;
      let '(l, w) := pushToken (VString s) l p w in
      Ok (Loc.set_partStart (-1) l, p, w)
  | UNKNOWN_PREFIX_END_OFFSET | UNKNOWN_XMLNS_END_OFFSET
  | UNKNOWN_URI_END_OFFSET =>
      (* Add the namespace prefix or URI to a separate trie. *)
      '(l, p, w) ←
        (if bool_decide (kind = UNKNOWN_URI_END_OFFSET) then
           '(uri, p) ← getSlice (Loc.partStart l) (Some code) p;
           (* Create a new namespace for the unrecognized URI. *)
           match Loc.latestPrefix l with
           | None => Throw "TypeError: cannot read property name of null"
           | Some pr =>
               let name := it_name pr in
               let ns := mkNamespace name uri
                           (ParserConfig.maxNamespace (config w) + 1) None false in
               (* This may unlink the config: *)
               let '(idNamespace, cfg) := bindNamespace (config w) ns (it_name pr) in
               let w := set_config cfg w in
               '(p, w) ← resolve (Loc.elementStart l) (Loc.tokenNum l)
                            (Loc.latestPrefix l) idNamespace p w;
               Ok (Loc.set_latestPrefix None l, p, w)
           end
         else
           '(name, p) ← getSlice (Loc.partStart l) (Some code) p;
           (* This may unlink the config: *)
           let '(pr, cfg) := addPrefix (config w) name in
           let w := set_config cfg w in
           let p := set_nativeLog (nativeLog p ++ [NativeSetPrefix (it_id pr)]) p in
           Ok (Loc.set_latestPrefix (Some pr) l, p, w));
      (* Config may have been unlinked so update references to it. *)
      let l := Loc.set_elementList (ParserConfig.elementSpace_list (config w)) l in
      let l := Loc.set_attributeList (ParserConfig.attributeSpace_list (config w)) l in
      let l := Loc.set_prefixList (ParserConfig.prefixSpace_list (config w)) l in
      let l := Loc.set_uriList (ParserConfig.uriSpace_list (config w)) l in
      Ok (Loc.set_partStart (-1) l, p, w)
  | COMMENT_END_OFFSET =>
      let '(l, w) := pushToken VComment l p w in
      '(s, p) ← getSlice (Loc.partStart l) (Some code) p;
      let '(l, w) := pushToken (VString s) l p w in
      Ok (Loc.set_partStart (-1) l, p, w)
  | PARTIAL_LEN =>
      Ok (Loc.set_partialLen (Some code) l, p, w)
  | PARTIAL_URI_ID | PARTIAL_PREFIX_ID | PARTIAL_ATTRIBUTE_ID
  | PARTIAL_ELEMENT_ID =>
      '(l, p) ← partialCase kind code l p;
      Ok (l, p, w)
  | OTHER => Ok (l, p, w)
  end.

(** [codeBuffer[i]] of the [Uint32Array] shared with the scanner; an index
    past its end reads [undefined], which the bitwise operators turn
    into 0. *)
Definition cb_get (codeBuffer : list Z) (i : Z) : Z :=
  default 0 (codeBuffer !! Z.to_nat i).

(** [while(codeNum < codeCount)] with [n] codes left. *)
Fixpoint codeLoop (n : nat) (codeBuffer : list Z) (codeNum : Z)
    (l : Loc.t) (p : Parser) (w : World) : Result (Loc.t * Parser * World) :=
  match n with
  | O => Ok (l, p, w)
  | S n' =>
      let codeNum := codeNum + 1 in
      let code := cb_get codeBuffer codeNum in
      let kind := js_and code 31 in
      let code := js_sar code 5 in
      '(l, p, w) ← step (codeType kind) code l p w;
      codeLoop n' codeBuffer codeNum l p w
  end.

(** The local variables of [parseCodeBuffer] as they are initialised from
    the fields of the parser and of the configuration. *)
Definition enterLocals (p : Parser) (w : World) : Loc.t :=
  (* NOTE: These must be updated if config is unlinked! *)
  let elementList := ParserConfig.elementSpace_list (config w) in
  Loc.mk elementList
    (ParserConfig.attributeSpace_list (config w))
    (ParserConfig.prefixSpace_list (config w))
    (ParserConfig.uriSpace_list (config w))
    elementList
    (partStart p) (partialLen p) (latestElement p) (latestPrefix p)
    (latestNamespace p)
    (TokenChunk.length (TokenChunk.get (chunks w) (tokenChunk p)) - 1)
    (elementStart p) (unknownCount p).

(** [parseCodeBuffer(pending)], on the contents of [this.codeBuffer]. *)
Definition parseCodeBuffer (pending : bool) (codeBuffer : list Z)
    (p : Parser) (w : World) : Result (Parser * World) :=
  let codeCount := cb_get codeBuffer 0 in
  let l := enterLocals p w in
  '(l, p, w) ← codeLoop (Z.to_nat codeCount) codeBuffer 0 l p w;
  let '(l, p) :=
    if negb pending && (0 <=? Loc.partStart l)
    then (Loc.set_partStart 0 l, storeSlice (Loc.partStart l) None p)
    else (l, p) in
  let w := set_config (updateNamespaces (config w)) w in
  let p := set_partStart (Loc.partStart l) p in
  let p := set_partialLen (Loc.partialLen l) p in
  let p := set_latestElement (Loc.latestElement l) p in
  let p := set_latestPrefix (Loc.latestPrefix l) p in
  let p := set_latestNamespace (Loc.latestNamespace l) p in
  let w := set_chunkLength p w (Loc.tokenNum l + 1) in
  let p := set_elementStart (Loc.elementStart l) p in
  let p := set_unknownCount (Loc.unknownCount l) p in
  Ok (p, w).

(** The callback given to [native.setCodeBuffer], once for each buffer the
    scanner hands over while it runs. *)
Fixpoint pendingCallbacks (buffers : list (list Z)) (p : Parser) (w : World)
    : Result (Parser * World) :=
  match buffers with
  | [] => Ok (p, w)
  | b :: rest =>
      '(p, w) ← parseCodeBuffer true b p w;
      pendingCallbacks rest p w
  end.

(** *** The transform stream *)


(** [throwError(msg, row, col)]: the flag is set after [emit] and only if
    [emit] returns.  When [emit] throws, the exception leaves [throwError]
    and its caller at once, with the fields as they are at that moment. *)
Definition throwError (msg row col : Z) (p : Parser) : Parser :=
  let p := set_output (output p ++ [EmitError msg (row + 1) (col + 1)]) p in
  if emitReturns (errorListeners p) then set_hasError true p
  else set_output (output p ++ [Uncaught msg (row + 1) (col + 1)]) p.

(** [_flush(flush)].  [callbacks] are the code buffers for which the
    scanner invokes the callback while it is destroyed, if it does. *)
Definition _flush (callbacks : list (list Z)) (p : Parser) (w : World)
    : Result (Parser * World) :=
  let p := set_nativeLog (nativeLog p ++ [NativeDestroy]) p in
  '(p, w) ← pendingCallbacks callbacks p w;
  Ok (set_output (output p ++ [Flush None]) p, w).

(** [_transform(chunk, enc, flush)], given what the scanner does with the
    chunk.  [chunkSize] is [Infinity], so [len < chunkSize] holds for every
    chunk and the loop over slices of the chunk is never entered.  When
    [throwError] is left by the exception that [emit] throws, so is
    [_transform]: the last entry of the output is then [Uncaught]. *)
Definition _transform (data : Input) (run : NativeRun) (p : Parser) (w : World)
    : Result (Parser * World) :=
  if hasError p then Ok (p, w)
  else
    let data := match data with
                | InString s => encodeArray s
                | InArray b => b
                end in
    let p := set_chunk data p in
    let p := set_nativeLog (nativeLog p ++ [NativeParse (chunk p)]) p in
    '(p, w) ← pendingCallbacks (pendingBuffers run) p w;
    let nativeStatus := status run in
    '(p, w) ← parseCodeBuffer false (finalBuffer run) p w;
    if negb (bool_decide (nativeStatus = ErrorType_OK)) then
      Ok (throwError nativeStatus (row run) (col run) p, w)
    else if elementStart p <? 0 then
      let w := if namespacesChanged p
               then set_chunkNamespaceList p w (namespaceList p) else w in
      let p := set_output
                 (output p ++
                  [Flush (Some (tokenChunk p, TokenChunk.get (chunks w) (tokenChunk p)))]) p in
      let '(c, store) := TokenChunk.allocate None (chunks w) in
      Ok (set_tokenChunk c p, set_chunks store w)
    else
      (* Not ready to flush but have to send something to get more input. *)
      Ok (set_output (output p ++ [Flush None]) p, w).

(** The namespaces the constructor copies from the configuration. *)
Definition initialNamespaceList (cfg : ParserConfig.t) : JsArray Namespace :=
  fold_left
    (fun acc ns =>
       match ns with
       | Some ns =>
           let base := pn_base ns in
           if ns_isSpecial base
              || bool_decide (ns_defaultPrefix base = Some (jstr "xml"))
           then arr_set acc (ns_id base) base
           else acc
       | None => acc
       end)
    (ParserConfig.namespaceList cfg) arr_empty.

(** [new Parser(config, native)]: the field initialisers, then the body of
    the constructor. *)
Definition newParser (w : World) : Parser * World :=
  let '(c, store) := TokenChunk.allocate None (chunks w) in
  let w := set_chunks store w in
  (mkParser VUndefined None None [] (initialNamespaceList (config w)) true
     None (Some 0) (-1) None c (-1) arr_empty arr_empty ∅ ∅ arr_empty 0
     false [] [] [],
   w).

(** Every token the stream was handed, in order. *)
Definition emittedTokens (p : Parser) : list Value :=
  concat (map (fun e => match e with
                        | Flush (Some (_, c)) => chunkTokens c
                        | _ => []
                        end) (output p)).

End ParserCode.

(** ** Newlines, as a scan

    The replacement of [newlineRegex] written as one pass over the
    string. *)
Fixpoint scanNewlines (s : jsstring) : jsstring :=
  match s with
  | [] => []
  | c :: t =>
      if N.eqb c CR then
        LF :: match t with
              | d :: t' => if N.eqb d LF then scanNewlines t' else scanNewlines t
              | [] => []
              end
      else if N.eqb c LF then
        LF :: match t with
              | d :: t' => if N.eqb d CR then scanNewlines t' else scanNewlines t
              | [] => []
              end
      else c :: scanNewlines t
  end.

(** ** A small environment

    A concrete symbol table and codec on which the decoder can be run: the
    op-code kinds are numbered in the order of [CodeType], bytes are decoded
    as Latin-1, and a name resolved against a namespace is the same name
    bound to that namespace. *)
Module Sample.

Definition kinds : list CodeType :=
  [OPEN_ELEMENT_ID; CLOSE_ELEMENT_ID; ELEMENT_EMITTED; CLOSED_ELEMENT_EMITTED;
   ATTRIBUTE_ID; PREFIX_ID; XMLNS_ID; NAMESPACE_ID;
   TEXT_START_OFFSET; VALUE_START_OFFSET; COMMENT_START_OFFSET;
   UNKNOWN_START_OFFSET;
   UNKNOWN_OPEN_ELEMENT_END_OFFSET; UNKNOWN_CLOSE_ELEMENT_END_OFFSET;
   UNKNOWN_ATTRIBUTE_END_OFFSET;
   VALUE_END_OFFSET; TEXT_END_OFFSET;
   UNKNOWN_PREFIX_END_OFFSET; UNKNOWN_XMLNS_END_OFFSET; UNKNOWN_URI_END_OFFSET;
   COMMENT_END_OFFSET;
   PARTIAL_LEN; PARTIAL_URI_ID; PARTIAL_PREFIX_ID; PARTIAL_ATTRIBUTE_ID;
   PARTIAL_ELEMENT_ID].

Definition tagOf (k : CodeType) : Z :=
  match list_find (fun k' => k' = k) kinds with
  | Some (i, _) => Z.of_nat i
  | None => 31
  end.

(** The op-code [(payload << 5) | kind]. *)
Definition code (k : CodeType) (payload : Z) : Z := payload * 32 + tagOf k.

(** A code buffer: the count in slot 0, then the codes. *)
Definition codeBuffer (codes : list Z) : list Z :=
  Z.of_nat (length codes) :: codes.

Definition ascii_bytes (s : string) : bytes :=
  map Ascii.byte_of_ascii (String.list_ascii_of_string s).

Definition internal (obj : positive) (id : Z) (name : string) (ns : option Z)
    : InternalToken :=
  mkInternal obj id (jstr name) (ascii_bytes name)
    (mkMember KOpen obj (jstr name) ns)
    (mkMember KClose obj (jstr name) ns)
    (mkMember KString obj (jstr name) ns).

Definition env : Env := {|
  codeType := fun tag => default OTHER (kinds !! Z.to_nat tag);
  ErrorType_OK := 0;
  decodeBytes := map Byte.to_N;
  encodeArray := map (fun c => default x00 (Byte.of_N (c mod 256)%N));
  memberResolve := fun cfg t ns =>
    (VMember (mkMember (mt_kind t) (mt_obj t) (mt_name t)
                (option_map (fun n => ns_id (pn_base n)) ns)), cfg);
  addPrefix := fun cfg name =>
    (mkInternal 900 9 name [] (mkMember KOpen 900 name None)
       (mkMember KClose 900 name None) (mkMember KString 900 name None), cfg);
  bindNamespace := fun cfg ns name => (ParserConfig.maxNamespace cfg + 1, cfg);
  updateNamespaces := fun cfg => cfg;
  addElement := fun cfg ns name =>
    (mkInternal 901 0 name [] (mkMember KOpen 901 name (Some (pn_id ns)))
       (mkMember KClose 901 name (Some (pn_id ns)))
       (mkMember KString 901 name (Some (pn_id ns))), cfg)
|}.

(** A table with one declared element [doc], one declared attribute [id],
    the prefixes [xmlns] and [a], and the namespaces 0 (none) and 1
    ([urn:t]). *)
Definition config : ParserConfig.t :=
  ParserConfig.mk
    (mkTokenList 101 [internal 201 0 "doc" None])
    (mkTokenList 102 [internal 202 0 "id" None])
    (mkTokenList 103 [internal 203 0 "xmlns" None; internal 204 1 "a" None])
    (mkTokenList 104 [internal 205 0 "urn:t" None])
    [Some (mkParserNamespace 0 (mkNamespace [] [] 0 None false));
     Some (mkParserNamespace 1 (mkNamespace (jstr "t") (jstr "urn:t") 1 None false))]
    1.

Definition world : World := mkWorld TokenChunk.empty 1000 config.

(** A scanner run that ends well, with one code buffer. *)
Definition run (codes : list Z) : NativeRun :=
  mkRun [] (codeBuffer codes) 0 0 0.

End Sample.

(** ** What a decoding pass leaves alone

    [pframe p p']: the parser [p'] has the output, the error flag, the
    output chunk, the input buffer and the listeners of [p].  [wframe c w w']: the world
    [w'] has the free list of [w], and the same chunks except for the
    tokens and the length of the chunk at [c]. *)
Definition pframe (p p' : Parser) : Prop :=
  output p' = output p
  /\ hasError p' = hasError p
  /\ tokenChunk p' = tokenChunk p
  /\ chunk p' = chunk p
  /\ errorListeners p' = errorListeners p.

Definition wframe (c : positive) (w w' : World) : Prop :=
  TokenChunk.first (chunks w') = TokenChunk.first (chunks w)
  /\ TokenChunk.fresh (chunks w') = TokenChunk.fresh (chunks w)
  /\ (forall c', c' <> c ->
        TokenChunk.objects (chunks w') !! c' = TokenChunk.objects (chunks w) !! c')
  /\ TokenChunk.next (TokenChunk.get (chunks w') c)
     = TokenChunk.next (TokenChunk.get (chunks w) c)
  /\ TokenChunk.namespaceList (TokenChunk.get (chunks w') c)
     = TokenChunk.namespaceList (TokenChunk.get (chunks w) c).

(** ** The slots a prefix binding rewrites

    [patched es prefix p w pos]: the name token at position [pos] of the
    element context that starts at [es], when the prefix recorded for that
    position is [prefix]; [None] when the recorded prefix differs or the
    slot does not hold a name token. *)
Section Patched.
Context {E : Env}.



End Patched.

(** ** A document written in two parts

    The definitions below state what it means for the tokens of a document
    to be the same whether it is written at once or in two parts.  The
    scanner is not among the sources: its op-codes are given, and
    [safeStep] records what the decoder relies on from them. *)

Definition isStartKind (k : CodeType) : bool :=
  match k with
  | TEXT_START_OFFSET | VALUE_START_OFFSET | COMMENT_START_OFFSET
  | UNKNOWN_START_OFFSET => true
  | _ => false
  end.

Definition isEndKind (k : CodeType) : bool :=
  match k with
  | UNKNOWN_OPEN_ELEMENT_END_OFFSET | UNKNOWN_CLOSE_ELEMENT_END_OFFSET
  | UNKNOWN_ATTRIBUTE_END_OFFSET | VALUE_END_OFFSET | TEXT_END_OFFSET
  | UNKNOWN_PREFIX_END_OFFSET | UNKNOWN_XMLNS_END_OFFSET
  | UNKNOWN_URI_END_OFFSET | COMMENT_END_OFFSET => true
  | _ => false
  end.

(** The kinds whose payload is an offset into the input buffer. *)
Definition isOffsetKind (k : CodeType) : bool := isStartKind k || isEndKind k.

Definition isPartialKind (k : CodeType) : bool :=
  match k with
  | PARTIAL_URI_ID | PARTIAL_PREFIX_ID | PARTIAL_ATTRIBUTE_ID
  | PARTIAL_ELEMENT_ID => true
  | _ => false
  end.

(** The kinds the scanner sends for the name of an element that opens a
    start tag, and the kinds it sends inside a start tag. *)
Definition opensTag (k : CodeType) : bool :=
  match k with
  | OPEN_ELEMENT_ID | UNKNOWN_OPEN_ELEMENT_END_OFFSET => true
  | _ => false
  end.

Definition insideTag (k : CodeType) : bool :=
  match k with
  | ATTRIBUTE_ID | UNKNOWN_ATTRIBUTE_END_OFFSET | NAMESPACE_ID
  | UNKNOWN_URI_END_OFFSET | ELEMENT_EMITTED | CLOSED_ELEMENT_EMITTED => true
  | _ => false
  end.

(** What the decoder relies on when an op-code of kind [k] with payload
    [code] arrives, for an input buffer that covers the bytes [lo .. hi] of
    the document: an offset lies in the buffer; a run of text starts, and a
    partial name is announced, only when no run is open; a run ends after
    its start; a start tag is open for the kinds that belong inside one and
    for no kind that opens one. *)
Definition safeStep (lo hi : Z) (k : CodeType) (code : Z) (l : Loc.t) : bool :=
  (if isOffsetKind k then (lo <=? code) && (code <=? hi) else true)
  && (if isStartKind k || isPartialKind k then Loc.partStart l <? 0 else true)
  && (if isEndKind k
      then (0 <=? Loc.partStart l) && (Loc.partStart l <=? code) else true)
  && (if insideTag k then 0 <=? Loc.elementStart l else true)
  && (if opensTag k then Loc.elementStart l =? -1 else true).

Section Split.
Context {E : Env}.

(** [safeStep] along the loop of [parseCodeBuffer]; the loop must not
    throw. *)
Fixpoint safeLoop (lo hi : Z) (n : nat) (codeBuffer : list Z) (codeNum : Z)
    (l : Loc.t) (p : Parser) (w : World) : bool :=
  match n with
  | O => true
  | S n' =>
      let codeNum := codeNum + 1 in
      let code := cb_get codeBuffer codeNum in
      let kind := codeType (js_and code 31) in
      let code := js_sar code 5 in
      safeStep lo hi kind code l
      && match step kind code l p w with
         | Ok (l, p, w) => safeLoop lo hi n' codeBuffer codeNum l p w
         | Throw _ => false
         end
  end.

Definition safePass (lo hi : Z) (codeBuffer : list Z) (p : Parser) (w : World)
    : bool :=
  safeLoop lo hi (Z.to_nat (cb_get codeBuffer 0)) codeBuffer 0
    (enterLocals p w) p w.

(** The op-codes [cW] and [cS] are the same event, reported for an input
    buffer that starts [delta] bytes later in the case of [cS]. *)
Definition codeRel (delta : Z) (cW cS : Z) : bool :=
  let kind := codeType (js_and cW 31) in
  bool_decide (codeType (js_and cS 31) = kind)
  && (js_sar cW 5 =? js_sar cS 5 + (if isOffsetKind kind then delta else 0)).

(** The same for two code buffers. *)
Definition bufRel (delta : Z) (bW bS : list Z) : bool :=
  (cb_get bW 0 =? cb_get bS 0)
  && forallb (fun i => codeRel delta (cb_get bW (Z.of_nat i)) (cb_get bS (Z.of_nat i)))
       (seq 1 (Z.to_nat (cb_get bW 0))).

(** The document [doc] written at once, when the scanner hands over the
    op-codes of its first [k] bytes in the code buffer [buf1] and returns
    with the op-codes of the rest in [buf2]. *)
Definition wholeRun (buf1 buf2 : list Z) : NativeRun :=
  mkRun [buf1] buf2 ErrorType_OK 0 0.

(** The two writes of the document cut at [k]. *)
Definition firstRun (buf1 : list Z) : NativeRun := mkRun [] buf1 ErrorType_OK 0 0.
Definition secondRun (buf2 : list Z) : NativeRun := mkRun [] buf2 ErrorType_OK 0 0.

(** The op-codes of the whole document are safe: those of [buf1] for the
    bytes [0 .. k], those of [buf2] for the bytes [k .. length doc]. *)
Definition safeWhole (doc : bytes) (k : Z) (buf1 buf2 : list Z)
    (p : Parser) (w : World) : bool :=
  let p := set_chunk doc p in
  let p := set_nativeLog (nativeLog p ++ [NativeParse (chunk p)]) p in
  safePass 0 k buf1 p w
  && match parseCodeBuffer true buf1 p w with
     | Ok (p, w) => safePass k (Z.of_nat (length doc)) buf2 p w
     | Throw _ => false
     end.

(** The end of [parseCodeBuffer], after the loop: a run of text that is
    still open is saved, unless the pass is a callback of the scanner, and
    the local variables are written back to the fields. *)
Definition writeBack (pending : bool) (l : Loc.t) (p : Parser) (w : World)
    : Parser * World :=
  let '(l, p) :=
    if negb pending && (0 <=? Loc.partStart l)
    then (Loc.set_partStart 0 l, storeSlice (Loc.partStart l) None p)
    else (l, p) in
  let w := set_config (updateNamespaces (config w)) w in
  let p := set_partStart (Loc.partStart l) p in
  let p := set_partialLen (Loc.partialLen l) p in
  let p := set_latestElement (Loc.latestElement l) p in
  let p := set_latestPrefix (Loc.latestPrefix l) p in
  let p := set_latestNamespace (Loc.latestNamespace l) p in
  let w := set_chunkLength p w (Loc.tokenNum l + 1) in
  let p := set_elementStart (Loc.elementStart l) p in
  let p := set_unknownCount (Loc.unknownCount l) p in
  (p, w).

(** The tokens a parser has produced: those handed to the stream, then
    those in the chunk it is filling. *)
Definition tokensSoFar (p : Parser) (w : World) : list Value :=
  emittedTokens p ++ chunkTokens (TokenChunk.get (chunks w) (tokenChunk p)).

(** An array that has no element at or after its length. *)
Definition bounded {A} (a : JsArray A) : Prop :=
  forall j, 0 <= j -> arr_length a <= j -> arr_get a j = None.

(** A parser between two documents: no error, no run of text open, no
    part saved, no start tag open, and an output chunk whose length is that
    of its buffer. *)
Definition idle (p : Parser) (w : World) : Prop :=
  hasError p = false
  /\ partStart p = -1
  /\ partList p = None
  /\ partListTotalByteLen p = Some 0
  /\ elementStart p = -1
  /\ unknownCount p = 0
  /\ TokenChunk.length (TokenChunk.get (chunks w) (tokenChunk p))
     = arr_length (tokenBuffer p w)
  /\ 0 <= arr_length (tokenBuffer p w)
  /\ bounded (tokenBuffer p w).

(** [p] with the list of saved parts and its byte count replaced. *)
Definition withParts (parts : option (list bytes)) (total : option Z)
    (p : Parser) : Parser :=
  set_partListTotalByteLen total (set_partList parts p).

(** How the saved parts of the parser [pS], whose input buffer follows the
    bytes [pre] of the document [doc], relate to those of the parser [pW]
    that has the whole document as its input buffer; [sW] and [sS] are
    their values of [partStart].  Either no run is open; or the open run
    started in the buffer of [pS]; or it started before it, and [pS] has
    saved, after the parts that [pW] has, the bytes from its start to the
    end of [pre]. *)
Definition SliceRel (doc pre : bytes) (sW : Z) (pW : Parser) (sS : Z)
    (pS : Parser) : Prop :=
  chunk pW = doc
  /\ (exists post, doc = pre ++ chunk pS ++ post)
  /\ (partList pW = None -> partListTotalByteLen pW = Some 0)
  /\ ((sW < 0 /\ sS = sW
       /\ partList pS = partList pW
       /\ partListTotalByteLen pS = partListTotalByteLen pW)
      \/ (Z.of_nat (length pre) <= sW /\ sS = sW - Z.of_nat (length pre)
          /\ partList pS = partList pW
          /\ partListTotalByteLen pS = partListTotalByteLen pW)
      \/ (0 <= sW <= Z.of_nat (length pre) /\ sS = 0
          /\ (exists parts,
                partList pS = Some parts
                /\ concat parts
                   = concat (default [] (partList pW)) ++ drop (Z.to_nat sW) pre)
          /\ partListTotalByteLen pS
             = (t ← partListTotalByteLen pW;
                Some (t + Z.of_nat (length pre) - sW)))).

(** The elements of a token buffer, as the tokens of a chunk. *)
Definition elems (b : JsArray Value) : list Value :=
  map (default VUndefined) (arr_elements b).

(** The token buffer [bS] of the parser that got the document in parts
    holds the entries of [bW], the buffer of the parser that got it at
    once, from index [d] on; the first [d] entries of [bW] are the tokens
    [F] that were handed to the stream after the first part. *)
Definition BufRel (d : Z) (F : list Value) (bW bS : JsArray Value) : Prop :=
  d = Z.of_nat (length F)
  /\ arr_length bW = arr_length bS + d
  /\ 0 <= arr_length bS
  /\ (forall j, 0 <= j -> arr_get bW (j + d) = arr_get bS j)
  /\ (forall i, (i < length F)%nat ->
        default VUndefined (arr_get bW (Z.of_nat i)) = nth i F VUndefined).

(** The decoder that got the document in parts ([lS], [pS], [wS]) against
    the decoder that got it at once ([lW], [pW], [wW]): the same symbol
    table, tables of names and prefixes; token positions shifted by [d];
    saved parts related by [SliceRel]. *)
Definition Rel (doc pre : bytes) (d : Z) (F : list Value)
    (lW : Loc.t) (pW : Parser) (wW : World)
    (lS : Loc.t) (pS : Parser) (wS : World) : Prop :=
  Loc.elementList lS = Loc.elementList lW
  /\ Loc.attributeList lS = Loc.attributeList lW
  /\ Loc.prefixList lS = Loc.prefixList lW
  /\ Loc.uriList lS = Loc.uriList lW
  /\ Loc.partialList lS = Loc.partialList lW
  /\ Loc.partialLen lS = Loc.partialLen lW
  /\ Loc.latestElement lS = Loc.latestElement lW
  /\ Loc.latestPrefix lS = Loc.latestPrefix lW
  /\ Loc.latestNamespace lS = Loc.latestNamespace lW
  /\ Loc.unknownCount lS = Loc.unknownCount lW
  /\ namespaceList pS = namespaceList pW
  /\ namespacesChanged pS = namespacesChanged pW
  /\ prefixBuffer pS = prefixBuffer pW
  /\ namespaceBuffer pS = namespaceBuffer pW
  /\ unknownElementTbl pS = unknownElementTbl pW
  /\ unknownAttributeTbl pS = unknownAttributeTbl pW
  /\ unknownOffsetList pS = unknownOffsetList pW
  /\ config wS = config wW
  /\ nextObj wS = nextObj wW
  /\ Loc.tokenNum lS = Loc.tokenNum lW - d
  /\ -1 <= Loc.tokenNum lS
  /\ ((Loc.elementStart lW = -1 /\ Loc.elementStart lS = -1)
      \/ (0 <= Loc.elementStart lS
          /\ Loc.elementStart lS = Loc.elementStart lW - d))
  /\ BufRel d F (tokenBuffer pW wW) (tokenBuffer pS wS)
  /\ SliceRel doc pre (Loc.partStart lW) pW (Loc.partStart lS) pS.

(** The loops over the open start tag, on the two decoders. *)
Definition LoopRel (d : Z) (F : list Value) (pW : Parser) (wW : World)
    (pS : Parser) (wS : World) : Prop :=
  BufRel d F (tokenBuffer pW wW) (tokenBuffer pS wS)
  /\ prefixBuffer pS = prefixBuffer pW
  /\ namespaceBuffer pS = namespaceBuffer pW
  /\ config wS = config wW.

(** What holds of the decoder along a safe run: the token buffer is filled
    up to [tokenNum]; the open start tag, if there is one, begins inside
    it; the queue of unknown names is empty outside a start tag and holds
    positions of the open start tag. *)
Definition Inv (l : Loc.t) (p : Parser) (w : World) : Prop :=
  arr_length (tokenBuffer p w) = Loc.tokenNum l + 1
  /\ -1 <= Loc.tokenNum l
  /\ (Loc.elementStart l = -1 \/ 0 <= Loc.elementStart l <= Loc.tokenNum l)
  /\ (Loc.elementStart l = -1 -> Loc.unknownCount l = 0)
  /\ 0 <= Loc.unknownCount l
  /\ (forall pos, 0 <= pos < Loc.unknownCount l ->
        exists off,
          arr_get (unknownOffsetList p) pos = Some off
          /\ 0 <= off <= Loc.tokenNum l - Loc.elementStart l).

End Split.

(** ** Runs of the stream *)

Section Runs.
Context {E : Env}.

(** The bytes that [_transform] hands to the scanner. *)
Definition inputBytes (data : Input) : bytes :=
  match data with
  | InString s => encodeArray s
  | InArray b => b
  end.

(** The part of [_transform] up to the test of the scanner's status: the
    scanner runs on the chunk and every code buffer is decoded. *)
Definition decodePass (data : Input) (run : NativeRun) (p : Parser) (w : World)
    : Result (Parser * World) :=
  let p := set_chunk (inputBytes data) p in
  let p := set_nativeLog (nativeLog p ++ [NativeParse (chunk p)]) p in
  '(p, w) ← pendingCallbacks (pendingBuffers run) p w;
  parseCodeBuffer false (finalBuffer run) p w.


End Runs.

(** The state a call leaves, for a call that returns. *)
Definition returned (r : Result (Parser * World)) (p : Parser) (w : World)
    : Parser * World :=
  match r with
  | Ok pw => pw
  | Throw _ => (p, w)
  end.

Module SampleRuns.
Import Sample.

Definition parser0 : Parser := fst (newParser world).
Definition world0 : World := snd (newParser world).

(** [<doc/>tail]: the element is complete and a text run is open at the
    end of the write. *)
Definition trailing : Input := InArray (ascii_bytes "<doc/>tail").
Definition trailingRun : NativeRun :=
  run [code OPEN_ELEMENT_ID 0; code CLOSED_ELEMENT_EMITTED 0;
       code TEXT_START_OFFSET 6].








(** [<doc id='7'>] cut inside the attribute value: the start tag is open
    at the end of the write. *)
Definition openTag : Input := InArray (ascii_bytes "<doc id='7").
Definition openTagRun : NativeRun :=
  run [code OPEN_ELEMENT_ID 0; code ATTRIBUTE_ID 0; code VALUE_START_OFFSET 9].

Definition afterOpenTagPass : Parser * World :=
  returned (decodePass (E:=env) openTag openTagRun parser0 world0)
    parser0 world0.

Definition afterOpenTag : Parser * World :=
  returned (_transform (E:=env) openTag openTagRun parser0 world0)
    parser0 world0.

Definition afterTrailing : Parser * World :=
  returned (_transform (E:=env) trailing trailingRun parser0 world0)
    parser0 world0.

Definition afterTrailingFlush : Parser * World :=
  returned (_flush (E:=env) [] (fst afterTrailing) (snd afterTrailing))
    parser0 world0.

(** [<!--hi-->]: the state of the decoder when the op-code for the end of
    the comment arrives. *)
Definition inComment : Parser :=
  set_chunk (ascii_bytes "<!--hi-->") parser0.
Definition inCommentLocals : Loc.t :=
  Loc.set_partStart 4 (enterLocals inComment world0).

(** Two pipelines: parser A is [parser0]; parser B is created after it
    from the same configuration. *)
Definition parserB : Parser := fst (newParser world0).
Definition worldAB : World := snd (newParser world0).





(** [<constructor/>] and [<item/>]: two elements that the configuration
    does not declare, written to parser A and then to parser B. *)
Definition protoDoc : Input := InArray (ascii_bytes "<constructor/>").
Definition protoRun : NativeRun :=
  run [code UNKNOWN_START_OFFSET 1; code UNKNOWN_OPEN_ELEMENT_END_OFFSET 12;
       code CLOSED_ELEMENT_EMITTED 0].

Definition protoA : Parser * World :=
  returned (_transform (E:=env) protoDoc protoRun parser0 worldAB)
    parser0 worldAB.
Definition protoB : Parser * World :=
  returned (_transform (E:=env) protoDoc protoRun parserB (snd protoA))
    parserB (snd protoA).

Definition itemDoc : Input := InArray (ascii_bytes "<item/>").
Definition itemRun : NativeRun :=
  run [code UNKNOWN_START_OFFSET 1; code UNKNOWN_OPEN_ELEMENT_END_OFFSET 5;
       code CLOSED_ELEMENT_EMITTED 0].

Definition itemA : Parser * World :=
  returned (_transform (E:=env) itemDoc itemRun parser0 worldAB)
    parser0 worldAB.
Definition itemA2 : Parser * World :=
  returned (_transform (E:=env) itemDoc itemRun (fst itemA) (snd itemA))
    parser0 worldAB.
Definition itemB : Parser * World :=
  returned (_transform (E:=env) itemDoc itemRun parserB (snd itemA2))
    parserB (snd itemA2).

(** The start tag of the element [a:x] with the attribute [a:y], where [x]
    and [y] are not declared, and the binding of the prefix [a]: once with
    the binding before the attribute, once with the binding last.  The
    op-codes are those of a scanner that reports namespace 0 with a prefix
    that is not bound yet, and namespace 1 once the prefix is bound to
    it. *)
Definition prefixCode (nsId prefixIdx : Z) : Z :=
  code PREFIX_ID (nsId * 16384 + prefixIdx).

Definition bindFirst : Input :=
  InArray (ascii_bytes "<a:x xmlns:a='urn:t' a:y='1'/>").
Definition bindFirstRun : NativeRun :=
  run [prefixCode 0 1; code UNKNOWN_START_OFFSET 3;
       code UNKNOWN_OPEN_ELEMENT_END_OFFSET 4;
       code XMLNS_ID 1; code NAMESPACE_ID 1;
       prefixCode 1 1; code UNKNOWN_START_OFFSET 23;
       code UNKNOWN_ATTRIBUTE_END_OFFSET 24;
       code VALUE_START_OFFSET 26; code VALUE_END_OFFSET 27;
       code CLOSED_ELEMENT_EMITTED 0].

Definition bindLast : Input :=
  InArray (ascii_bytes "<a:x a:y='1' xmlns:a='urn:t'/>").
Definition bindLastCodes : list Z :=
  [prefixCode 0 1; code UNKNOWN_START_OFFSET 3;
   code UNKNOWN_OPEN_ELEMENT_END_OFFSET 4;
   prefixCode 0 1; code UNKNOWN_START_OFFSET 7;
   code UNKNOWN_ATTRIBUTE_END_OFFSET 8;
   code VALUE_START_OFFSET 10; code VALUE_END_OFFSET 11;
   code XMLNS_ID 1; code NAMESPACE_ID 1;
   code CLOSED_ELEMENT_EMITTED 0].
Definition bindLastRun : NativeRun := run bindLastCodes.

Definition afterBindFirst : Parser * World :=
  returned (_transform (E:=env) bindFirst bindFirstRun parser0 world0)
    parser0 world0.
Definition afterBindLast : Parser * World :=
  returned (_transform (E:=env) bindLast bindLastRun parser0 world0)
    parser0 world0.

(** The decoder in the second start tag, when the op-code of the binding
    arrives: after the first nine op-codes. *)
Definition beforeBinding : Loc.t * Parser * World :=
  let p := set_chunk (inputBytes (E:=env) bindLast) parser0 in
  match codeLoop (E:=env) 9 (codeBuffer bindLastCodes) 0
          (enterLocals p world0) p world0 with
  | Ok lpw => lpw
  | Throw _ => (enterLocals p world0, p, world0)
  end.

Definition afterBinding : Parser * World :=
  let '(l, p, w) := beforeBinding in
  returned (resolve (E:=env) (Loc.elementStart l) (Loc.tokenNum l)
              (Loc.latestPrefix l) 1 p w) p w.

(** [<a:doc xmlns:a='urn:t'/>]: the declared element [doc], written with
    the prefix [a] that its own start tag binds. *)
Definition lateDoc : Input := InArray (ascii_bytes "<a:doc xmlns:a='urn:t'/>").
Definition lateDocCodes : list Z :=
  [prefixCode 0 1; code OPEN_ELEMENT_ID 0;
   code XMLNS_ID 1; code NAMESPACE_ID 1;
   code CLOSED_ELEMENT_EMITTED 0].
Definition lateDocRun : NativeRun := run lateDocCodes.

Definition afterLateDoc : Parser * World :=
  returned (_transform (E:=env) lateDoc lateDocRun parser0 world0)
    parser0 world0.




(** The decoder in [<item/>] when the op-code for the end of the name
    arrives, and after it. *)
Definition beforeItemName : Loc.t * Parser * World :=
  let p := set_chunk (inputBytes (E:=env) itemDoc) parser0 in
  match codeLoop (E:=env) 1 (finalBuffer itemRun) 0
          (enterLocals p world0) p world0 with
  | Ok lpw => lpw
  | Throw _ => (enterLocals p world0, p, world0)
  end.

Definition afterItemName : Loc.t * Parser * World :=
  let '(l, p, w) := beforeItemName in
  match step (E:=env) UNKNOWN_OPEN_ELEMENT_END_OFFSET 5 l p w with
  | Ok lpw => lpw
  | Throw _ => (l, p, w)
  end.

(** The first token of the [n]-th chunk a parser handed to its stream. *)
Definition firstTokenOf (n : nat) (p : Parser) : option Value :=
  match output p !! n with
  | Some (Flush (Some (_, c))) => head (chunkTokens c)
  | _ => None
  end.

(** [<doc/>hello<doc/>], cut inside the text after 8 bytes.  Written at
    once, the scanner hands over the op-codes of the first 8 bytes in a
    callback and returns with those of the rest; written as [<doc/>he] and
    [llo<doc/>], the offsets of the second write count from its start. *)
Definition twoDocs : bytes := ascii_bytes "<doc/>hello<doc/>".

Definition twoDocsHead : list Z :=
  codeBuffer [code OPEN_ELEMENT_ID 0; code CLOSED_ELEMENT_EMITTED 0;
              code TEXT_START_OFFSET 6].

Definition twoDocsTail (start : Z) : list Z :=
  codeBuffer [code TEXT_END_OFFSET (11 - start); code OPEN_ELEMENT_ID 0;
              code CLOSED_ELEMENT_EMITTED 0].

Definition afterTwoDocs : Parser * World :=
  returned (_transform (E:=env) (InArray twoDocs)
              (wholeRun (E:=env) twoDocsHead (twoDocsTail 0)) parser0 world0)
    parser0 world0.

Definition afterTwoDocsHead : Parser * World :=
  returned (_transform (E:=env) (InArray (take 8 twoDocs))
              (firstRun (E:=env) twoDocsHead) parser0 world0)
    parser0 world0.

Definition afterTwoDocsCut : Parser * World :=
  returned (_transform (E:=env) (InArray (drop 8 twoDocs))
              (secondRun (E:=env) (twoDocsTail 8))
              (fst afterTwoDocsHead) (snd afterTwoDocsHead))
    (fst afterTwoDocsHead) (snd afterTwoDocsHead).

End SampleRuns.

(** * Properties *)

(** * Newline normalisation *)

Lemma regex_exec_newline (s : jsstring) :
  regex_exec newlineRegex s =
  match s with
  | [] => None
  | c :: t =>
      if N.eqb c CR then
        Some (match t with
              | d :: t' => if N.eqb d LF then t' else t
              | [] => []
              end)
      else if N.eqb c LF then
        match t with
        | d :: t' => if N.eqb d CR then Some t' else None
        | [] => None
        end
      else None
  end.
Proof.
  unfold regex_exec, newlineRegex. destruct s as [|c t]; [reflexivity|].
  cbn [rmatch].
  destruct (N.eqb c CR) eqn:Hc.
  - destruct t as [|d t']; [reflexivity|].
    destruct (N.eqb d LF); reflexivity.
  - destruct (N.eqb c LF); [|reflexivity].
    destruct t as [|d t']; [reflexivity|].
    destruct (N.eqb d CR); reflexivity.
Qed.

Lemma replaceAll_fuel_scan (fuel : nat) (s : jsstring) :
  (length s < fuel)%nat ->
  replaceAll_fuel fuel newlineRegex [LF] s = scanNewlines s.
Proof.
  revert s. induction fuel as [|fuel IH]; intros s Hlen; [lia|].
  destruct s as [|c t].
  - cbn [replaceAll_fuel]. rewrite regex_exec_newline. reflexivity.
  - cbn [replaceAll_fuel]. rewrite regex_exec_newline.
    cbn [scanNewlines]. cbn [length] in Hlen.
    destruct (N.eqb c CR).
    + destruct t as [|d t'].
      * cbn. destruct fuel; reflexivity.
      * destruct (N.eqb d LF).
        -- rewrite (proj2 (Nat.ltb_lt _ _)) by (cbn; lia).
           cbn [app]. f_equal. apply IH. cbn in Hlen. lia.
        -- rewrite (proj2 (Nat.ltb_lt _ _)) by (cbn; lia).
           cbn [app]. f_equal. apply IH. lia.
    + destruct (N.eqb_spec c LF) as [->|Hne].
      * destruct t as [|d t'].
        -- f_equal. destruct fuel; reflexivity.
        -- destruct (N.eqb d CR).
           ++ rewrite (proj2 (Nat.ltb_lt _ _)) by (cbn; lia).
              cbn [app]. f_equal. apply IH. cbn in Hlen. lia.
           ++ f_equal. (* c = LF kept *) 
              apply IH. lia.
      * f_equal. apply IH. lia.
Qed.

Lemma normalizeNewlines_scan (s : jsstring) :
  normalizeNewlines s = scanNewlines s.
Proof. unfold normalizeNewlines, replaceAll. apply replaceAll_fuel_scan. lia. Qed.

Lemma scanNewlines_no_CR (s : jsstring) :
  existsb (N.eqb CR) (scanNewlines s) = false.
Proof.
  induction s as [s IH] using (induction_ltof1 _ (@length N)).
  unfold ltof in IH.
  destruct s as [|c t]; [reflexivity|].
  cbn [scanNewlines].
  destruct (N.eqb_spec c CR) as [->|Hc].
  - cbn [existsb]. change (N.eqb CR LF) with false. cbn [orb].
    destruct t as [|d t']; [reflexivity|].
    destruct (N.eqb d LF); apply IH; cbn; lia.
  - destruct (N.eqb_spec c LF) as [->|Hl].
    + cbn [existsb]. change (N.eqb CR LF) with false. cbn [orb].
      destruct t as [|d t']; [reflexivity|].
      destruct (N.eqb d CR); apply IH; cbn; lia.
    + cbn [existsb]. rewrite IH by (cbn; lia).
      destruct (N.eqb_spec CR c); [congruence|reflexivity].
Qed.

Section Newlines.
Context {E : Env}.

(** C5. Every string [getSlice] returns — a text, an attribute value, a
    comment or a name — is the newline normalisation of the decoded bytes.
    The normalisation scans from left to right: a CR with the LF that
    follows it if there is one, and an LF with the CR that follows it if
    there is one, each become a single LF; every other character is kept.
    No CR is left in the result, and the text a CR LF b CR c LF CR d becomes
    a LF b LF c LF d. *)
Theorem C5_newline_normalization :
  normalizeNewlines [] = []
  /\ (forall c s,
        normalizeNewlines (c :: s) =
        if N.eqb c CR then
          LF :: normalizeNewlines
                  (match s with
                   | d :: t => if N.eqb d LF then t else s
                   | [] => []
                   end)
        else if N.eqb c LF then
          LF :: normalizeNewlines
                  (match s with
                   | d :: t => if N.eqb d CR then t else s
                   | [] => []
                   end)
        else c :: normalizeNewlines s)
  /\ (forall s, existsb (N.eqb CR) (normalizeNewlines s) = false)
  /\ (forall start end_ p,
        match getSlice start end_ p with
        | Ok (s, _) =>
            existsb (N.eqb CR) s = false
            /\ s = normalizeNewlines
                     (match partList p with
                      | None => decodeArray (chunk p) start end_
                      | Some _ =>
                          match buildSlice start end_ p with
                          | Ok (raw, _) => raw
                          | Throw _ => []
                          end
                      end)
        | Throw _ => True
        end)
  /\ normalizeNewlines
       (jstr "a" ++ [CR; LF] ++ jstr "b" ++ [CR] ++ jstr "c" ++ [LF; CR] ++ jstr "d")
     = jstr "a" ++ [LF] ++ jstr "b" ++ [LF] ++ jstr "c" ++ [LF] ++ jstr "d".
Proof.
  split; [reflexivity|].
  split.
  { intros c s. rewrite !normalizeNewlines_scan. cbn [scanNewlines].
    destruct (N.eqb c CR).
    - destruct s as [|d t]; [reflexivity|].
      destruct (N.eqb d LF); reflexivity.
    - destruct (N.eqb c LF).
      + destruct s as [|d t]; [reflexivity|].
        destruct (N.eqb d CR); reflexivity.
      + reflexivity. }
  split.
  { intros s. rewrite normalizeNewlines_scan. apply scanNewlines_no_CR. }
  split.
  { intros start end_ p. unfold getSlice.
    destruct (partList p) as [parts|].
    - destruct (buildSlice start end_ p) as [[raw p']|e]; cbn -[normalizeNewlines]; [|exact I].
      split; [|reflexivity].
      rewrite normalizeNewlines_scan. apply scanNewlines_no_CR.
    - cbn -[normalizeNewlines]. split; [|reflexivity].
      rewrite normalizeNewlines_scan. apply scanNewlines_no_CR. }
  vm_compute. reflexivity.
Qed.

End Newlines.

(** * The pool of token chunks *)

Lemma get_put_same (s : TokenChunk.Store) (c : positive) (x : TokenChunk.t) :
  TokenChunk.get (TokenChunk.put s c x) c = x.
Proof.
  unfold TokenChunk.get, TokenChunk.put. cbn.
  rewrite lookup_insert_eq. reflexivity.
Qed.

Lemma get_put_other (s : TokenChunk.Store) (c c' : positive) (x : TokenChunk.t) :
  c <> c' -> TokenChunk.get (TokenChunk.put s c x) c' = TokenChunk.get s c'.
Proof.
  intros Hne. unfold TokenChunk.get, TokenChunk.put. cbn.
  rewrite lookup_insert_ne by exact Hne. reflexivity.
Qed.

(** What [allocate] returns when the free list is not empty: its head, with
    the fields reset. *)
Lemma allocate_from_free_list (buf : option (JsArray Value))
    (s : TokenChunk.Store) (c : positive) :
  TokenChunk.first s = Some c ->
  TokenChunk.allocate buf s =
  (c, TokenChunk.put
        (TokenChunk.mkStore (TokenChunk.objects s) (TokenChunk.fresh s)
           (TokenChunk.next (TokenChunk.get s c)))
        c
        (TokenChunk.mk (arr_length (default arr_empty buf))
           (default arr_empty buf) None None)).
Proof. intros Hfirst. unfold TokenChunk.allocate. rewrite Hfirst. reflexivity. Qed.

(** C3. For every store of chunks and every chunk in it, whatever the chunk
    holds: after [free()] on the chunk, [allocate()] returns that chunk, its
    length is zero, its buffer is a new empty array, and its free-list
    pointer and its namespace list are [undefined]; the free list is back to
    what it was before the chunk was released. *)
Theorem C3_free_then_allocate (s : TokenChunk.Store) (this : positive) :
  let (chunk, s') := TokenChunk.allocate None (TokenChunk.free this s) in
  chunk = this
  /\ TokenChunk.length (TokenChunk.get s' chunk) = 0
  /\ TokenChunk.namespaceList (TokenChunk.get s' chunk) = None
  /\ TokenChunk.buffer (TokenChunk.get s' chunk) = arr_empty
  /\ TokenChunk.next (TokenChunk.get s' chunk) = None
  /\ TokenChunk.first s' = TokenChunk.first s.
Proof.
  rewrite (allocate_from_free_list None _ this) by reflexivity.
  rewrite get_put_same. cbn.
  repeat split.
  unfold TokenChunk.get, TokenChunk.free. cbn.
  rewrite lookup_insert_eq. reflexivity.
Qed.

(** * Frame properties of the decoder *)

Ltac inv_bind H :=
  unfold mbind, Result_bind in H;
  repeat match type of H with
  | match ?m with Ok _ => _ | Throw _ => Throw _ end = Ok _ =>
      let E := fresh "E" in
      destruct m as [?|?] eqn:E; [|discriminate H]
  | (let '(_, _) := ?x in _) = Ok _ => destruct x
  | match ?x with (_, _) => _ end = Ok _ => destruct x
  end.

Ltac inv_ok :=
  repeat first
    [ progress unfold mbind, Result_bind in *
    | match goal with
      | H : Throw _ = Ok _ |- _ => discriminate H
      | H : Ok _ = Ok _ |- _ => injection H as H
      | H : (_, _) = (_, _) |- _ => injection H as ? ?
      | H : match ?m with Ok _ => _ | Throw _ => Throw _ end = Ok _ |- _ =>
          destruct m as [?|?] eqn:?; [|discriminate H]
      | H : (let '(_, _) := ?x in _) = _ |- _ => destruct x as [? ?] eqn:?
      | H : match ?x with Some _ => _ | None => _ end = Ok _ |- _ =>
          destruct x eqn:?; try discriminate H
      | H : (if ?b then _ else _) = _ |- _ => destruct b eqn:?
      end ];
  subst.

Lemma bind_Ok_inv {A B} (m : Result A) (f : A -> Result B) (r : B) :
  m ≫= f = Ok r -> exists a, m = Ok a /\ f a = Ok r.
Proof.
  destruct m as [a|msg]; [|discriminate]. intros H. exists a. split; [reflexivity|exact H].
Qed.

Lemma bind_Ok {A B} (a : A) (f : A -> Result B) : Ok a ≫= f = f a.
Proof. reflexivity. Qed.

Lemma resolveUnknown_S `{E : Env} n es pos (p : Parser) (w : World) :
  resolveUnknown (S n) es pos p w
  = match
      match arr_get (unknownOffsetList p) pos with
      | None => Ok w
      | Some offset =>
          match mjoin (arr_get (namespaceBuffer p) offset) with
          | None => Ok w
          | Some ns =>
              match tb_get p w (offset + es) with
              | VMember token =>
                  let '(v, cfg) :=
                    memberResolve (config w) token
                      (ParserConfig.getNamespace (config w) (pn_id ns)) in
                  Ok (tb_set p (set_config cfg w) (offset + es) v)
              | _ => Throw "TypeError: resolve is not a function"
              end
          end
      end
    with
    | Ok w1 => resolveUnknown n es (pos + 1) p w1
    | Throw m => Throw m
    end.
Proof. reflexivity. Qed.

Lemma pframe_refl (p : Parser) : pframe p p.
Proof. repeat split. Qed.

Lemma pframe_trans (p1 p2 p3 : Parser) :
  pframe p1 p2 -> pframe p2 p3 -> pframe p1 p3.
Proof.
  intros (A1 & A2 & A3 & A4 & A5) (B1 & B2 & B3 & B4 & B5).
  repeat split; congruence.
Qed.

Lemma wframe_refl (c : positive) (w : World) : wframe c w w.
Proof. repeat split. Qed.

Lemma wframe_trans (c : positive) (w1 w2 w3 : World) :
  wframe c w1 w2 -> wframe c w2 w3 -> wframe c w1 w3.
Proof.
  intros (A1 & A2 & A3 & A4 & A5) (B1 & B2 & B3 & B4 & B5).
  repeat split; try congruence.
  intros c' Hc. rewrite B3, A3 by exact Hc. reflexivity.
Qed.

Lemma wframe_set_config (c : positive) (cfg : ParserConfig.t) (w : World) :
  wframe c w (set_config cfg w).
Proof. repeat split. Qed.

Lemma wframe_set_nextObj (c : positive) (n : positive) (w : World) :
  wframe c w (set_nextObj n w).
Proof. repeat split. Qed.

Section Frame.
Context {E : Env}.

Lemma wframe_tb_set (p : Parser) (w : World) (i : Z) (v : Value) :
  wframe (tokenChunk p) w (tb_set p w i v).
Proof.
  unfold wframe, tb_set. cbn.
  repeat split.
  - intros c' Hc. rewrite lookup_insert_ne by congruence. reflexivity.
  - rewrite get_put_same. reflexivity.
  - rewrite get_put_same. reflexivity.
Qed.

Lemma wframe_set_chunkLength (p : Parser) (w : World) (n : Z) :
  wframe (tokenChunk p) w (set_chunkLength p w n).
Proof.
  unfold wframe, set_chunkLength. cbn.
  repeat split.
  - intros c' Hc. rewrite lookup_insert_ne by congruence. reflexivity.
  - rewrite get_put_same. reflexivity.
  - rewrite get_put_same. reflexivity.
Qed.

Lemma wframe_pushToken (v : Value) (l l' : Loc.t) (p : Parser) (w w' : World) :
  pushToken v l p w = (l', w') -> wframe (tokenChunk p) w w'.
Proof.
  unfold pushToken. intros [= <- <-]. apply wframe_tb_set.
Qed.

Lemma pframe_storeSlice (start : Z) (end_ : option Z) (p : Parser) :
  pframe p (storeSlice start end_ p).
Proof.
  unfold storeSlice.
  destruct (partList p); case_bool_decide; repeat split.
Qed.

Lemma pframe_buildSlice (start : Z) (end_ : option Z) (p p' : Parser) (s : jsstring) :
  buildSlice start end_ p = Ok (s, p') -> pframe p p'.
Proof.
  unfold buildSlice. intros Hb. inv_bind Hb. injection Hb as <- <-.
  eapply pframe_trans; [apply (pframe_storeSlice start end_)|].
  repeat split.
Qed.

Lemma pframe_getSlice (start : Z) (end_ : option Z) (p p' : Parser) (s : jsstring) :
  getSlice start end_ p = Ok (s, p') -> pframe p p'.
Proof.
  unfold getSlice. intros Hg.
  destruct (partList p).
  - inv_bind Hg. injection Hg as <- <-.
    eapply pframe_buildSlice; eassumption.
  - cbn in Hg. injection Hg as <- <-. apply pframe_refl.
Qed.

Lemma frame_resolveSlot elementStart prefix ns pos (p p' : Parser) (w w' : World) :
  resolveSlot elementStart prefix ns pos p w = (p', w') ->
  pframe p p' /\ wframe (tokenChunk p) w w'.
Proof.
  unfold resolveSlot. intros Hr.
  case_bool_decide.
  - destruct (tb_get p w (pos + elementStart));
      try (injection Hr as <- <-; split; [apply pframe_refl|apply wframe_refl]).
    destruct (memberResolve (config w) t (Some ns)) as [v cfg].
    injection Hr as <- <-. split; [repeat split|].
    eapply wframe_trans; [apply (wframe_set_config _ cfg)|].
    apply (wframe_tb_set p).
  - injection Hr as <- <-. split; [apply pframe_refl|apply wframe_refl].
Qed.

Lemma frame_resolveLoop n elementStart prefix ns pos (p p' : Parser) (w w' : World) :
  resolveLoop n elementStart prefix ns pos p w = (p', w') ->
  pframe p p' /\ wframe (tokenChunk p) w w'.
Proof.
  revert pos p w. induction n as [|n IH]; intros pos p w Hl.
  - cbn in Hl. injection Hl as <- <-. split; [apply pframe_refl|apply wframe_refl].
  - cbn [resolveLoop] in Hl.
    destruct (resolveSlot elementStart prefix ns pos p w) as [p1 w1] eqn:Hs.
    apply frame_resolveSlot in Hs as [Hp Hw].
    apply IH in Hl as [Hp' Hw'].
    split; [eapply pframe_trans; eassumption|].
    eapply wframe_trans; [eassumption|].
    destruct Hp as (_ & _ & <- & _). exact Hw'.
Qed.

Lemma frame_resolve elementStart tokenNum prefix idNamespace
    (p p' : Parser) (w w' : World) :
  resolve elementStart tokenNum prefix idNamespace p w = Ok (p', w') ->
  pframe p p' /\ wframe (tokenChunk p) w w'.
Proof.
  unfold resolve. intros Hr.
  destruct (ParserConfig.getNamespace (config w) idNamespace) as [ns|]; [|discriminate].
  inv_bind Hr. injection Hr as Hr.
  apply frame_resolveLoop in Hr as [Hp Hw]. cbn in Hp, Hw.
  split.
  - eapply pframe_trans; [|exact Hp]. repeat split.
  - eapply wframe_trans; [|exact Hw].
    destruct (noDefaultPrefix (pn_base ns)).
    + destruct prefix; [|discriminate]. injection E0 as <- <-.
      apply wframe_set_config.
    + injection E0 as <- <-. apply wframe_refl.
Qed.

Lemma wframe_resolveUnknown n elementStart pos (p : Parser) (w w' : World) :
  resolveUnknown n elementStart pos p w = Ok w' ->
  wframe (tokenChunk p) w w'.
Proof.
  revert pos w. induction n as [|n IH]; intros pos w Hr.
  - cbn in Hr. injection Hr as <-. apply wframe_refl.
  - cbn [resolveUnknown] in Hr. inv_bind Hr.
    apply IH in Hr. eapply wframe_trans; [|exact Hr].
    destruct (arr_get (unknownOffsetList p) pos) as [offset|];
      [|injection E0 as <-; apply wframe_refl].
    destruct (mjoin (arr_get (namespaceBuffer p) offset)) as [ns|];
      [|injection E0 as <-; apply wframe_refl].
    destruct (tb_get p w (offset + elementStart)); try discriminate.
    destruct (memberResolve _ _ _) as [v cfg].
    injection E0 as <-.
    eapply wframe_trans; [apply (wframe_set_config _ cfg)|].
    apply (wframe_tb_set p).
Qed.

Lemma pframe_partialCase entry code (l l' : Loc.t) (p p' : Parser) :
  partialCase entry code l p = Ok (l', p') -> pframe p p'.
Proof.
  unfold partialCase. intros Hp.
  match type of Hp with
  | match tl_get ?a ?b with _ => _ end = _ => destruct (tl_get a b); [|discriminate]
  end.
  injection Hp as <- <-. repeat split.
Qed.

Ltac frame_facts :=
  repeat match goal with
  | H : pushToken _ _ _ _ = _ |- _ => apply wframe_pushToken in H
  | H : getSlice _ _ _ = Ok _ |- _ => apply pframe_getSlice in H
  | H : resolve _ _ _ _ _ _ = Ok _ |- _ => apply frame_resolve in H as [? ?]
  | H : resolveUnknown _ _ _ _ _ = Ok _ |- _ => apply wframe_resolveUnknown in H
  | H : partialCase _ _ _ _ = Ok _ |- _ => apply pframe_partialCase in H
  end.

Ltac wframe_chain :=
  repeat first
    [ apply wframe_refl
    | assumption
    | apply wframe_set_config
    | apply wframe_set_nextObj
    | match goal with
      | H : wframe ?c ?w _ |- wframe ?c ?w _ =>
          eapply wframe_trans; [exact H|]
      | H : wframe ?c (set_config _ ?w) _ |- wframe ?c ?w _ =>
          eapply wframe_trans; [apply wframe_set_config|]
      | H : wframe ?c (set_nextObj _ ?w) _ |- wframe ?c ?w _ =>
          eapply wframe_trans; [apply wframe_set_nextObj|]
      end ].

Ltac frame_solve :=
  frame_facts;
  unfold pframe in *; cbn in *;
  repeat match goal with
  | H : _ /\ _ |- _ => destruct H
  end;
  repeat match goal with
  | H : tokenChunk _ = tokenChunk _ |- _ => rewrite H in *; clear H
  end;
  split; [repeat split; congruence | wframe_chain].

(** One step of the decoder keeps the output, the error flag, the output
    chunk and the input buffer of the parser, and the free list and the
    other chunks of the world. *)
Lemma frame_step kind code (l l' : Loc.t) (p p' : Parser) (w w' : World) :
  step kind code l p w = Ok (l', p', w') ->
  pframe p p' /\ wframe (tokenChunk p) w w'.
Proof.
  intros Hs.
  destruct kind; cbn [step] in Hs; inv_ok; frame_solve.
Qed.

Lemma frame_codeLoop n codeBuffer codeNum (l l' : Loc.t) (p p' : Parser) (w w' : World) :
  codeLoop n codeBuffer codeNum l p w = Ok (l', p', w') ->
  pframe p p' /\ wframe (tokenChunk p) w w'.
Proof.
  revert codeNum l p w. induction n as [|n IH]; intros codeNum l p w Hc.
  - cbn in Hc. injection Hc as <- <- <-.
    split; [apply pframe_refl|apply wframe_refl].
  - cbn [codeLoop] in Hc. unfold mbind, Result_bind in Hc.
    destruct (step _ _ l p w) as [[[l1 p1] w1]|] eqn:Hs; [|discriminate].
    apply frame_step in Hs as [Hp Hw].
    apply IH in Hc as [Hp' Hw'].
    split; [eapply pframe_trans; eassumption|].
    eapply wframe_trans; [eassumption|].
    destruct Hp as (_ & _ & <- & _). exact Hw'.
Qed.

(** A pass over a code buffer keeps the output, the error flag, the output
    chunk and the input buffer, and the free list of the chunk pool. *)
Lemma frame_parseCodeBuffer pending codeBuffer (p p' : Parser) (w w' : World) :
  parseCodeBuffer pending codeBuffer p w = Ok (p', w') ->
  pframe p p' /\ wframe (tokenChunk p) w w'.
Proof.
  unfold parseCodeBuffer. intros Hc. unfold mbind, Result_bind in Hc.
  destruct (codeLoop _ _ _ _ p w) as [[[l1 p1] w1]|] eqn:Hl; [|discriminate].
  apply frame_codeLoop in Hl as [Hp Hw].
  destruct (negb pending && (0 <=? Loc.partStart l1)).
  - injection Hc as <- <-.
    pose proof (pframe_storeSlice (Loc.partStart l1) None p1) as Hs.
    split.
    + eapply pframe_trans; [exact Hp|].
      eapply pframe_trans; [exact Hs|]. repeat split.
    + eapply wframe_trans; [exact Hw|].
      eapply wframe_trans; [apply wframe_set_config|].
      destruct Hp as (_ & _ & <- & _). destruct Hs as (_ & _ & <- & _).
      apply (wframe_set_chunkLength
               (set_latestNamespace _ (set_latestPrefix _ (set_latestElement _
                  (set_partialLen _ (set_partStart _ (storeSlice _ _ p1))))))).
  - injection Hc as <- <-.
    split.
    + eapply pframe_trans; [exact Hp|]. repeat split.
    + eapply wframe_trans; [exact Hw|].
      eapply wframe_trans; [apply wframe_set_config|].
      destruct Hp as (_ & _ & <- & _).
      apply (wframe_set_chunkLength
               (set_latestNamespace _ (set_latestPrefix _ (set_latestElement _
                  (set_partialLen _ (set_partStart _ p1)))))).
Qed.

Lemma frame_pendingCallbacks buffers (p p' : Parser) (w w' : World) :
  pendingCallbacks buffers p w = Ok (p', w') ->
  pframe p p' /\ wframe (tokenChunk p) w w'.
Proof.
  revert p w. induction buffers as [|b rest IH]; intros p w Hc.
  - cbn in Hc. injection Hc as <- <-.
    split; [apply pframe_refl|apply wframe_refl].
  - cbn [pendingCallbacks] in Hc. unfold mbind, Result_bind in Hc.
    destruct (parseCodeBuffer true b p w) as [[p1 w1]|] eqn:Hb; [|discriminate].
    apply frame_parseCodeBuffer in Hb as [Hp Hw].
    apply IH in Hc as [Hp' Hw'].
    split; [eapply pframe_trans; eassumption|].
    eapply wframe_trans; [eassumption|].
    destruct Hp as (_ & _ & <- & _). exact Hw'.
Qed.

End Frame.

(** * The transform stream *)

Section Stream.
Context {E : Env}.

Lemma frame_decodePass data run (p p' : Parser) (w w' : World) :
  decodePass data run p w = Ok (p', w') ->
  output p' = output p
  /\ hasError p' = hasError p
  /\ tokenChunk p' = tokenChunk p
  /\ chunk p' = inputBytes data
  /\ wframe (tokenChunk p) w w'.
Proof.
  unfold decodePass. intros Hd. unfold mbind, Result_bind in Hd.
  destruct (pendingCallbacks _ _ w) as [[p1 w1]|] eqn:Hp; [|discriminate].
  apply frame_pendingCallbacks in Hp as [(A1 & A2 & A3 & A4 & _) Hw].
  apply frame_parseCodeBuffer in Hd as [(B1 & B2 & B3 & B4 & _) Hw'].
  cbn in *. rewrite A3 in Hw'.
  do 4 (split; [congruence|]).
  eapply wframe_trans; eassumption.
Qed.


(** [_transform] in terms of the decoding pass. *)
Lemma _transform_unfold data run (p : Parser) (w : World) :
  _transform data run p w =
  if hasError p then Ok (p, w)
  else
    '(p, w) ← decodePass data run p w;
    if negb (bool_decide (status run = ErrorType_OK)) then
      Ok (throwError (status run) (row run) (col run) p, w)
    else if elementStart p <? 0 then
      let w := if namespacesChanged p
               then set_chunkNamespaceList p w (namespaceList p) else w in
      let p := set_output
                 (output p ++
                  [Flush (Some (tokenChunk p, TokenChunk.get (chunks w) (tokenChunk p)))]) p in
      let '(c, store) := TokenChunk.allocate None (chunks w) in
      Ok (set_tokenChunk c p, set_chunks store w)
    else Ok (set_output (output p ++ [Flush None]) p, w).
Proof.
  unfold _transform, decodePass, inputBytes.
  destruct (hasError p); [reflexivity|].
  unfold mbind, Result_bind.
  destruct (pendingCallbacks _ _ w) as [[p1 w1]|]; reflexivity.
Qed.



(** C7. After a decoding pass on which the scanner reports OK: if no
    element context is open ([elementStart < 0]) the chunk that was being
    filled is handed to the stream with the tokens of the pass in it, and
    the parser goes on with an empty chunk drawn from the pool; if a start
    tag is open a [null] chunk is handed over instead, and the parser keeps
    the chunk it was filling, with its contents; the world is unchanged. *)
Theorem C7_flush_iff_no_open_element data run (p p1 p' : Parser) (w w1 w' : World) :
  hasError p = false ->
  status run = ErrorType_OK ->
  decodePass data run p w = Ok (p1, w1) ->
  _transform data run p w = Ok (p', w') ->
  if elementStart p1 <? 0 then
    exists c,
      output p' = output p ++ [Flush (Some (tokenChunk p, c))]
      /\ TokenChunk.buffer c = tokenBuffer p1 w1
      /\ TokenChunk.length c
         = TokenChunk.length (TokenChunk.get (chunks w1) (tokenChunk p))
      /\ tokenChunk p' = fst (TokenChunk.allocate None (chunks w))
      /\ TokenChunk.length (TokenChunk.get (chunks w') (tokenChunk p')) = 0
      /\ TokenChunk.buffer (TokenChunk.get (chunks w') (tokenChunk p')) = arr_empty
  else
    output p' = output p ++ [Flush None]
    /\ tokenChunk p' = tokenChunk p
    /\ tokenBuffer p' w' = tokenBuffer p1 w1
    /\ elementStart p' = elementStart p1
    /\ w' = w1.
Proof.
  intros Hok Hst Hd Ht. rewrite _transform_unfold, Hok, Hd in Ht.
  cbn [mbind Result_bind] in Ht. unfold mbind, Result_bind in Ht.
  rewrite bool_decide_eq_true_2 in Ht by exact Hst. cbn [negb] in Ht.
  apply frame_decodePass in Hd as (A1 & A2 & A3 & A4 & Hw).
  destruct (elementStart p1 <? 0) eqn:Hes.
  - set (w2 := if namespacesChanged p1
               then set_chunkNamespaceList p1 w1 (namespaceList p1) else w1) in Ht.
    assert (Hw2 : TokenChunk.first (chunks w2) = TokenChunk.first (chunks w)
                  /\ TokenChunk.fresh (chunks w2) = TokenChunk.fresh (chunks w)
                  /\ TokenChunk.buffer (TokenChunk.get (chunks w2) (tokenChunk p1))
                     = tokenBuffer p1 w1
                  /\ TokenChunk.length (TokenChunk.get (chunks w2) (tokenChunk p1))
                     = TokenChunk.length (TokenChunk.get (chunks w1) (tokenChunk p1))).
    { destruct Hw as (F1 & F2 & _). subst w2.
      destruct (namespacesChanged p1); cbn.
      - rewrite get_put_same. cbn. repeat split; assumption.
      - repeat split; assumption. }
    destruct Hw2 as (G1 & G2 & G3 & G4).
    destruct (TokenChunk.allocate None (chunks w2)) as [c store] eqn:Ha.
    injection Ht as <- <-.
    exists (TokenChunk.get (chunks w2) (tokenChunk p1)).
    cbn. rewrite A1, A3 in *.
    split; [reflexivity|]. split; [exact G3|]. split; [exact G4|].
    assert (Hc : c = fst (TokenChunk.allocate None (chunks w))
                 /\ TokenChunk.get store c = TokenChunk.mk 0 arr_empty None None).
    { unfold TokenChunk.allocate in Ha |- *. rewrite G1, G2 in Ha.
      destruct (TokenChunk.first (chunks w)) as [c0|];
        injection Ha as <- <-; (split; [reflexivity|apply get_put_same]). }
    destruct Hc as [Hc1 Hc2]. rewrite Hc2.
    repeat split. exact Hc1.
  - injection Ht as <- <-. cbn. rewrite A1.
    repeat split; assumption.
Qed.

Lemma emittedTokens_flush_null (p : Parser) :
  emittedTokens (set_output (output p ++ [Flush None]) p) = emittedTokens p.
Proof.
  unfold emittedTokens. cbn. rewrite map_app, concat_app. cbn.
  rewrite app_nil_r. reflexivity.
Qed.

(** C8, as the code has it. [_flush] destroys the scanner and calls the
    stream's callback with a [null] chunk: the stream gets no token at the
    end of the input, whatever the scanner does while it is destroyed.
    When the scanner makes no callback, the parser is otherwise untouched:
    the bytes saved for a run that is still open stay in the part list,
    undecoded. *)
Theorem C8_flush_emits_nothing callbacks (p p' : Parser) (w w' : World) :
  _flush callbacks p w = Ok (p', w') ->
  output p' = output p ++ [Flush None]
  /\ emittedTokens p' = emittedTokens p
  /\ _flush [] p w
     = Ok (set_output (output p ++ [Flush None])
             (set_nativeLog (nativeLog p ++ [NativeDestroy]) p), w)
  /\ partList (set_output (output p ++ [Flush None])
                (set_nativeLog (nativeLog p ++ [NativeDestroy]) p))
     = partList p.
Proof.
  unfold _flush. intros Hf. unfold mbind, Result_bind in Hf.
  destruct (pendingCallbacks callbacks _ w) as [[p1 w1]|] eqn:Hp; [|discriminate].
  apply frame_pendingCallbacks in Hp as [(A1 & _) _]. cbn in A1.
  injection Hf as <- <-.
  split; [cbn; rewrite A1; reflexivity|].
  split; [|split; reflexivity].
  rewrite emittedTokens_flush_null. unfold emittedTokens. rewrite A1. reflexivity.
Qed.


End Stream.



(** Witness of C7: a write that ends inside a start tag. *)
Lemma C7_flush_iff_no_open_element_witness :
  output (fst SampleRuns.afterOpenTag) = [Flush None]
  /\ tokenChunk (fst SampleRuns.afterOpenTag) = tokenChunk SampleRuns.parser0.
Proof.
  pose proof (C7_flush_iff_no_open_element (E:=Sample.env)
                SampleRuns.openTag SampleRuns.openTagRun
                SampleRuns.parser0
                (fst SampleRuns.afterOpenTagPass) (fst SampleRuns.afterOpenTag)
                SampleRuns.world0
                (snd SampleRuns.afterOpenTagPass) (snd SampleRuns.afterOpenTag)
                ltac:(reflexivity) ltac:(reflexivity)
                ltac:(vm_compute; reflexivity) ltac:(vm_compute; reflexivity))
    as H7.
  change (elementStart (fst SampleRuns.afterOpenTagPass) <? 0) with false in H7.
  destruct H7 as (H1 & H2 & _).
  split; [exact H1|exact H2].
Defined.

(** Counterexample to C8 as stated: after the write of [<doc/>tail] the
    text run [tail] is open and its bytes are saved; the end of the stream
    hands over a [null] chunk, and the tokens the stream got are those of
    the element alone. *)
Lemma C8_trailing_text_is_dropped :
  partList (fst SampleRuns.afterTrailing) = Some [Sample.ascii_bytes "tail"]
  /\ partStart (fst SampleRuns.afterTrailing) = 0
  /\ _flush (E:=Sample.env) [] (fst SampleRuns.afterTrailing)
       (snd SampleRuns.afterTrailing)
     = Ok SampleRuns.afterTrailingFlush
  /\ output (fst SampleRuns.afterTrailingFlush)
     = output (fst SampleRuns.afterTrailing) ++ [Flush None]
  /\ emittedTokens (fst SampleRuns.afterTrailingFlush)
     = [VMember (mkMember KOpen 201 (jstr "doc") None);
        VMember (mkMember KClose 201 (jstr "doc") None)]
  /\ ~ In (VString (jstr "tail")) (emittedTokens (fst SampleRuns.afterTrailingFlush)).
Proof.
  do 5 (split; [vm_compute; reflexivity|]).
  vm_compute. intros [H|[H|[]]]; discriminate H.
Qed.

(** Witness of C8 as amended, on the same run. *)
Lemma C8_flush_emits_nothing_witness :
  output (fst SampleRuns.afterTrailingFlush)
  = output (fst SampleRuns.afterTrailing) ++ [Flush None]
  /\ emittedTokens (fst SampleRuns.afterTrailingFlush)
     = emittedTokens (fst SampleRuns.afterTrailing).
Proof.
  destruct (C8_flush_emits_nothing (E:=Sample.env) []
              (fst SampleRuns.afterTrailing) (fst SampleRuns.afterTrailingFlush)
              (snd SampleRuns.afterTrailing) (snd SampleRuns.afterTrailingFlush))
    as (H1 & H2 & _).
  - vm_compute. reflexivity.
  - split; [exact H1|exact H2].
Defined.



(** * Arrays and the token buffer *)

Lemma arr_elements_push {A} (a : JsArray A) (v : A) :
  0 <= arr_length a ->
  arr_elements (arr_set a (arr_length a) v) = arr_elements a ++ [Some v].
Proof.
  intros Hlen. unfold arr_elements, arr_set. cbn.
  rewrite (proj2 (Z.leb_le _ _)) by exact Hlen.
  replace (Z.max (arr_length a) (arr_length a + 1)) with (arr_length a + 1) by lia.
  rewrite Z2Nat.inj_add by lia. change (Z.to_nat 1) with 1%nat.
  rewrite Nat.add_1_r, seq_S, map_app. cbn.
  f_equal.
  - apply map_ext_in. intros i Hi. apply in_seq in Hi.
    unfold arr_get. cbn. apply lookup_insert_ne. lia.
  - unfold arr_get. cbn. rewrite Z2Nat.id by exact Hlen.
    rewrite lookup_insert_eq. reflexivity.
Qed.

Lemma arr_length_push {A} (a : JsArray A) (v : A) :
  0 <= arr_length a ->
  arr_length (arr_set a (arr_length a) v) = arr_length a + 1.
Proof.
  intros Hlen. cbn. rewrite (proj2 (Z.leb_le _ _)) by exact Hlen. lia.
Qed.

Section TokenBuffer.
Context {E : Env}.

Lemma tokenBuffer_tb_set (p : Parser) (w : World) (i : Z) (v : Value) :
  tokenBuffer p (tb_set p w i v) = arr_set (tokenBuffer p w) i v.
Proof. unfold tokenBuffer, tb_set. cbn. rewrite get_put_same. reflexivity. Qed.


(** The token buffer is found through the address of the output chunk
    alone. *)
Lemma tokenBuffer_same_chunk (p p' : Parser) (w : World) :
  tokenChunk p' = tokenChunk p -> tokenBuffer p' w = tokenBuffer p w.
Proof. unfold tokenBuffer. intros ->. reflexivity. Qed.

(** C10. On an op-code whose kind is the end offset of a comment, when the
    token buffer is filled up to [tokenNum], the decoder appends exactly two
    entries to it: the marker [SpecialToken.comment], then the string
    [getSlice] returns for the comment; [tokenNum] advances by two and no
    text is open afterwards. *)
Theorem C10_comment_takes_two_slots (raw : Z) (l : Loc.t) (p p1 : Parser)
    (w : World) (s : jsstring) :
  codeType (js_and raw 31) = COMMENT_END_OFFSET ->
  getSlice (Loc.partStart l) (Some (js_sar raw 5)) p = Ok (s, p1) ->
  arr_length (tokenBuffer p w) = Loc.tokenNum l + 1 ->
  0 <= Loc.tokenNum l + 1 ->
  exists l' w',
    step (codeType (js_and raw 31)) (js_sar raw 5) l p w = Ok (l', p1, w')
    /\ Loc.tokenNum l' = Loc.tokenNum l + 2
    /\ Loc.partStart l' = -1
    /\ arr_elements (tokenBuffer p1 w')
       = arr_elements (tokenBuffer p w) ++ [Some VComment; Some (VString s)]
    /\ tb_get p1 w' (Loc.tokenNum l + 1) = VComment
    /\ tb_get p1 w' (Loc.tokenNum l + 2) = VString s.
Proof.
  intros Hkind Hslice Hlen Hnn. rewrite Hkind. cbn [step].
  unfold pushToken. cbn [Loc.tokenNum Loc.set_tokenNum Loc.partStart].
  replace (Loc.partStart (Loc.set_tokenNum (Loc.tokenNum l + 1) l))
    with (Loc.partStart l) by reflexivity.
  rewrite Hslice. cbn [mbind Result_bind]. unfold mbind, Result_bind.
  pose proof (pframe_getSlice _ _ _ _ _ Hslice) as (_ & _ & Htc & _).
  eexists _, _. split; [reflexivity|].
  split; [cbn; lia|]. split; [reflexivity|].
  cbn [Loc.tokenNum Loc.set_tokenNum].
  assert (Hbuf : tokenBuffer p1
                   (tb_set p1 (tb_set p w (Loc.tokenNum l + 1) VComment)
                      (Loc.tokenNum l + 1 + 1) (VString s))
                 = arr_set (arr_set (tokenBuffer p w) (Loc.tokenNum l + 1) VComment)
                     (Loc.tokenNum l + 1 + 1) (VString s)).
  { rewrite tokenBuffer_tb_set, (tokenBuffer_same_chunk p p1) by exact Htc.
    rewrite tokenBuffer_tb_set. reflexivity. }
  split; [|split].
  - rewrite Hbuf, <- Hlen.
    rewrite <- (arr_length_push (tokenBuffer p w) VComment) by lia.
    rewrite arr_elements_push by (rewrite arr_length_push; lia).
    rewrite arr_elements_push by lia.
    rewrite <- app_assoc. reflexivity.
  - unfold tb_get. rewrite Hbuf. unfold arr_get, arr_set. cbn.
    rewrite lookup_insert_ne by lia. rewrite lookup_insert_eq. reflexivity.
  - unfold tb_get. rewrite Hbuf. unfold arr_get, arr_set. cbn.
    replace (Loc.tokenNum l + 2) with (Loc.tokenNum l + 1 + 1) by lia.
    rewrite lookup_insert_eq. reflexivity.
Qed.

End TokenBuffer.

(** Witness of C10: the comment of [<!--hi-->]. *)
Lemma C10_comment_takes_two_slots_witness :
  exists l' w',
    step (E:=Sample.env) COMMENT_END_OFFSET 6 SampleRuns.inCommentLocals
      SampleRuns.inComment SampleRuns.world0
    = Ok (l', SampleRuns.inComment, w')
    /\ arr_elements (tokenBuffer SampleRuns.inComment w')
       = [Some VComment; Some (VString (jstr "hi"))].
Proof.
  destruct (C10_comment_takes_two_slots (E:=Sample.env)
              (Sample.code COMMENT_END_OFFSET 6) SampleRuns.inCommentLocals
              SampleRuns.inComment SampleRuns.inComment SampleRuns.world0
              (jstr "hi"))
    as (l' & w' & H1 & _ & _ & H2 & _).
  - reflexivity.
  - vm_compute. reflexivity.
  - reflexivity.
  - vm_compute. discriminate.
  - exists l', w'. split; [exact H1|exact H2].
Defined.

(** * The tables of undeclared names *)

(** The tables are created as [{}]: a name that [Object.prototype] defines
    is found in every table, also in an empty one. *)
Lemma tbl_get_prototype (tbl : gmap (list N) MemberToken) (name : jsstring) :
  tbl !! name = None ->
  name ∈ objectPrototypeNames ->
  tbl_get tbl name = VProto name /\ falsy (tbl_get tbl name) = false.
Proof.
  intros Hnone Hin. unfold tbl_get. rewrite Hnone.
  rewrite bool_decide_eq_true_2 by exact Hin. split; reflexivity.
Qed.

(** A name that [Object.prototype] does not define is looked up among the
    names the parser has cached. *)
Lemma tbl_get_plain (tbl : gmap (list N) MemberToken) (name : jsstring) :
  name ∉ objectPrototypeNames ->
  tbl_get tbl name = match tbl !! name with
                     | Some t => VMember t
                     | None => VUndefined
                     end.
Proof.
  intros Hin. unfold tbl_get. destruct (tbl !! name); [reflexivity|].
  rewrite bool_decide_eq_false_2 by exact Hin. reflexivity.
Qed.

(** An undeclared element [item]: parser A yields the same name-ref for two
    occurrences, and parser B a different one. *)
Lemma item_interned_per_instance :
  SampleRuns.firstTokenOf 0 (fst SampleRuns.itemA2)
  = Some (VMember (mkMember KOpen 1000 (jstr "item") None))
  /\ SampleRuns.firstTokenOf 1 (fst SampleRuns.itemA2)
     = Some (VMember (mkMember KOpen 1000 (jstr "item") None))
  /\ SampleRuns.firstTokenOf 0 (fst SampleRuns.itemB)
     = Some (VMember (mkMember KOpen 1001 (jstr "item") None)).
Proof.
  split; [vm_compute; reflexivity|].
  split; vm_compute; reflexivity.
Qed.

(** C4, at the undeclared element name [constructor]. The table of parser
    A, created as [{}], finds [Object.prototype.constructor] under that
    name: no [OpenToken] is created or cached, the token buffer gets the
    inherited function itself, and the token for the end of the element is
    [undefined].  Parser B, a different instance, yields the very same
    value: the name-refs of the two instances are not distinct. *)
Theorem C4_prototype_name_shared_across_instances :
  SampleRuns.firstTokenOf 0 (fst SampleRuns.protoA)
  = Some (VProto (jstr "constructor"))
  /\ SampleRuns.firstTokenOf 0 (fst SampleRuns.protoB)
     = SampleRuns.firstTokenOf 0 (fst SampleRuns.protoA)
  /\ unknownElementTbl (fst SampleRuns.protoA) = ∅
  /\ unknownElementTbl (fst SampleRuns.protoB) = ∅
  /\ emittedTokens (fst SampleRuns.protoA)
     = [VProto (jstr "constructor"); VUndefined]
  /\ tokenChunk SampleRuns.parser0 <> tokenChunk SampleRuns.parserB.
Proof.
  do 5 (split; [vm_compute; reflexivity|]).
  vm_compute. discriminate.
Qed.

(** * Forward resolution of a prefix *)

Section Resolve.
Context {E : Env}.


Lemma resolveSlot_shape es prefix ns pos (p p' : Parser) (w w' : World) :
  resolveSlot es prefix ns pos p w = (p', w') ->
  p' = set_namespaceBuffer (namespaceBuffer p') p /\ nextObj w' = nextObj w.
Proof.
  unfold resolveSlot. intros Hr.
  assert (Hid : p = set_namespaceBuffer (namespaceBuffer p) p) by (destruct p; reflexivity).
  destruct (bool_decide _).
  - destruct (tb_get p w (pos + es));
      try (injection Hr as <- <-; split; [exact Hid|reflexivity]).
    destruct (memberResolve _ _ _) as [v cfg]. injection Hr as <- <-.
    split; reflexivity.
  - injection Hr as <- <-. split; [exact Hid|reflexivity].
Qed.

Lemma resolveLoop_shape n es prefix ns pos (p p' : Parser) (w w' : World) :
  resolveLoop n es prefix ns pos p w = (p', w') ->
  p' = set_namespaceBuffer (namespaceBuffer p') p /\ nextObj w' = nextObj w.
Proof.
  revert pos p w. induction n as [|n IH]; intros pos p w Hl.
  - cbn in Hl. injection Hl as <- <-. split; [destruct p|]; reflexivity.
  - cbn [resolveLoop] in Hl.
    destruct (resolveSlot es prefix ns pos p w) as [p1 w1] eqn:Hs.
    apply resolveSlot_shape in Hs as [S1 S2].
    apply IH in Hl as [L1 L2].
    split; [|congruence]. rewrite L1, S1. reflexivity.
Qed.

Lemma resolve_shape es tokenNum prefix idNamespace (p p' : Parser) (w w' : World) :
  resolve es tokenNum prefix idNamespace p w = Ok (p', w') ->
  p' = set_namespaceBuffer (namespaceBuffer p')
         (set_namespacesChanged true (set_namespaceList (namespaceList p') p))
  /\ nextObj w' = nextObj w.
Proof.
  unfold resolve. intros Hr.
  destruct (ParserConfig.getNamespace (config w) idNamespace) as [ns0|]; [|discriminate].
  unfold mbind, Result_bind in Hr.
  match type of Hr with
  | match ?m with Ok _ => _ | Throw _ => _ end = _ =>
      destruct m as [[ns w1]|] eqn:Hns; [|discriminate]
  end.
  injection Hr as Hr.
  assert (Hw1 : nextObj w1 = nextObj w).
  { destruct (noDefaultPrefix (pn_base ns0)).
    - destruct prefix; [|discriminate]. injection Hns as <- <-. reflexivity.
    - injection Hns as <- <-. reflexivity. }
  apply resolveLoop_shape in Hr as [L1 L2].
  split; [|congruence]. rewrite L1. reflexivity.
Qed.

Lemma resolve_keeps es tokenNum prefix idNamespace (p p' : Parser) (w w' : World) :
  resolve es tokenNum prefix idNamespace p w = Ok (p', w') ->
  namespacesChanged p' = true
  /\ unknownElementTbl p' = unknownElementTbl p
  /\ unknownAttributeTbl p' = unknownAttributeTbl p
  /\ unknownOffsetList p' = unknownOffsetList p
  /\ chunk p' = chunk p
  /\ partList p' = partList p
  /\ partListTotalByteLen p' = partListTotalByteLen p
  /\ tokenChunk p' = tokenChunk p
  /\ nextObj w' = nextObj w.
Proof.
  intros Hr. apply resolve_shape in Hr as [-> ->]. repeat split.
Qed.









End Resolve.

(** The two start tags of the sample yield the same tokens, with the
    element and the attribute bound to namespace 1, whether the binding
    comes before the attribute or last. *)
Lemma binding_order_irrelevant_on_sample :
  emittedTokens (fst SampleRuns.afterBindFirst)
  = [VMember (mkMember KOpen 1000 (jstr "x") (Some 1));
     VMember (mkMember KString 1001 (jstr "y") (Some 1));
     VString (jstr "1");
     VMember (mkMember KClose 1000 (jstr "x") (Some 1))]
  /\ emittedTokens (fst SampleRuns.afterBindLast)
     = emittedTokens (fst SampleRuns.afterBindFirst).
Proof. split; vm_compute; reflexivity. Qed.

(** The write of [<a:doc xmlns:a='urn:t'/>], where [doc] is declared: the
    stream gets the start of [doc] in namespace 1 and the end of [doc] in
    no namespace. *)
Lemma declared_element_bound_in_its_tag :
  _transform (E:=Sample.env) SampleRuns.lateDoc SampleRuns.lateDocRun
    SampleRuns.parser0 SampleRuns.world0
  = Ok SampleRuns.afterLateDoc
  /\ emittedTokens (fst SampleRuns.afterLateDoc)
     = [VMember (mkMember KOpen 201 (jstr "doc") (Some 1));
        VMember (mkMember KClose 201 (jstr "doc") None)].
Proof. split; vm_compute; reflexivity. Qed.


(** * Slices of a document written in parts *)

Lemma relIndex_in (len i : Z) : 0 <= i <= len -> relIndex len i = i.
Proof.
  intros Hi. unfold relIndex.
  destruct (i <? 0) eqn:Hneg; [apply Z.ltb_lt in Hneg; lia|lia].
Qed.

Lemma js_slice_in {A} (l : list A) (s e : Z) :
  0 <= s <= e -> e <= Z.of_nat (length l) ->
  js_slice l s (Some e) = take (Z.to_nat (e - s)) (drop (Z.to_nat s) l).
Proof.
  intros Hs He. unfold js_slice. rewrite !relIndex_in by lia. reflexivity.
Qed.

Lemma js_slice_tail {A} (l : list A) (s : Z) :
  0 <= s <= Z.of_nat (length l) ->
  js_slice l s None = drop (Z.to_nat s) l.
Proof.
  intros Hs. unfold js_slice. rewrite relIndex_in by lia.
  apply take_ge. rewrite length_drop. lia.
Qed.

(** A slice that lies in the window [c] of [pre ++ c ++ post]. *)
Lemma js_slice_window {A} (pre c post : list A) (s e : Z) :
  Z.of_nat (length pre) <= s <= e ->
  e <= Z.of_nat (length pre) + Z.of_nat (length c) ->
  js_slice (pre ++ c ++ post) s (Some e)
  = js_slice c (s - Z.of_nat (length pre)) (Some (e - Z.of_nat (length pre))).
Proof.
  intros Hs He.
  rewrite js_slice_in by (rewrite ?length_app; lia).
  rewrite js_slice_in by lia.
  replace (Z.to_nat s) with (length pre + Z.to_nat (s - Z.of_nat (length pre)))%nat by lia.
  rewrite drop_app_add.
  replace (e - Z.of_nat (length pre) - (s - Z.of_nat (length pre))) with (e - s) by lia.
  rewrite drop_app_le by lia.
  rewrite take_app_le; [reflexivity|].
  rewrite length_drop. lia.
Qed.

(** A slice that starts in [pre] and ends in the window [c]. *)
Lemma js_slice_span {A} (pre c post : list A) (s e : Z) :
  0 <= s <= Z.of_nat (length pre) ->
  Z.of_nat (length pre) <= e <= Z.of_nat (length pre) + Z.of_nat (length c) ->
  js_slice (pre ++ c ++ post) s (Some e)
  = drop (Z.to_nat s) pre ++ take (Z.to_nat (e - Z.of_nat (length pre))) c.
Proof.
  intros Hs He.
  rewrite js_slice_in by (rewrite ?length_app; lia).
  rewrite drop_app_le by lia.
  rewrite take_app_ge by (rewrite length_drop; lia).
  f_equal. rewrite length_drop.
  replace (Z.to_nat (e - s) - (length pre - Z.to_nat s))%nat
    with (Z.to_nat (e - Z.of_nat (length pre))) by lia.
  rewrite take_app_le by lia. reflexivity.
Qed.

Lemma concatArray_exact (parts : list bytes) :
  concatArray parts (Some (Z.of_nat (length (concat parts)))) = Ok (concat parts).
Proof.
  unfold concatArray. rewrite Nat2Z.id, Nat.sub_diag. cbn.
  rewrite app_nil_r, take_ge by lia. reflexivity.
Qed.

(** [concatArray] sees the parts through their concatenation only. *)
Lemma concatArray_ext (parts parts' : list bytes) (len : option Z) :
  concat parts = concat parts' ->
  concatArray parts len = concatArray parts' len.
Proof. intros Hc. unfold concatArray. rewrite Hc. reflexivity. Qed.

Lemma withParts_id (p : Parser) :
  withParts (partList p) (partListTotalByteLen p) p = p.
Proof. destruct p. reflexivity. Qed.

Lemma withParts_withParts a b c d (p : Parser) :
  withParts a b (withParts c d p) = withParts a b p.
Proof. reflexivity. Qed.

Section Slices.
Context {E : Env}.

Lemma storeSlice_withParts (start : Z) (end_ : option Z) (p : Parser) :
  storeSlice start end_ p
  = if bool_decide (end_ = Some 0)
    then withParts (Some (default [] (partList p))) (partListTotalByteLen p) p
    else withParts
           (Some (default [] (partList p) ++ [js_slice (chunk p) start end_]))
           (total ← partListTotalByteLen p;
            Some (total + (default (Z.of_nat (length (chunk p))) end_ - start)))
           p.
Proof.
  unfold storeSlice.
  destruct (partList p) eqn:Hp; destruct p; cbn in *; subst;
    case_bool_decide; reflexivity.
Qed.

(** [getSlice] changes nothing but the saved parts. *)
Lemma getSlice_withParts (start : Z) (end_ : option Z) (p p' : Parser)
    (s : jsstring) :
  getSlice start end_ p = Ok (s, p') ->
  p' = withParts (partList p') (partListTotalByteLen p') p.
Proof.
  unfold getSlice, buildSlice. intros Hg.
  destruct (partList p) eqn:Hp.
  - unfold mbind, Result_bind in Hg.
    destruct (concatArray _ _); [|discriminate].
    injection Hg as _ <-. rewrite storeSlice_withParts.
    case_bool_decide; reflexivity.
  - cbn in Hg. injection Hg as _ <-. symmetry. apply withParts_id.
Qed.

(** The string of [getSlice] when nothing is saved: the slice of the
    input buffer. *)
Lemma getSlice_direct (start : Z) (end_ : option Z) (p : Parser) :
  partList p = None ->
  getSlice start end_ p
  = Ok (normalizeNewlines (decodeBytes (js_slice (chunk p) start end_)), p).
Proof. intros Hp. unfold getSlice. rewrite Hp. reflexivity. Qed.

(** The string of [getSlice] when parts are saved: all saved parts, in
    order, then the slice of the input buffer, in an array of the recorded
    length. *)
Lemma getSlice_saved (start e : Z) (parts : list bytes) (p : Parser) :
  partList p = Some parts ->
  getSlice start (Some e) p
  = (all ← concatArray
             (parts ++ if bool_decide (e = 0) then []
                       else [js_slice (chunk p) start (Some e)])
             (if bool_decide (e = 0) then partListTotalByteLen p
              else (total ← partListTotalByteLen p; Some (total + (e - start))));
     Ok (normalizeNewlines (decodeBytes all), withParts None (Some 0) p)).
Proof.
  intros Hp. unfold getSlice, buildSlice. rewrite Hp.
  rewrite storeSlice_withParts, Hp.
  destruct (decide (e = 0)) as [->|Hne].
  - rewrite !bool_decide_eq_true_2 by reflexivity. cbn.
    rewrite app_nil_r.
    unfold mbind, Result_bind. destruct (concatArray _ _); reflexivity.
  - rewrite (bool_decide_eq_false_2 (Some e = Some 0)) by congruence.
    rewrite (bool_decide_eq_false_2 (e = 0)) by exact Hne. cbn.
    unfold mbind, Result_bind. destruct (concatArray _ _); reflexivity.
Qed.

End Slices.

Section SliceSim.
Context {E : Env}.

Ltac split_ends eW n :=
  destruct (decide (eW = 0)) as [?HW|?HW], (decide (eW - n = 0)) as [?HS|?HS];
  rewrite ?(bool_decide_eq_true_2 (eW = 0)), ?(bool_decide_eq_false_2 (eW = 0)),
    ?(bool_decide_eq_true_2 (eW - n = 0)), ?(bool_decide_eq_false_2 (eW - n = 0))
    by assumption.

Lemma concatArray_same (partsW partsS : list bytes) (lenW lenS : option Z) :
  concat partsW = concat partsS -> lenW = lenS ->
  concatArray partsW lenW = concatArray partsS lenS.
Proof. intros Hc ->. apply concatArray_ext. exact Hc. Qed.

(** The end of a run: the parser that has the whole document in its input
    buffer and the parser that got the document in parts read the same
    string. *)
Lemma getSlice_sim (doc pre : bytes) (sW sS eW : Z) (pW pS pW' : Parser)
    (str : jsstring) :
  SliceRel doc pre sW pW sS pS ->
  0 <= sW <= eW ->
  Z.of_nat (length pre) <= eW <= Z.of_nat (length pre) + Z.of_nat (length (chunk pS)) ->
  getSlice sW (Some eW) pW = Ok (str, pW') ->
  getSlice sS (Some (eW - Z.of_nat (length pre))) pS
  = Ok (str, withParts None (Some 0) pS)
  /\ pW' = withParts None (Some 0) pW.
Proof.
  intros (Hdoc & [post Hwin] & Hidle & Hcases) HsW HeW Hget.
  set (n := Z.of_nat (length pre)) in *.
  assert (HidleW : partList pW = None -> pW = withParts None (Some 0) pW).
  { intros Hn. rewrite <- (withParts_id pW) at 1.
    rewrite Hn, (Hidle Hn). reflexivity. }
  destruct Hcases
    as [(Hneg & _)|[(Hin & -> & Hparts & Htot)
                   |(Hbefore & -> & (partsS & Hparts & Hcat) & Htot)]];
    [lia| |].
  - (* the run started in the second buffer *)
    assert (Hslice : js_slice (chunk pW) sW (Some eW)
                     = js_slice (chunk pS) (sW - n) (Some (eW - n))).
    { rewrite Hdoc, Hwin. apply js_slice_window; lia. }
    destruct (partList pW) as [parts|] eqn:HpW.
    + rewrite (getSlice_saved _ _ parts) in Hget by exact HpW.
      rewrite (getSlice_saved _ _ parts) by exact Hparts.
      rewrite Htot, <- Hslice.
      match type of Hget with
      | mbind _ ?m = _ =>
          match goal with
          | |- mbind _ ?m' = _ /\ _ => assert (Hsame : m' = m)
          end
      end.
      { apply concatArray_same.
        - rewrite !concat_app. f_equal.
          split_ends eW n; try reflexivity; try lia.
          cbn. rewrite app_nil_r.
          rewrite js_slice_in by (rewrite ?Hdoc, ?Hwin, ?length_app; lia).
          replace (eW - sW) with 0 by lia. reflexivity.
        - split_ends eW n; try reflexivity; try lia;
            (destruct (partListTotalByteLen pW); cbn; [|reflexivity]);
            f_equal; lia. }
      rewrite Hsame. unfold mbind, Result_bind in *.
      destruct (concatArray _ _); [|discriminate].
      injection Hget as <- <-. split; reflexivity.
    + rewrite getSlice_direct in Hget by exact HpW.
      rewrite getSlice_direct by exact Hparts.
      injection Hget as <- <-. rewrite Hslice.
      split; [|apply HidleW; reflexivity].
      f_equal. f_equal.
      rewrite <- Hparts at 1. rewrite <- (Hidle eq_refl), <- Htot.
      symmetry. apply withParts_id.
  - (* the run started before the second buffer *)
    assert (Hslice : js_slice (chunk pW) sW (Some eW)
                     = drop (Z.to_nat sW) pre ++ take (Z.to_nat (eW - n)) (chunk pS)).
    { rewrite Hdoc, Hwin. apply js_slice_span; lia. }
    assert (HsliceS : (if bool_decide (eW - n = 0) then []
                       else [js_slice (chunk pS) 0 (Some (eW - n))])
                      = [take (Z.to_nat (eW - n)) (chunk pS)]
                      \/ (eW - n = 0 /\ take (Z.to_nat (eW - n)) (chunk pS) = [])).
    { destruct (decide (eW - n = 0)) as [HS|HS].
      - right. split; [exact HS|]. rewrite HS. reflexivity.
      - left. rewrite bool_decide_eq_false_2 by exact HS.
        rewrite js_slice_in by lia. rewrite Z.sub_0_r. reflexivity. }
    rewrite (getSlice_saved _ _ _ _ Hparts).
    destruct (partList pW) as [parts|] eqn:HpW; cbn [default] in *.
    + rewrite (getSlice_saved _ _ parts) in Hget by exact HpW.
      match type of Hget with
      | mbind _ ?m = _ =>
          match goal with
          | |- mbind _ ?m' = _ /\ _ => assert (Hsame : m' = m)
          end
      end.
      { apply concatArray_same.
        - rewrite !concat_app, Hcat. rewrite <- app_assoc. f_equal.
          split_ends eW n; try lia.
          + cbn. rewrite app_nil_r.
            replace (Z.to_nat sW) with 0%nat by lia.
            assert (pre = []) as -> by (apply length_zero_iff_nil; lia).
            reflexivity.
          + cbn [concat]. rewrite !app_nil_r, Hslice.
            replace (Z.to_nat (eW - n)) with 0%nat by lia.
            rewrite take_0, app_nil_r. reflexivity.
          + cbn [concat]. rewrite !app_nil_r, Hslice.
            rewrite js_slice_in by lia. rewrite Z.sub_0_r. reflexivity.
        - rewrite Htot.
          destruct (partListTotalByteLen pW) as [t|]; cbn;
            [|destruct (bool_decide (eW - n = 0)), (bool_decide (eW = 0)); reflexivity].
          split_ends eW n; cbn; try (f_equal; lia). }
      rewrite Hsame. unfold mbind, Result_bind in *.
      destruct (concatArray _ _); [|discriminate].
      injection Hget as <- <-. split; reflexivity.
    + rewrite getSlice_direct in Hget by exact HpW.
      injection Hget as <- <-. rewrite Hslice.
      split; [|apply HidleW; reflexivity].
      rewrite Htot, (Hidle eq_refl). cbn -[normalizeNewlines concatArray].
      match goal with
      | |- context [concatArray (partsS ++ ?X) ?len] =>
          rewrite (concatArray_ext (partsS ++ X) (drop (Z.to_nat sW) pre :: X) len)
            by (rewrite concat_app, Hcat; reflexivity)
      end.
      assert (Hexact :
        concatArray
          (drop (Z.to_nat sW) pre ::
           (if bool_decide (eW - n = 0) then []
            else [js_slice (chunk pS) 0 (Some (eW - n))]))
          (if bool_decide (eW - n = 0) then Some (0 + n - sW)
           else Some (0 + n - sW + (eW - n - 0)))
        = Ok (drop (Z.to_nat sW) pre ++ take (Z.to_nat (eW - n)) (chunk pS))).
      { destruct HsliceS as [->|[HS Hnil]].
        - destruct (bool_decide (eW - n = 0)) eqn:Hz.
          + apply bool_decide_eq_true_1 in Hz.
            replace (Some (0 + n - sW))
              with (Some (Z.of_nat (length (concat
                      ([drop (Z.to_nat sW) pre] ++ [take (Z.to_nat (eW - n)) (chunk pS)])))));
              [rewrite concatArray_exact; cbn; rewrite app_nil_r; reflexivity|].
            f_equal. cbn. rewrite app_nil_r, length_app, length_drop, length_take.
            subst n. lia.
          + replace (Some (0 + n - sW + (eW - n - 0)))
              with (Some (Z.of_nat (length (concat
                      ([drop (Z.to_nat sW) pre] ++ [take (Z.to_nat (eW - n)) (chunk pS)])))));
              [rewrite concatArray_exact; cbn; rewrite app_nil_r; reflexivity|].
            f_equal. cbn. rewrite app_nil_r, length_app, length_drop, length_take.
            subst n. lia.
        - rewrite bool_decide_eq_true_2 by exact HS. rewrite Hnil, !app_nil_r.
          replace (Some (0 + n - sW))
            with (Some (Z.of_nat (length (concat [drop (Z.to_nat sW) pre]))));
            [rewrite concatArray_exact; cbn; rewrite app_nil_r; reflexivity|].
          f_equal. cbn. rewrite app_nil_r, length_drop. subst n. lia. }
      rewrite Hexact. cbn -[normalizeNewlines]. split; reflexivity.
Qed.

End SliceSim.

(** * The invariant of the decoder *)

#[local] Arguments tokenBuffer : simpl never.
#[local] Arguments tb_set : simpl never.
#[local] Arguments tb_get : simpl never.

Lemma arr_length_set_in {A} (a : JsArray A) (i : Z) (v : A) :
  i < arr_length a -> arr_length (arr_set a i v) = arr_length a.
Proof.
  intros Hi. cbn. destruct (0 <=? i); [lia|reflexivity].
Qed.

Ltac safe_split :=
  repeat match goal with
  | H : _ && _ = true |- _ => apply andb_true_iff in H; destruct H
  | H : (_ <=? _) = true |- _ => apply Z.leb_le in H
  | H : (_ <? _) = true |- _ => apply Z.ltb_lt in H
  | H : (_ =? _) = true |- _ => apply Z.eqb_eq in H
  | H : true = true |- _ => clear H
  end.

Section Invariant.
Context {E : Env}.

Lemma tokenBuffer_set_config (p : Parser) (w : World) (cfg : ParserConfig.t) :
  tokenBuffer p (set_config cfg w) = tokenBuffer p w.
Proof. reflexivity. Qed.

Lemma tokenBuffer_set_nextObj (p : Parser) (w : World) (n : positive) :
  tokenBuffer p (set_nextObj n w) = tokenBuffer p w.
Proof. reflexivity. Qed.

Lemma resolveSlot_len es prefix ns pos (p p' : Parser) (w w' : World) :
  resolveSlot es prefix ns pos p w = (p', w') ->
  pos + es < arr_length (tokenBuffer p w) ->
  arr_length (tokenBuffer p' w') = arr_length (tokenBuffer p w)
  /\ unknownOffsetList p' = unknownOffsetList p
  /\ tokenChunk p' = tokenChunk p.
Proof.
  unfold resolveSlot. intros Hr Hin.
  destruct (bool_decide (pb_get p pos = prefix)).
  - destruct (tb_get p w (pos + es));
      try (injection Hr as <- <-; repeat split).
    destruct (memberResolve _ _ _) as [v cfg]. injection Hr as <- <-.
    split; [|split; reflexivity].
    change (tokenBuffer (set_namespaceBuffer ?a p) ?x) with (tokenBuffer p x).
    rewrite tokenBuffer_tb_set, tokenBuffer_set_config.
    apply arr_length_set_in. exact Hin.
  - injection Hr as <- <-. repeat split.
Qed.

Lemma resolveLoop_len n es prefix ns pos0 (p p' : Parser) (w w' : World) :
  resolveLoop n es prefix ns pos0 p w = (p', w') ->
  pos0 + Z.of_nat n + es <= arr_length (tokenBuffer p w) ->
  arr_length (tokenBuffer p' w') = arr_length (tokenBuffer p w)
  /\ unknownOffsetList p' = unknownOffsetList p
  /\ tokenChunk p' = tokenChunk p.
Proof.
  revert pos0 p w. induction n as [|n IH]; intros pos0 p w Hl Hin.
  - cbn in Hl. injection Hl as <- <-. repeat split.
  - cbn [resolveLoop] in Hl.
    destruct (resolveSlot es prefix ns pos0 p w) as [p1 w1] eqn:Hs.
    apply resolveSlot_len in Hs as (S1 & S2 & S3); [|lia].
    apply IH in Hl as (L1 & L2 & L3); [|rewrite S1; lia].
    repeat split; congruence.
Qed.

Lemma resolve_len es tokenNum prefix idNamespace (p p' : Parser) (w w' : World) :
  resolve es tokenNum prefix idNamespace p w = Ok (p', w') ->
  tokenNum < arr_length (tokenBuffer p w) ->
  es <= tokenNum + 1 ->
  arr_length (tokenBuffer p' w') = arr_length (tokenBuffer p w)
  /\ unknownOffsetList p' = unknownOffsetList p
  /\ tokenChunk p' = tokenChunk p.
Proof.
  unfold resolve. intros Hr Hin Hes.
  destruct (ParserConfig.getNamespace (config w) idNamespace) as [ns0|]; [|discriminate].
  unfold mbind, Result_bind in Hr.
  match type of Hr with
  | match ?m with Ok _ => _ | Throw _ => _ end = _ =>
      destruct m as [[ns w1]|] eqn:Hns; [|discriminate]
  end.
  injection Hr as Hr.
  assert (Hw1 : forall q, tokenBuffer q w1 = tokenBuffer q w).
  { destruct (noDefaultPrefix (pn_base ns0)).
    - destruct prefix; [|discriminate]. injection Hns as <- <-. reflexivity.
    - injection Hns as <- <-. reflexivity. }
  apply resolveLoop_len in Hr as (L1 & L2 & L3).
  - cbn in L2, L3. rewrite Hw1 in L1.
    change (tokenBuffer (set_namespacesChanged ?a (set_namespaceList ?b p)) w)
      with (tokenBuffer p w) in L1.
    repeat split; assumption.
  - rewrite Hw1.
    change (tokenBuffer (set_namespacesChanged ?a (set_namespaceList ?b p)) w)
      with (tokenBuffer p w).
    lia.
Qed.

Lemma resolveUnknown_len n es pos0 (p : Parser) (w w' : World) :
  resolveUnknown n es pos0 p w = Ok w' ->
  (forall pos off, pos0 <= pos < pos0 + Z.of_nat n ->
     arr_get (unknownOffsetList p) pos = Some off ->
     off + es < arr_length (tokenBuffer p w)) ->
  arr_length (tokenBuffer p w') = arr_length (tokenBuffer p w).
Proof.
  revert pos0 w. induction n as [|n IH]; intros pos0 w Hr Hin.
  - cbn in Hr. injection Hr as <-. reflexivity.
  - cbn [resolveUnknown] in Hr. unfold mbind, Result_bind in Hr.
    match type of Hr with
    | match ?m with Ok _ => _ | Throw _ => _ end = _ =>
        destruct m as [w1|] eqn:Hone; [|discriminate]
    end.
    assert (H1 : arr_length (tokenBuffer p w1) = arr_length (tokenBuffer p w)).
    { destruct (arr_get (unknownOffsetList p) pos0) as [offset|] eqn:Hoff;
        [|injection Hone as <-; reflexivity].
      destruct (mjoin (arr_get (namespaceBuffer p) offset)) as [ns|];
        [|injection Hone as <-; reflexivity].
      destruct (tb_get p w (offset + es)); try discriminate.
      destruct (memberResolve _ _ _) as [v cfg]. injection Hone as <-.
      rewrite tokenBuffer_tb_set, tokenBuffer_set_config.
      apply arr_length_set_in. apply (Hin pos0); [lia|exact Hoff]. }
    rewrite <- H1. apply (IH _ _ Hr).
    intros pos off Hpos Hoff. rewrite H1. apply (Hin pos); [lia|exact Hoff].
Qed.

Lemma tokenBuffer_ext (p q : Parser) (w w' : World) :
  tokenChunk q = tokenChunk p -> chunks w' = chunks w ->
  tokenBuffer q w' = tokenBuffer p w.
Proof. unfold tokenBuffer. intros -> ->. reflexivity. Qed.

Lemma tokenBuffer_tb_set_other (p q : Parser) (w : World) (i : Z) (v : Value) :
  tokenChunk q = tokenChunk p ->
  tokenBuffer q (tb_set p w i v) = arr_set (tokenBuffer p w) i v.
Proof.
  intros Htc. rewrite (tokenBuffer_same_chunk p q) by exact Htc.
  apply tokenBuffer_tb_set.
Qed.

Lemma arr_length_tb_push (p p' : Parser) (w : World) (n : Z) (v : Value) :
  tokenChunk p' = tokenChunk p ->
  arr_length (tokenBuffer p w) = n + 1 -> -1 <= n ->
  arr_length (tokenBuffer p' (tb_set p w (n + 1) v)) = n + 1 + 1.
Proof.
  intros Htc Hlen Hn.
  rewrite (tokenBuffer_same_chunk p p') by exact Htc.
  rewrite tokenBuffer_tb_set, <- Hlen.
  apply arr_length_push. lia.
Qed.

Lemma partialCase_shape entry code (l l' : Loc.t) (p p' : Parser) :
  partialCase entry code l p = Ok (l', p') ->
  p' = withParts (partList p') (partListTotalByteLen p') p
  /\ Loc.tokenNum l' = Loc.tokenNum l
  /\ Loc.elementStart l' = Loc.elementStart l
  /\ Loc.unknownCount l' = Loc.unknownCount l
  /\ Loc.partStart l' = Loc.partStart l.
Proof.
  unfold partialCase. intros Hp.
  match type of Hp with
  | match tl_get ?a ?b with _ => _ end = _ => destruct (tl_get a b); [|discriminate]
  end.
  injection Hp as <- <-.
  split; [reflexivity|].
  destruct entry; cbn;
    repeat match goal with
    | |- context [if ?b then _ else _] => destruct b; cbn
    end; repeat split.
Qed.

(** The invariant looks at the token buffer, at the queue of unknown
    names and at three local variables only. *)
Lemma Inv_ext (l l' : Loc.t) (p p' : Parser) (w w' : World) :
  Inv l p w ->
  Loc.tokenNum l' = Loc.tokenNum l ->
  Loc.elementStart l' = Loc.elementStart l ->
  Loc.unknownCount l' = Loc.unknownCount l ->
  arr_length (tokenBuffer p' w') = arr_length (tokenBuffer p w) ->
  unknownOffsetList p' = unknownOffsetList p ->
  Inv l' p' w'.
Proof.
  unfold Inv. intros (I1 & I2 & I3 & I4 & I5 & I6) H1 H2 H3 H4 H5.
  rewrite H1, H2, H3, H4, H5.
  repeat split; assumption.
Qed.

Lemma Inv_push (l : Loc.t) (p p' : Parser) (w : World) (v : Value) :
  Inv l p w ->
  tokenChunk p' = tokenChunk p ->
  unknownOffsetList p' = unknownOffsetList p ->
  Inv (Loc.set_tokenNum (Loc.tokenNum l + 1) l) p'
    (tb_set p w (Loc.tokenNum l + 1) v).
Proof.
  intros (I1 & I2 & I3 & I4 & I5 & I6) Htc Hq.
  unfold Inv. cbn. rewrite Hq.
  split; [apply arr_length_tb_push; assumption|].
  split; [lia|]. split; [lia|]. split; [assumption|]. split; [assumption|].
  intros pos Hpos. destruct (I6 pos Hpos) as (off & H1 & H2).
  exists off. split; [exact H1|lia].
Qed.

Lemma Inv_push' (l l' : Loc.t) (p p' : Parser) (w w1 : World) (v : Value) :
  Inv l p w ->
  tokenChunk p' = tokenChunk p ->
  unknownOffsetList p' = unknownOffsetList p ->
  tokenBuffer p w1 = tokenBuffer p w ->
  Loc.tokenNum l' = Loc.tokenNum l + 1 ->
  Loc.elementStart l' = Loc.elementStart l ->
  Loc.unknownCount l' = Loc.unknownCount l ->
  Inv l' p' (tb_set p' w1 (Loc.tokenNum l + 1) v).
Proof.
  intros (I1 & I2 & I3 & I4 & I5 & I6) Htc Hq Hb Hn He Hc.
  unfold Inv. rewrite Hn, He, Hc, Hq.
  split.
  { rewrite tokenBuffer_tb_set_other by reflexivity.
    rewrite (tokenBuffer_same_chunk p p'), Hb by exact Htc.
    rewrite <- I1. apply arr_length_push. lia. }
  split; [lia|]. split; [lia|]. split; [assumption|]. split; [assumption|].
  intros pos Hpos. destruct (I6 pos Hpos) as (off & H1 & H2).
  exists off. split; [exact H1|lia].
Qed.

(** A start tag opens at the token just pushed. *)
Lemma Inv_open (l : Loc.t) (p : Parser) (w : World) :
  Inv l p w -> 0 <= Loc.tokenNum l ->
  Loc.unknownCount l = 0 ->
  Inv (Loc.set_elementStart (Loc.tokenNum l) l) p w.
Proof.
  intros (I1 & I2 & I3 & I4 & I5 & I6) Hn Hc.
  unfold Inv. cbn.
  split; [assumption|]. split; [assumption|]. split; [lia|].
  split; [intros; assumption|]. split; [assumption|].
  intros pos Hpos. lia.
Qed.

(** The start tag closes and the queue is emptied. *)
Lemma Inv_close (l : Loc.t) (p : Parser) (w : World) :
  Inv l p w ->
  Inv (Loc.set_elementStart (-1) (Loc.set_unknownCount 0 l)) p w.
Proof.
  intros (I1 & I2 & I3 & I4 & I5 & I6).
  unfold Inv. cbn.
  split; [assumption|]. split; [assumption|]. split; [left; reflexivity|].
  split; [reflexivity|]. split; [lia|].
  intros pos Hpos. lia.
Qed.

Lemma getSlice_keeps (start : Z) (end_ : option Z) (p p' : Parser) (s : jsstring) :
  getSlice start end_ p = Ok (s, p') ->
  tokenChunk p' = tokenChunk p
  /\ unknownOffsetList p' = unknownOffsetList p
  /\ prefixBuffer p' = prefixBuffer p
  /\ namespaceBuffer p' = namespaceBuffer p
  /\ unknownElementTbl p' = unknownElementTbl p
  /\ unknownAttributeTbl p' = unknownAttributeTbl p
  /\ namespaceList p' = namespaceList p
  /\ namespacesChanged p' = namespacesChanged p
  /\ nativeLog p' = nativeLog p
  /\ chunk p' = chunk p.
Proof.
  intros Hg. apply getSlice_withParts in Hg. rewrite Hg. repeat split.
Qed.

Lemma Inv_emit (l : Loc.t) (p : Parser) (w : World) (v : Value) :
  arr_length (tokenBuffer p w) = Loc.tokenNum l + 1 ->
  -1 <= Loc.tokenNum l ->
  Loc.unknownCount l = 0 ->
  Inv (Loc.set_elementStart (-1) (Loc.set_tokenNum (Loc.tokenNum l + 1) l)) p
    (tb_set p w (Loc.tokenNum l + 1) v).
Proof.
  intros Hlen Hn Hc. unfold Inv. cbn.
  split; [apply arr_length_tb_push; [reflexivity|assumption|assumption]|].
  split; [lia|]. split; [left; reflexivity|]. split; [intros; assumption|].
  split; [lia|]. intros pos Hpos. lia.
Qed.

(** The first part of the cases [ELEMENT_EMITTED] and
    [CLOSED_ELEMENT_EMITTED]: the queue of unknown names is resolved and
    emptied. *)
Lemma emitted_queue_inv (l l1 : Loc.t) (p : Parser) (w w1 : World) :
  Inv l p w ->
  (if bool_decide (Loc.unknownCount l = 0) then Ok (l, w)
   else
     w ← resolveUnknown (Z.to_nat (Loc.unknownCount l)) (Loc.elementStart l) 0 p w;
     let l := Loc.set_latestElement (tb_get p w (Loc.elementStart l)) l in
     Ok (Loc.set_unknownCount 0 l, w)) = Ok (l1, w1) ->
  arr_length (tokenBuffer p w1) = Loc.tokenNum l1 + 1
  /\ Loc.tokenNum l1 = Loc.tokenNum l
  /\ Loc.unknownCount l1 = 0.
Proof.
  intros (I1 & I2 & I3 & I4 & I5 & I6) Hq.
  case_bool_decide as Hc.
  - injection Hq as <- <-. repeat split; assumption.
  - unfold mbind, Result_bind in Hq.
    destruct (resolveUnknown _ _ _ _ _) as [w2|] eqn:Hr; [|discriminate].
    injection Hq as <- <-. cbn.
    split; [|split; reflexivity].
    rewrite (resolveUnknown_len _ _ _ _ _ _ Hr); [exact I1|].
    intros pos off Hpos Hoff.
    destruct (I6 pos) as (off' & Hoff1 & Hoff2); [lia|].
    rewrite Hoff in Hoff1. injection Hoff1 as <-. lia.
Qed.

(** A safe step keeps the invariant. *)
Lemma step_inv lo hi kind code (l l' : Loc.t) (p p' : Parser) (w w' : World) :
  Inv l p w ->
  safeStep lo hi kind code l = true ->
  step kind code l p w = Ok (l', p', w') ->
  Inv l' p' w'.
Proof.
  intros HI Hsafe Hs.
  pose proof HI as (I1 & I2 & I3 & I4 & I5 & I6).
  unfold safeStep in Hsafe.
  destruct kind; cbn [step isOffsetKind isStartKind isEndKind isPartialKind
                      insideTag opensTag orb andb] in Hs, Hsafe;
    unfold pushToken in Hs; safe_split.
  - (* OPEN_ELEMENT_ID *)
    destruct (tl_get _ _); [|discriminate]. injection Hs as <- <- <-.
    apply (Inv_open (Loc.set_tokenNum (Loc.tokenNum l + 1) (Loc.set_latestElement _ l))).
    + refine (Inv_ext _ _ _ _ _ _
                (Inv_push l p (set_prefixBuffer _ p) w _ HI eq_refl eq_refl)
                eq_refl eq_refl eq_refl eq_refl eq_refl).
    + cbn. lia.
    + cbn. apply I4. assumption.
  - (* CLOSE_ELEMENT_ID *)
    destruct (tl_get _ _); [|discriminate]. injection Hs as <- <- <-.
    apply Inv_push; [exact HI|reflexivity|reflexivity].
  - (* ELEMENT_EMITTED *)
    unfold mbind, Result_bind in Hs.
    match type of Hs with
    | match ?m with Ok _ => _ | Throw _ => _ end = _ =>
        destruct m as [[l1 w1]|] eqn:Hq; [|discriminate]
    end.
    apply (emitted_queue_inv _ _ _ _ _ HI) in Hq as (Q1 & Q2 & Q3).
    match type of Hs with
    | match ?m with Ok _ => _ | Throw _ => _ end = _ =>
        destruct m as [v|]; [|discriminate]
    end.
    injection Hs as <- <- <-.
    apply Inv_emit; [assumption|lia|assumption].
  - (* CLOSED_ELEMENT_EMITTED *)
    unfold mbind, Result_bind in Hs.
    match type of Hs with
    | match ?m with Ok _ => _ | Throw _ => _ end = _ =>
        destruct m as [[l1 w1]|] eqn:Hq; [|discriminate]
    end.
    apply (emitted_queue_inv _ _ _ _ _ HI) in Hq as (Q1 & Q2 & Q3).
    match type of Hs with
    | match ?m with Ok _ => _ | Throw _ => _ end = _ =>
        destruct m as [v|]; [|discriminate]
    end.
    injection Hs as <- <- <-.
    apply Inv_emit; [assumption|lia|assumption].
  - (* ATTRIBUTE_ID *)
    destruct (tl_get _ _); [|discriminate]. injection Hs as <- <- <-.
    refine (Inv_ext _ _ _ _ _ _
              (Inv_push l p (set_prefixBuffer _ p) w _ HI eq_refl eq_refl)
              eq_refl eq_refl eq_refl eq_refl eq_refl).
  - (* PREFIX_ID *)
    injection Hs as <- <- <-.
    apply (Inv_ext l _ p p w w HI); reflexivity.
  - injection Hs as <- <- <-.
    apply (Inv_ext l _ p p w w HI); reflexivity.
  - (* NAMESPACE_ID *)
    unfold mbind, Result_bind in Hs.
    destruct (resolve _ _ _ _ _ _) as [[p1 w1]|] eqn:Hr; [|discriminate].
    injection Hs as <- <- <-.
    apply resolve_len in Hr as (R1 & R2 & R3); [|lia|lia].
    apply (Inv_ext l _ p p1 w w1 HI); try reflexivity; assumption.
  - injection Hs as <- <- <-. apply (Inv_ext l _ p p w w HI); reflexivity.
  - injection Hs as <- <- <-. apply (Inv_ext l _ p p w w HI); reflexivity.
  - injection Hs as <- <- <-. apply (Inv_ext l _ p p w w HI); reflexivity.
  - injection Hs as <- <- <-. apply (Inv_ext l _ p p w w HI); reflexivity.
  - (* UNKNOWN_OPEN_ELEMENT_END_OFFSET *)
    unfold mbind, Result_bind in Hs.
    destruct (getSlice _ _ p) as [[name p1]|] eqn:Hg; [|discriminate].
    apply getSlice_keeps in Hg as (G1 & G2 & _).
    assert (Hfinal : forall (l2 : Loc.t) (p2 : Parser) (w2 : World) v,
              Loc.tokenNum l2 = Loc.tokenNum l ->
              tokenChunk p2 = tokenChunk p ->
              tokenBuffer p w2 = tokenBuffer p w ->
              Inv (Loc.set_partStart (-1)
                     (Loc.set_unknownCount 1
                        (Loc.set_elementStart (Loc.tokenNum l2 + 1)
                           (Loc.set_tokenNum (Loc.tokenNum l2 + 1) l2))))
                  (set_unknownOffsetList (arr_set (unknownOffsetList p2) 0 0)
                     (set_namespaceBuffer
                        (arr_set (namespaceBuffer p2) 0 (Loc.latestNamespace l2))
                        (set_prefixBuffer
                           (arr_set (prefixBuffer p2) 0 (Loc.latestPrefix l2)) p2)))
                  (tb_set p2 w2 (Loc.tokenNum l2 + 1) v)).
    { intros l2 p2 w2 v Hn Htc Hb. unfold Inv. cbn. rewrite Hn.
      split.
      - rewrite tokenBuffer_tb_set_other by reflexivity.
        rewrite (tokenBuffer_same_chunk p p2), Hb by exact Htc.
        rewrite <- I1. apply arr_length_push. lia.
      - split; [lia|]. split; [lia|]. split; [lia|]. split; [lia|].
        intros pos Hpos. assert (pos = 0) as -> by lia.
        exists 0. split; [|lia].
        unfold arr_get, arr_set. cbn. apply lookup_insert_eq. }
    destruct (falsy _); injection Hs as <- <- <-.
    + apply (Hfinal (Loc.set_latestElement _ (Loc.set_latestElement _ l))
               (set_unknownElementTbl _ p1)); [reflexivity|exact G1|reflexivity].
    + apply (Hfinal (Loc.set_latestElement _ l) p1);
        [reflexivity|exact G1|reflexivity].
  - (* UNKNOWN_CLOSE_ELEMENT_END_OFFSET *)
    unfold mbind, Result_bind in Hs.
    destruct (getSlice _ _ p) as [[name p1]|] eqn:Hg; [|discriminate].
    apply getSlice_keeps in Hg as (G1 & G2 & _).
    match type of Hs with
    | match ?m with Ok _ => _ | Throw _ => _ end = _ =>
        destruct m as [[v w1]|] eqn:Hv; [|discriminate]
    end.
    injection Hs as <- <- <-.
    apply (Inv_push' l _ p p1 w w1); try reflexivity; try assumption.
    destruct (Loc.latestNamespace l).
    + destruct (addElement _ _ _) as [e cfg]. injection Hv as _ <-. reflexivity.
    + destruct (getClose _); [|discriminate]. injection Hv as _ <-. reflexivity.
  - (* UNKNOWN_ATTRIBUTE_END_OFFSET *)
    unfold mbind, Result_bind in Hs.
    destruct (getSlice _ _ p) as [[name p1]|] eqn:Hg; [|discriminate].
    apply getSlice_keeps in Hg as (G1 & G2 & _).
    assert (Hfinal : forall (p2 : Parser) (w2 : World) v,
              tokenChunk p2 = tokenChunk p ->
              unknownOffsetList p2 = unknownOffsetList p ->
              tokenBuffer p w2 = tokenBuffer p w ->
              Inv (Loc.set_partStart (-1)
                     (Loc.set_unknownCount (Loc.unknownCount l + 1)
                        (Loc.set_tokenNum (Loc.tokenNum l + 1) l)))
                  (set_unknownOffsetList
                     (arr_set (unknownOffsetList p2) (Loc.unknownCount l)
                        (Loc.tokenNum l + 1 - Loc.elementStart l))
                     (set_namespaceBuffer
                        (arr_set (namespaceBuffer p2)
                           (Loc.tokenNum l + 1 - Loc.elementStart l)
                           (Loc.latestNamespace l))
                        (set_prefixBuffer
                           (arr_set (prefixBuffer p2)
                              (Loc.tokenNum l + 1 - Loc.elementStart l)
                              (Loc.latestPrefix l)) p2)))
                  (tb_set p2 w2 (Loc.tokenNum l + 1) v)).
    { intros p2 w2 v Htc Hq Hb. unfold Inv. cbn. rewrite Hq.
      split.
      - rewrite tokenBuffer_tb_set_other by reflexivity.
        rewrite (tokenBuffer_same_chunk p p2), Hb by exact Htc.
        rewrite <- I1. apply arr_length_push. lia.
      - split; [lia|]. split; [lia|]. split; [lia|]. split; [lia|].
        intros pos Hpos. unfold arr_get, arr_set. cbn.
        destruct (decide (pos = Loc.unknownCount l)) as [->|Hne].
        + rewrite lookup_insert_eq. eexists. split; [reflexivity|lia].
        + rewrite lookup_insert_ne by congruence.
          destruct (I6 pos) as (off & Hoff1 & Hoff2); [lia|].
          exists off. split; [exact Hoff1|lia]. }
    destruct (falsy _); injection Hs as <- <- <-.
    + apply (Hfinal (set_unknownAttributeTbl _ p1) (set_nextObj _ w));
        [exact G1|exact G2|reflexivity].
    + apply (Hfinal p1 w); [exact G1|exact G2|reflexivity].
  - (* VALUE_END_OFFSET *)
    unfold mbind, Result_bind in Hs.
    destruct (getSlice _ _ p) as [[str p1]|] eqn:Hg; [|discriminate].
    apply getSlice_keeps in Hg as (G1 & G2 & _).
    injection Hs as <- <- <-.
    apply (Inv_push' l _ p p1 w w); try reflexivity; assumption.
  - (* TEXT_END_OFFSET *)
    unfold mbind, Result_bind in Hs.
    destruct (getSlice _ _ p) as [[str p1]|] eqn:Hg; [|discriminate].
    apply getSlice_keeps in Hg as (G1 & G2 & _).
    injection Hs as <- <- <-.
    apply (Inv_push' l _ p p1 w w); try reflexivity; assumption.
  - (* UNKNOWN_PREFIX_END_OFFSET *)
    cbn in Hs. unfold mbind, Result_bind in Hs.
    destruct (getSlice _ _ p) as [[name p1]|] eqn:Hg; [|discriminate].
    apply getSlice_keeps in Hg as (G1 & G2 & _).
    destruct (addPrefix _ _) as [pr cfg]. injection Hs as <- <- <-.
    apply (Inv_ext l _ p _ w _ HI); try reflexivity; try assumption.
    f_equal. apply tokenBuffer_ext; [exact G1|reflexivity].
  - (* UNKNOWN_XMLNS_END_OFFSET *)
    cbn in Hs. unfold mbind, Result_bind in Hs.
    destruct (getSlice _ _ p) as [[name p1]|] eqn:Hg; [|discriminate].
    apply getSlice_keeps in Hg as (G1 & G2 & _).
    destruct (addPrefix _ _) as [pr cfg]. injection Hs as <- <- <-.
    apply (Inv_ext l _ p _ w _ HI); try reflexivity; try assumption.
    f_equal. apply tokenBuffer_ext; [exact G1|reflexivity].
  - (* UNKNOWN_URI_END_OFFSET *)
    cbn in Hs. unfold mbind, Result_bind in Hs.
    destruct (getSlice _ _ p) as [[uri p1]|] eqn:Hg; [|discriminate].
    apply getSlice_keeps in Hg as (G1 & G2 & _).
    destruct (Loc.latestPrefix l) as [pr|]; [|discriminate].
    destruct (bindNamespace _ _ _) as [idNamespace cfg].
    destruct (resolve _ _ _ _ _ _) as [[p2 w2]|] eqn:Hr; [|discriminate].
    injection Hs as <- <- <-.
    apply resolve_len in Hr as (R1 & R2 & R3).
    + apply (Inv_ext l _ p _ w _ HI); try reflexivity.
      * rewrite R1. f_equal. apply tokenBuffer_ext; [exact G1|reflexivity].
      * congruence.
    + rewrite (tokenBuffer_ext p p1 w) by (exact G1 || reflexivity). lia.
    + lia.
  - (* COMMENT_END_OFFSET *)
    unfold mbind, Result_bind in Hs. cbn [Loc.partStart Loc.set_tokenNum] in Hs.
    destruct (getSlice _ _ p) as [[str p1]|] eqn:Hg; [|discriminate].
    apply getSlice_keeps in Hg as (G1 & G2 & _).
    injection Hs as <- <- <-.
    pose proof (Inv_push l p p w VComment HI eq_refl eq_refl) as HI1.
    refine (Inv_ext _ _ _ _ _ _
              (Inv_push' _ (Loc.set_tokenNum (Loc.tokenNum l + 1 + 1)
                              (Loc.set_tokenNum (Loc.tokenNum l + 1) l))
                 p p1 _ _ (VString str) HI1 G1 G2 eq_refl eq_refl eq_refl eq_refl)
              eq_refl eq_refl eq_refl eq_refl eq_refl).
  - injection Hs as <- <- <-. apply (Inv_ext l _ p p w w HI); reflexivity.
  - unfold mbind, Result_bind in Hs.
    destruct (partialCase _ _ _ _) as [[l1 p1]|] eqn:Hp; [|discriminate].
    injection Hs as <- <- <-.
    apply partialCase_shape in Hp as (P1 & P2 & P3 & P4 & P5).
    apply (Inv_ext l _ p _ w _ HI); try assumption; rewrite P1; reflexivity.
  - unfold mbind, Result_bind in Hs.
    destruct (partialCase _ _ _ _) as [[l1 p1]|] eqn:Hp; [|discriminate].
    injection Hs as <- <- <-.
    apply partialCase_shape in Hp as (P1 & P2 & P3 & P4 & P5).
    apply (Inv_ext l _ p _ w _ HI); try assumption; rewrite P1; reflexivity.
  - unfold mbind, Result_bind in Hs.
    destruct (partialCase _ _ _ _) as [[l1 p1]|] eqn:Hp; [|discriminate].
    injection Hs as <- <- <-.
    apply partialCase_shape in Hp as (P1 & P2 & P3 & P4 & P5).
    apply (Inv_ext l _ p _ w _ HI); try assumption; rewrite P1; reflexivity.
  - unfold mbind, Result_bind in Hs.
    destruct (partialCase _ _ _ _) as [[l1 p1]|] eqn:Hp; [|discriminate].
    injection Hs as <- <- <-.
    apply partialCase_shape in Hp as (P1 & P2 & P3 & P4 & P5).
    apply (Inv_ext l _ p _ w _ HI); try assumption; rewrite P1; reflexivity.
  - injection Hs as <- <- <-. exact HI.
Qed.

End Invariant.

(** * What the steps of the decoder do to the token buffer *)

Lemma bounded_set {A} (a : JsArray A) (i : Z) (v : A) :
  bounded a -> bounded (arr_set a i v).
Proof.
  intros Hb j Hj0. unfold bounded, arr_set, arr_get in *. cbn.
  destruct (Z.leb_spec 0 i); intros Hj.
  - rewrite lookup_insert_ne by lia. apply Hb; lia.
  - rewrite lookup_insert_ne by lia. apply Hb; lia.
Qed.

Lemma bounded_empty {A} : bounded (@arr_empty A).
Proof. intros j _ _. reflexivity. Qed.

(** A property [P] of the world that assignments to the configuration, to
    the counter of objects and to the token buffer of the chunk [c] keep is
    kept by the decoder of a parser whose output chunk is [c]. *)
Section Preserved.
Context {E : Env}.
Variable c : positive.
Variable P : World -> Prop.
Hypothesis P_config : forall cfg w, P w -> P (set_config cfg w).
Hypothesis P_nextObj : forall n w, P w -> P (set_nextObj n w).
Hypothesis P_tb_set : forall p w i v, tokenChunk p = c -> P w -> P (tb_set p w i v).

Lemma preserved_resolveSlot es prefix ns pos (p p' : Parser) (w w' : World) :
  resolveSlot es prefix ns pos p w = (p', w') ->
  tokenChunk p = c -> P w -> P w'.
Proof.
  unfold resolveSlot. intros Hr Hc Hw.
  destruct (bool_decide _).
  - destruct (tb_get p w (pos + es)); try (injection Hr as <- <-; exact Hw).
    destruct (memberResolve _ _ _) as [v cfg]. injection Hr as <- <-.
    apply P_tb_set; [exact Hc|]. apply P_config. exact Hw.
  - injection Hr as <- <-. exact Hw.
Qed.

Lemma preserved_resolveLoop n es prefix ns pos (p p' : Parser) (w w' : World) :
  resolveLoop n es prefix ns pos p w = (p', w') ->
  tokenChunk p = c -> P w -> P w'.
Proof.
  revert pos p w. induction n as [|n IH]; intros pos p w Hl Hc Hw.
  - cbn in Hl. injection Hl as <- <-. exact Hw.
  - cbn [resolveLoop] in Hl.
    destruct (resolveSlot es prefix ns pos p w) as [p1 w1] eqn:Hs.
    pose proof (frame_resolveSlot _ _ _ _ _ _ _ _ Hs) as [(_ & _ & Htc & _) _].
    apply (IH _ _ _ Hl); [congruence|].
    eapply preserved_resolveSlot; eassumption.
Qed.

Lemma preserved_resolve es tokenNum prefix idNamespace (p p' : Parser) (w w' : World) :
  resolve es tokenNum prefix idNamespace p w = Ok (p', w') ->
  tokenChunk p = c -> P w -> P w'.
Proof.
  unfold resolve. intros Hr Hc Hw.
  destruct (ParserConfig.getNamespace (config w) idNamespace) as [ns|]; [|discriminate].
  apply bind_Ok_inv in Hr as ([ns1 w1] & Hn & Hr). injection Hr as Hr.
  apply (preserved_resolveLoop _ _ _ _ _ _ _ _ _ Hr); [exact Hc|].
  destruct (noDefaultPrefix (pn_base ns)).
  - destruct prefix; [|discriminate]. injection Hn as <- <-. apply P_config. exact Hw.
  - injection Hn as <- <-. exact Hw.
Qed.

Lemma preserved_resolveUnknown n es pos (p : Parser) (w w' : World) :
  resolveUnknown n es pos p w = Ok w' ->
  tokenChunk p = c -> P w -> P w'.
Proof.
  revert pos w. induction n as [|n IH]; intros pos w Hr Hc Hw.
  - cbn in Hr. injection Hr as <-. exact Hw.
  - rewrite resolveUnknown_S in Hr.
    match type of Hr with
    | match ?m with Ok _ => _ | Throw _ => _ end = _ =>
        destruct m as [w1|] eqn:Hone; [|discriminate]
    end.
    apply (IH _ _ Hr Hc).
    destruct (arr_get (unknownOffsetList p) pos) as [offset|];
      [|injection Hone as <-; exact Hw].
    destruct (mjoin (arr_get (namespaceBuffer p) offset)) as [ns|];
      [|injection Hone as <-; exact Hw].
    destruct (tb_get p w (offset + es)); try discriminate.
    destruct (memberResolve _ _ _) as [v cfg]. injection Hone as <-.
    apply P_tb_set; [exact Hc|]. apply P_config. exact Hw.
Qed.

Lemma preserved_pushToken v (l l' : Loc.t) (p : Parser) (w w' : World) :
  pushToken v l p w = (l', w') -> tokenChunk p = c -> P w -> P w'.
Proof.
  unfold pushToken. intros Hp Hc Hw. injection Hp as <- <-.
  apply P_tb_set; assumption.
Qed.

Lemma preserved_step kind code (l l' : Loc.t) (p p' : Parser) (w w' : World) :
  step kind code l p w = Ok (l', p', w') ->
  tokenChunk p = c -> P w -> P w'.
Proof.
  intros Hs Hc Hw.
  destruct kind; cbn [step] in Hs; revert Hc; inv_ok; intros Hc;
    repeat match goal with
    | H : getSlice _ _ _ = Ok _ |- _ =>
        apply getSlice_keeps in H; destruct H as (? & _)
    | H : partialCase _ _ _ _ = Ok _ |- _ => clear H
    | H : resolve _ _ _ _ _ _ = Ok _ |- _ =>
        let Hf := fresh in
        pose proof (frame_resolve _ _ _ _ _ _ _ _ H) as [(_ & _ & Hf & _) _];
        let Hp := fresh in
        pose proof (preserved_resolve _ _ _ _ _ _ _ _ H) as Hp; clear H
    | H : resolveUnknown _ _ _ _ _ = Ok _ |- _ =>
        let Hp := fresh in
        pose proof (preserved_resolveUnknown _ _ _ _ _ _ H) as Hp; clear H
    | H : pushToken _ _ _ _ = _ |- _ =>
        let Hp := fresh in
        pose proof (preserved_pushToken _ _ _ _ _ _ H) as Hp; clear H
    end;
    cbn in *;
    repeat first
      [ assumption
      | match goal with
        | |- _ = _ => congruence
        | H : _ -> P ?v -> P ?v' |- P ?v' => apply H
        | |- P (tb_set _ _ _ _) => apply P_tb_set
        | |- P (set_config _ _) => apply P_config
        | |- P (set_nextObj _ _) => apply P_nextObj
        end ].
Qed.

Lemma preserved_codeLoop n codeBuffer codeNum (l l' : Loc.t) (p p' : Parser)
    (w w' : World) :
  codeLoop n codeBuffer codeNum l p w = Ok (l', p', w') ->
  tokenChunk p = c -> P w -> P w'.
Proof.
  revert codeNum l p w. induction n as [|n IH]; intros codeNum l p w Hl Hc Hw.
  - cbn in Hl. injection Hl as <- <- <-. exact Hw.
  - cbn [codeLoop] in Hl.
    apply bind_Ok_inv in Hl as ([[l1 p1] w1] & Hs & Hl).
    pose proof (frame_step _ _ _ _ _ _ _ _ Hs) as [(_ & _ & Htc & _) _].
    apply (IH _ _ _ _ Hl); [congruence|].
    eapply preserved_step; eassumption.
Qed.

End Preserved.

Section Bounded.
Context {E : Env}.

(** The decoder leaves no token after the end of the token buffer. *)
Lemma codeLoop_bounded n codeBuffer codeNum (l l' : Loc.t) (p p' : Parser)
    (w w' : World) :
  codeLoop n codeBuffer codeNum l p w = Ok (l', p', w') ->
  bounded (tokenBuffer p w) -> bounded (tokenBuffer p' w').
Proof.
  intros Hl Hb.
  pose proof (frame_codeLoop _ _ _ _ _ _ _ _ _ Hl) as [(_ & _ & Htc & _) _].
  rewrite (tokenBuffer_same_chunk p p' w') by exact Htc.
  assert (Htb : forall (q : Parser) (v : World) (i : Z) (x : Value),
            tokenChunk q = tokenChunk p ->
            bounded (tokenBuffer p v) -> bounded (tokenBuffer p (tb_set q v i x))).
  { intros q v i x Hq Hv.
    rewrite (tokenBuffer_tb_set_other q p) by (symmetry; exact Hq).
    apply bounded_set.
    rewrite (tokenBuffer_same_chunk p q) by exact Hq. exact Hv. }
  exact (preserved_codeLoop (tokenChunk p) (fun v => bounded (tokenBuffer p v))
           (fun cfg v H => H) (fun n v H => H) Htb
           _ _ _ _ _ _ _ _ _ Hl eq_refl Hb).
Qed.

End Bounded.

(** * The decoder on a document written in parts *)

#[local] Arguments getSlice : simpl never.
#[local] Arguments resolve : simpl never.
#[local] Arguments resolveUnknown : simpl never.
#[local] Arguments normalizeNewlines : simpl never.
#[local] Arguments tbl_get : simpl never.
#[local] Arguments arr_set : simpl never.
#[local] Arguments arr_get : simpl never.
#[local] Arguments js_slice : simpl never.
#[local] Arguments pb_get : simpl never.
#[local] Arguments BufRel : simpl never.
#[local] Arguments SliceRel : simpl never.

Lemma BufRel_set (d : Z) (F : list Value) (bW bS : JsArray Value) (i : Z) (v : Value) :
  BufRel d F bW bS -> 0 <= i ->
  BufRel d F (arr_set bW (i + d) v) (arr_set bS i v).
Proof.
  intros (B1 & B2 & B3 & B4 & B5) Hi.
  unfold BufRel, arr_set, arr_get in *. cbn.
  assert (0 <= d) by lia.
  rewrite !(proj2 (Z.leb_le _ _)) by lia.
  split; [exact B1|]. split; [lia|]. split; [lia|]. split.
  - intros j Hj. rewrite !lookup_insert.
    destruct (decide (i + d = j + d)), (decide (i = j)); try lia; [reflexivity|].
    apply B4. exact Hj.
  - intros k Hk. rewrite lookup_insert_ne by lia. apply B5. exact Hk.
Qed.

Lemma BufRel_get (d : Z) (F : list Value) (bW bS : JsArray Value) (j : Z) :
  BufRel d F bW bS -> 0 <= j -> arr_get bS j = arr_get bW (j + d).
Proof. intros (_ & _ & _ & B4 & _) Hj. symmetry. apply B4. exact Hj. Qed.

Ltac rel_destruct H :=
  destruct H as (RL1 & RL2 & RL3 & RL4 & RL5 & RL6 & RL7 & RL8 & RL9 & RL10
                 & RP1 & RP2 & RP3 & RP4 & RP5 & RP6 & RP7 & RW1 & RW2
                 & RT1 & RT2 & RE & RB & RS).

Ltac to_whole :=
  try match goal with H : Loc.elementList _ = Loc.elementList _ |- _ => rewrite !H end;
  try match goal with H : Loc.attributeList _ = Loc.attributeList _ |- _ => rewrite !H end;
  try match goal with H : Loc.prefixList _ = Loc.prefixList _ |- _ => rewrite !H end;
  try match goal with H : Loc.uriList _ = Loc.uriList _ |- _ => rewrite !H end;
  try match goal with H : Loc.partialList _ = Loc.partialList _ |- _ => rewrite !H end;
  try match goal with H : Loc.partialLen _ = Loc.partialLen _ |- _ => rewrite !H end;
  try match goal with H : Loc.latestElement _ = Loc.latestElement _ |- _ => rewrite !H end;
  try match goal with H : Loc.latestPrefix _ = Loc.latestPrefix _ |- _ => rewrite !H end;
  try match goal with H : Loc.latestNamespace _ = Loc.latestNamespace _ |- _ => rewrite !H end;
  try match goal with H : Loc.unknownCount _ = Loc.unknownCount _ |- _ => rewrite !H end;
  try match goal with H : namespaceList _ = namespaceList _ |- _ => rewrite !H end;
  try match goal with H : namespacesChanged _ = namespacesChanged _ |- _ => rewrite !H end;
  try match goal with H : prefixBuffer _ = prefixBuffer _ |- _ => rewrite !H end;
  try match goal with H : namespaceBuffer _ = namespaceBuffer _ |- _ => rewrite !H end;
  try match goal with H : unknownElementTbl _ = unknownElementTbl _ |- _ => rewrite !H end;
  try match goal with H : unknownAttributeTbl _ = unknownAttributeTbl _ |- _ => rewrite !H end;
  try match goal with H : unknownOffsetList _ = unknownOffsetList _ |- _ => rewrite !H end;
  try match goal with H : config _ = config _ |- _ => rewrite !H end;
  try match goal with H : nextObj _ = nextObj _ |- _ => rewrite !H end.

Section Simulation.
Context {E : Env}.

Lemma tb_get_rel (d : Z) (F : list Value) (pW pS : Parser) (wW wS : World) (j : Z) :
  BufRel d F (tokenBuffer pW wW) (tokenBuffer pS wS) -> 0 <= j ->
  tb_get pS wS j = tb_get pW wW (j + d).
Proof.
  intros HB Hj. unfold tb_get. rewrite (BufRel_get _ _ _ _ _ HB Hj). reflexivity.
Qed.

Lemma BufRel_tb_set (d : Z) (F : list Value) (pW pS qW qS : Parser)
    (wW wS : World) (iW iS : Z) (v : Value) :
  BufRel d F (tokenBuffer pW wW) (tokenBuffer pS wS) ->
  0 <= iS -> iW = iS + d ->
  tokenChunk qW = tokenChunk pW -> tokenChunk qS = tokenChunk pS ->
  BufRel d F (tokenBuffer qW (tb_set pW wW iW v))
    (tokenBuffer qS (tb_set pS wS iS v)).
Proof.
  intros HB Hi -> HW HS.
  rewrite !tokenBuffer_tb_set_other by assumption.
  apply BufRel_set; assumption.
Qed.

Lemma BufRel_ext (d : Z) (F : list Value) (pW pS qW qS : Parser)
    (wW wS vW vS : World) :
  BufRel d F (tokenBuffer pW wW) (tokenBuffer pS wS) ->
  tokenChunk qW = tokenChunk pW -> tokenChunk qS = tokenChunk pS ->
  chunks vW = chunks wW -> chunks vS = chunks wS ->
  BufRel d F (tokenBuffer qW vW) (tokenBuffer qS vS).
Proof.
  intros HB HW HS HvW HvS.
  rewrite (tokenBuffer_ext pW qW wW vW), (tokenBuffer_ext pS qS wS vS) by assumption.
  exact HB.
Qed.

(** [SliceRel] looks at the input buffer and the saved parts only. *)
Lemma SliceRel_ext (doc pre : bytes) (sW sS : Z) (pW pS qW qS : Parser) :
  SliceRel doc pre sW pW sS pS ->
  chunk qW = chunk pW -> chunk qS = chunk pS ->
  partList qW = partList pW -> partList qS = partList pS ->
  partListTotalByteLen qW = partListTotalByteLen pW ->
  partListTotalByteLen qS = partListTotalByteLen pS ->
  SliceRel doc pre sW qW sS qS.
Proof.
  unfold SliceRel. intros HS -> -> -> -> -> ->. exact HS.
Qed.

(** A run starts in the current buffer. *)
Lemma SliceRel_start (doc pre : bytes) (sW sS cW : Z) (pW pS : Parser) :
  SliceRel doc pre sW pW sS pS ->
  sW < 0 -> Z.of_nat (length pre) <= cW ->
  SliceRel doc pre cW pW (cW - Z.of_nat (length pre)) pS.
Proof.
  intros (S1 & S2 & S3 & S4) Hneg Hc.
  split; [exact S1|]. split; [exact S2|]. split; [exact S3|].
  right. left.
  destruct S4 as [(_ & _ & A & B)|[(Hge & _)|(Hge & _)]]; [|lia|lia].
  repeat split; assumption.
Qed.

(** After the end of a run nothing is saved. *)
Lemma SliceRel_closed (doc pre : bytes) (sW sS : Z) (pW pS : Parser) :
  SliceRel doc pre sW pW sS pS ->
  SliceRel doc pre (-1) (withParts None (Some 0) pW) (-1)
    (withParts None (Some 0) pS).
Proof.
  intros (S1 & S2 & S3 & S4).
  split; [exact S1|]. split; [exact S2|]. split; [reflexivity|].
  left. split; [lia|]. repeat split.
Qed.

Ltac slice_sim Hg :=
  match type of Hg with
  | getSlice ?sW (Some ?eW) ?pW = Ok (?str, ?pW1) =>
      match goal with
      | RS : SliceRel ?doc ?pre sW pW ?sS ?pS |- _ =>
          let H := fresh "HgS" in
          destruct (getSlice_sim doc pre sW sS eW pW pS pW1 str RS) as [H ->];
          [lia | lia | exact Hg | rewrite H]
      end
  end.

Ltac buf_push :=
  apply BufRel_tb_set; [assumption | lia | lia | reflexivity | reflexivity].

Lemma resolveSlot_sim d F esS prefix ns pos (pW pS pW' pS' : Parser)
    (wW wS wW' wS' : World) :
  LoopRel d F pW wW pS wS -> 0 <= pos + esS ->
  resolveSlot (esS + d) prefix ns pos pW wW = (pW', wW') ->
  resolveSlot esS prefix ns pos pS wS = (pS', wS') ->
  LoopRel d F pW' wW' pS' wS'.
Proof.
  intros (HB & Hpb & Hnb & Hcfg) Hpos HW HS.
  unfold resolveSlot in HW, HS.
  unfold pb_get in *. rewrite Hpb, Hcfg, Hnb in HS.
  rewrite (tb_get_rel d F pW pS wW wS) in HS by assumption.
  replace (pos + esS + d) with (pos + (esS + d)) in HS by lia.
  destruct (bool_decide _).
  - destruct (tb_get pW wW (pos + (esS + d)));
      try (injection HW as <- <-; injection HS as <- <-;
           split; [exact HB|]; split; [exact Hpb|]; split; [exact Hnb|exact Hcfg]).
    destruct (memberResolve _ _ _) as [v cfg].
    injection HW as <- <-. injection HS as <- <-.
    split; [|split; [exact Hpb|]; split; reflexivity].
    apply BufRel_tb_set; [|lia|lia|reflexivity|reflexivity].
    eapply BufRel_ext; [exact HB|reflexivity..].
  - injection HW as <- <-. injection HS as <- <-.
    split; [exact HB|]; split; [exact Hpb|]; split; [exact Hnb|exact Hcfg].
Qed.

Lemma resolveLoop_sim n d F esS prefix ns pos (pW pS pW' pS' : Parser)
    (wW wS wW' wS' : World) :
  LoopRel d F pW wW pS wS -> 0 <= pos + esS ->
  resolveLoop n (esS + d) prefix ns pos pW wW = (pW', wW') ->
  resolveLoop n esS prefix ns pos pS wS = (pS', wS') ->
  LoopRel d F pW' wW' pS' wS'.
Proof.
  revert pos pW pS wW wS. induction n as [|n IH]; intros pos pW pS wW wS HR Hpos HW HS.
  - cbn in HW, HS. injection HW as <- <-. injection HS as <- <-. exact HR.
  - cbn [resolveLoop] in HW, HS.
    destruct (resolveSlot (esS + d) prefix ns pos pW wW) as [pW1 wW1] eqn:H1.
    destruct (resolveSlot esS prefix ns pos pS wS) as [pS1 wS1] eqn:H2.
    apply (IH (pos + 1) pW1 pS1 wW1 wS1); [|lia|assumption|assumption].
    eapply resolveSlot_sim; eassumption.
Qed.

Lemma resolve_sim d F esS tnS prefix idNamespace (pW pS pW' : Parser)
    (wW wS wW' : World) :
  LoopRel d F pW wW pS wS -> 0 <= esS ->
  namespaceList pS = namespaceList pW ->
  resolve (esS + d) (tnS + d) prefix idNamespace pW wW = Ok (pW', wW') ->
  exists pS' wS',
    resolve esS tnS prefix idNamespace pS wS = Ok (pS', wS')
    /\ LoopRel d F pW' wW' pS' wS'
    /\ namespaceList pS' = namespaceList pW'.
Proof.
  intros HR Hes Hnl HW. pose proof HR as (HB & Hpb & Hnb & Hcfg).
  unfold resolve in *. rewrite Hcfg.
  destruct (ParserConfig.getNamespace (config wW) idNamespace) as [ns0|]; [|discriminate].
  unfold mbind, Result_bind in *.
  destruct (noDefaultPrefix (pn_base ns0)).
  - destruct prefix as [pr|]; [|discriminate].
    injection HW as HW. replace (tnS + d - (esS + d)) with (tnS - esS) in HW by lia.
    rewrite Hnl. cbn beta iota.
    destruct (resolveLoop _ esS _ _ _ _ _) as [pS' wS'] eqn:HS.
    exists pS', wS'. split; [reflexivity|].
    pose proof (resolveLoop_shape _ _ _ _ _ _ _ _ _ HW) as [SW _].
    pose proof (resolveLoop_shape _ _ _ _ _ _ _ _ _ HS) as [SS _].
    assert (HL : LoopRel d F pW' wW' pS' wS').
    { eapply resolveLoop_sim; [| |exact HW|exact HS]; [|lia].
      split; [|repeat split; assumption].
      eapply BufRel_ext; [exact HB|reflexivity..]. }
    split; [exact HL|]. rewrite SW, SS. reflexivity.
  - injection HW as HW. replace (tnS + d - (esS + d)) with (tnS - esS) in HW by lia.
    rewrite Hnl. cbn beta iota.
    destruct (resolveLoop _ esS _ _ _ _ _) as [pS' wS'] eqn:HS.
    exists pS', wS'. split; [reflexivity|].
    pose proof (resolveLoop_shape _ _ _ _ _ _ _ _ _ HW) as [SW _].
    pose proof (resolveLoop_shape _ _ _ _ _ _ _ _ _ HS) as [SS _].
    assert (HL : LoopRel d F pW' wW' pS' wS').
    { eapply resolveLoop_sim; [| |exact HW|exact HS]; [|lia].
      split; [|repeat split; assumption].
      eapply BufRel_ext; [exact HB|reflexivity..]. }
    split; [exact HL|]. rewrite SW, SS. reflexivity.
Qed.

Lemma resolveUnknown_shape n es pos (p : Parser) (w w' : World) :
  resolveUnknown n es pos p w = Ok w' -> nextObj w' = nextObj w.
Proof.
  revert pos w. induction n as [|n IH]; intros pos w Hr.
  - cbn in Hr. injection Hr as <-. reflexivity.
  - rewrite resolveUnknown_S in Hr.
    match type of Hr with
    | match ?m with Ok _ => _ | Throw _ => _ end = _ =>
        destruct m as [w1|] eqn:Hone; [|discriminate]
    end.
    rewrite (IH _ _ Hr).
    destruct (arr_get (unknownOffsetList p) pos) as [offset|];
      [|injection Hone as <-; reflexivity].
    destruct (mjoin (arr_get (namespaceBuffer p) offset)) as [ns|];
      [|injection Hone as <-; reflexivity].
    destruct (tb_get p w (offset + es)); try discriminate.
    destruct (memberResolve _ _ _) as [v cfg]. injection Hone as <-. reflexivity.
Qed.

Lemma resolveUnknown_sim n d F esS pos (pW pS : Parser) (wW wS wW' : World) :
  LoopRel d F pW wW pS wS -> 0 <= esS ->
  unknownOffsetList pS = unknownOffsetList pW ->
  (forall k off, pos <= k < pos + Z.of_nat n ->
     arr_get (unknownOffsetList pW) k = Some off -> 0 <= off) ->
  resolveUnknown n (esS + d) pos pW wW = Ok wW' ->
  exists wS',
    resolveUnknown n esS pos pS wS = Ok wS'
    /\ LoopRel d F pW wW' pS wS'.
Proof.
  revert pos wW wS. induction n as [|n IH]; intros pos wW wS HR Hes Hq Hoffs HW.
  - cbn in HW |- *. injection HW as <-. exists wS. split; [reflexivity|exact HR].
  - rewrite resolveUnknown_S in HW |- *.
    pose proof HR as (HB & Hpb & Hnb & Hcfg).
    rewrite Hq, Hnb, Hcfg.
    match type of HW with
    | match ?m with Ok _ => _ | Throw _ => _ end = _ =>
        destruct m as [wW1|] eqn:Hone; [|discriminate]
    end.
    assert (Hstep : exists wS1,
              match arr_get (unknownOffsetList pW) pos with
              | Some offset =>
                  match mjoin (arr_get (namespaceBuffer pW) offset) with
                  | Some ns =>
                      match tb_get pS wS (offset + esS) with
                      | VMember token =>
                          let '(v, cfg) :=
                            memberResolve (config wW) token
                              (ParserConfig.getNamespace (config wW) (pn_id ns)) in
                          Ok (tb_set pS (set_config cfg wS) (offset + esS) v)
                      | _ => Throw "TypeError: resolve is not a function"
                      end
                  | None => Ok wS
                  end
              | None => Ok wS
              end = Ok wS1 /\ LoopRel d F pW wW1 pS wS1).
    { destruct (arr_get (unknownOffsetList pW) pos) as [offset|] eqn:Hoff;
        [|injection Hone as <-; exists wS; split; [reflexivity|exact HR]].
      assert (0 <= offset) by (apply (Hoffs pos); [lia|exact Hoff]).
      destruct (mjoin (arr_get (namespaceBuffer pW) offset)) as [ns|];
        [|injection Hone as <-; exists wS; split; [reflexivity|exact HR]].
      rewrite (tb_get_rel d F pW pS wW wS) by (assumption || lia).
      replace (offset + esS + d) with (offset + (esS + d)) by lia.
      destruct (tb_get pW wW (offset + (esS + d))); try discriminate.
      destruct (memberResolve _ _ _) as [v cfg]. injection Hone as <-.
      eexists. split; [reflexivity|].
      split; [|repeat split; assumption].
      apply BufRel_tb_set; [|lia|lia|reflexivity|reflexivity].
      eapply BufRel_ext; [exact HB|reflexivity..]. }
    destruct Hstep as (wS1 & -> & HR1).
    apply (IH (pos + 1) wW1 wS1 HR1 Hes Hq); [|exact HW].
    intros k off Hk. apply Hoffs. lia.
Qed.

Ltac rel_goal :=
  unfold Rel; cbn; to_whole;
  repeat match goal with
  | |- _ /\ _ => split
  end;
  try first [assumption | reflexivity | lia | congruence].

Ltac es_same :=
  match goal with
  | H : (_ /\ _) \/ (_ /\ _) |- (_ /\ _) \/ (_ /\ _) => exact H
  end.

(** The first part of the cases [ELEMENT_EMITTED] and
    [CLOSED_ELEMENT_EMITTED] on the two decoders. *)
Lemma emitted_queue_sim doc pre d F (lW lS lW1 : Loc.t) (pW pS : Parser)
    (wW wS wW1 : World) :
  Rel doc pre d F lW pW wW lS pS wS -> Inv lW pW wW ->
  0 <= Loc.elementStart lW ->
  (if bool_decide (Loc.unknownCount lW = 0) then Ok (lW, wW)
   else
     w ← resolveUnknown (Z.to_nat (Loc.unknownCount lW)) (Loc.elementStart lW) 0 pW wW;
     let l := Loc.set_latestElement (tb_get pW w (Loc.elementStart lW)) lW in
     Ok (Loc.set_unknownCount 0 l, w)) = Ok (lW1, wW1) ->
  exists lS1 wS1,
    (if bool_decide (Loc.unknownCount lS = 0) then Ok (lS, wS)
     else
       w ← resolveUnknown (Z.to_nat (Loc.unknownCount lS)) (Loc.elementStart lS) 0 pS wS;
       let l := Loc.set_latestElement (tb_get pS w (Loc.elementStart lS)) lS in
       Ok (Loc.set_unknownCount 0 l, w)) = Ok (lS1, wS1)
    /\ Rel doc pre d F lW1 pW wW1 lS1 pS wS1
    /\ Loc.tokenNum lW1 = Loc.tokenNum lW
    /\ arr_length (tokenBuffer pW wW1) = arr_length (tokenBuffer pW wW).
Proof.
  intros HR HI Hes Hq. pose proof HR as HR'. rel_destruct HR'.
  pose proof HI as (I1 & I2 & I3 & I4 & I5 & I6).
  destruct RE as [[? ?]|[RE1 RE2]]; [lia|].
  rewrite RL10.
  case_bool_decide as Hc.
  - injection Hq as <- <-. exists lS, wS.
    split; [reflexivity|]. split; [exact HR|]. split; reflexivity.
  - unfold mbind, Result_bind in Hq |- *.
    destruct (resolveUnknown _ _ _ pW _) as [wW2|] eqn:Hr; [|discriminate].
    injection Hq as <- <-.
    pose proof (resolveUnknown_len _ _ _ _ _ _ Hr) as Hlen.
    replace (Loc.elementStart lW) with (Loc.elementStart lS + d) in Hr by lia.
    destruct (resolveUnknown_sim (Z.to_nat (Loc.unknownCount lW)) d F
                (Loc.elementStart lS) 0 pW pS wW wS wW2) as (wS2 & HrS & HL);
      [split; [exact RB|]; split; [exact RP3|]; split; [exact RP4|exact RW1]
      | exact RE1 | exact RP7 | | exact Hr |].
    { intros k off Hk Hoff. destruct (I6 k) as (off' & E1 & E2); [lia|].
      rewrite Hoff in E1. injection E1 as <-. lia. }
    rewrite HrS. eexists _, _. split; [reflexivity|].
    destruct HL as (HB & _ & _ & Hcfg).
    pose proof (resolveUnknown_shape _ _ _ _ _ _ Hr) as HnW.
    pose proof (resolveUnknown_shape _ _ _ _ _ _ HrS) as HnS.
    split; [|split; [reflexivity|]].
    + rel_goal.
      rewrite (tb_get_rel d F pW pS wW2 wS2) by assumption. f_equal. lia.
    + apply Hlen. intros pos off Hpos Hoff.
      destruct (I6 pos) as (off' & E1 & E2); [lia|].
      rewrite Hoff in E1. injection E1 as <-. lia.
Qed.

(** The closing token of a start tag is pushed on both sides. *)
Lemma Rel_push_close doc pre d F (lW lS : Loc.t) (pW pS : Parser)
    (wW wS : World) (v : Value) :
  Rel doc pre d F lW pW wW lS pS wS ->
  Rel doc pre d F
    (Loc.set_elementStart (-1) (Loc.set_tokenNum (Loc.tokenNum lW + 1) lW)) pW
    (tb_set pW wW (Loc.tokenNum lW + 1) v)
    (Loc.set_elementStart (-1) (Loc.set_tokenNum (Loc.tokenNum lS + 1) lS)) pS
    (tb_set pS wS (Loc.tokenNum lS + 1) v).
Proof.
  intros HR. rel_destruct HR. rel_goal. buf_push.
Qed.

Lemma Rel_latestElement doc pre d F (lW lS : Loc.t) (pW pS : Parser)
    (wW wS : World) :
  Rel doc pre d F lW pW wW lS pS wS ->
  Loc.latestElement lS = Loc.latestElement lW.
Proof. intros HR. rel_destruct HR. exact RL7. Qed.

(** A partial name is announced outside a run: the first part is the
    same on both sides. *)
Lemma SliceRel_partial (doc pre : bytes) (sW sS : Z) (pW pS : Parser)
    (parts : list bytes) (total : option Z) :
  SliceRel doc pre sW pW sS pS -> sW < 0 ->
  SliceRel doc pre sW (withParts (Some parts) total pW) sS
    (withParts (Some parts) total pS).
Proof.
  intros (S1 & S2 & S3 & S4) Hneg.
  split; [exact S1|]. split; [exact S2|]. split; [discriminate|].
  left. destruct S4 as [(_ & A & _)|[(Hge & _)|(Hge & _)]]; [|lia|lia].
  repeat split; assumption.
Qed.

Lemma partialCase_sim doc pre d F entry code (lW lS lW' : Loc.t)
    (pW pS pW' : Parser) (wW wS : World) :
  Rel doc pre d F lW pW wW lS pS wS ->
  Loc.partStart lW < 0 ->
  partialCase entry code lW pW = Ok (lW', pW') ->
  exists lS' pS',
    partialCase entry code lS pS = Ok (lS', pS')
    /\ Rel doc pre d F lW' pW' wW lS' pS' wS
    /\ chunk pS' = chunk pS
    /\ tokenChunk pS' = tokenChunk pS.
Proof.
  intros HR Hneg HW. destruct lW, lS. rel_destruct HR.
  cbn in RL1, RL2, RL3, RL4, RL5, RL6, RL7, RL8, RL9, RL10, RT1, RT2, RE, RS, Hneg.
  subst.
  unfold partialCase in HW |- *.
  destruct entry; cbn in HW |- *;
    repeat (match type of HW with
            | context [Pos.eqb (tl_obj ?a) (tl_obj ?b)] =>
                is_var a; is_var b; destruct (Pos.eqb (tl_obj a) (tl_obj b))
            end; cbn in HW |- *);
    (destruct (tl_get _ _); [|discriminate]); injection HW as <- <-;
    (eexists _, _; split; [reflexivity|]; split; [|split; reflexivity]);
    rel_goal; apply SliceRel_partial; assumption.
Qed.

(** One safe step of the decoder that has the whole document is matched by
    the same step, with its offset counted from the start of the current
    buffer, of the decoder that got the document in parts. *)
Lemma step_sim (doc pre : bytes) (d : Z) (F : list Value) (kind : CodeType)
    (cW : Z) (lW lS lW' : Loc.t) (pW pS pW' : Parser) (wW wS wW' : World) :
  Rel doc pre d F lW pW wW lS pS wS ->
  Inv lW pW wW ->
  safeStep (Z.of_nat (length pre))
    (Z.of_nat (length pre) + Z.of_nat (length (chunk pS))) kind cW lW = true ->
  step kind cW lW pW wW = Ok (lW', pW', wW') ->
  exists lS' pS' wS',
    step kind (cW - (if isOffsetKind kind then Z.of_nat (length pre) else 0))
      lS pS wS = Ok (lS', pS', wS')
    /\ Rel doc pre d F lW' pW' wW' lS' pS' wS'
    /\ chunk pS' = chunk pS
    /\ tokenChunk pS' = tokenChunk pS.
Proof.
  intros HR HI Hsafe Hs.
  pose proof HR as HR'. rel_destruct HR'.
  pose proof HI as (I1 & I2 & I3 & I4 & I5 & I6).
  pose proof RB as (B1 & B2 & B3 & B4 & B5).
  assert (Hd : 0 <= d) by lia.
  unfold safeStep in Hsafe.
  destruct kind; cbn [step isOffsetKind isStartKind isEndKind isPartialKind
                      insideTag opensTag orb andb] in Hs, Hsafe |- *;
    unfold pushToken in Hs |- *; safe_split; rewrite ?Z.sub_0_r.
  - (* OPEN_ELEMENT_ID *)
    to_whole.
    destruct (tl_get _ _); [|discriminate]. injection Hs as <- <- <-.
    eexists _, _, _. split; [reflexivity|]. split; [|split; reflexivity].
    rel_goal.
    buf_push.
  - (* CLOSE_ELEMENT_ID *)
    to_whole.
    destruct (tl_get _ _); [|discriminate]. injection Hs as <- <- <-.
    eexists _, _, _. split; [reflexivity|]. split; [|split; reflexivity].
    rel_goal. buf_push.
  - (* ELEMENT_EMITTED *)
    apply bind_Ok_inv in Hs as ([lW1 wW1] & Hq & Hs).
    destruct (emitted_queue_sim _ _ _ _ _ _ _ _ _ _ _ _ HR HI H Hq)
      as (lS1 & wS1 & HqS & HR1 & Hn1 & Hlen1).
    cbv zeta in HqS. rewrite HqS, bind_Ok.
    rewrite (Rel_latestElement _ _ _ _ _ _ _ _ _ _ HR1).
    apply bind_Ok_inv in Hs as (v & Hv & Hs). rewrite Hv, bind_Ok.
    injection Hs as <- <- <-.
    eexists _, _, _. split; [reflexivity|]. split; [|split; reflexivity].
    apply Rel_push_close. exact HR1.
  - (* CLOSED_ELEMENT_EMITTED *)
    apply bind_Ok_inv in Hs as ([lW1 wW1] & Hq & Hs).
    destruct (emitted_queue_sim _ _ _ _ _ _ _ _ _ _ _ _ HR HI H Hq)
      as (lS1 & wS1 & HqS & HR1 & Hn1 & Hlen1).
    cbv zeta in HqS. rewrite HqS, bind_Ok.
    rewrite (Rel_latestElement _ _ _ _ _ _ _ _ _ _ HR1).
    apply bind_Ok_inv in Hs as (v & Hv & Hs). rewrite Hv, bind_Ok.
    injection Hs as <- <- <-.
    eexists _, _, _. split; [reflexivity|]. split; [|split; reflexivity].
    apply Rel_push_close. exact HR1.
  - (* ATTRIBUTE_ID *)
    destruct RE as [[? ?]|[RE1 RE2]]; [lia|].
    unfold pb_get in *. to_whole.
    destruct (tl_get _ _); [|discriminate]. injection Hs as <- <- <-.
    eexists _, _, _. split; [reflexivity|]. split; [|split; reflexivity].
    rel_goal.
    + f_equal. lia.
    + buf_push.
  - (* PREFIX_ID *)
    to_whole. injection Hs as <- <- <-.
    eexists _, _, _. split; [reflexivity|]. split; [|split; reflexivity].
    rel_goal.
  - to_whole. injection Hs as <- <- <-.
    eexists _, _, _. split; [reflexivity|]. split; [|split; reflexivity].
    rel_goal.
  - (* NAMESPACE_ID *)
    destruct RE as [[? ?]|[RE1 RE2]]; [lia|].
    apply bind_Ok_inv in Hs as ([pW1 wW1] & Hr & Hs). injection Hs as <- <- <-.
    pose proof (resolve_keeps _ _ _ _ _ _ _ _ Hr)
      as (KW1 & KW2 & KW3 & KW4 & KW5 & KW6 & KW7 & KW8 & KW9).
    replace (Loc.elementStart lW) with (Loc.elementStart lS + d) in Hr by lia.
    replace (Loc.tokenNum lW) with (Loc.tokenNum lS + d) in Hr by lia.
    rewrite <- RL8 in Hr.
    destruct (resolve_sim d F (Loc.elementStart lS) (Loc.tokenNum lS)
                (Loc.latestPrefix lS) cW pW pS pW1 wW wS wW1)
      as (pS1 & wS1 & HrS & HL & Hnl);
      [split; [exact RB|]; split; [exact RP3|]; split; [exact RP4|exact RW1]
      | exact RE1 | exact RP1 | exact Hr |].
    rewrite HrS, bind_Ok.
    pose proof (resolve_keeps _ _ _ _ _ _ _ _ HrS)
      as (KS1 & KS2 & KS3 & KS4 & KS5 & KS6 & KS7 & KS8 & KS9).
    destruct HL as (HB & Hpb & Hnb & Hcfg).
    eexists _, _, _. split; [reflexivity|].
    split; [|split; assumption].
    rel_goal.
    eapply SliceRel_ext; [exact RS|assumption..].
  - (* TEXT_START_OFFSET *)
    injection Hs as <- <- <-.
    eexists _, _, _. split; [reflexivity|]. split; [|split; reflexivity].
    rel_goal. eapply SliceRel_start; eassumption.
  - (* VALUE_START_OFFSET *)
    injection Hs as <- <- <-.
    eexists _, _, _. split; [reflexivity|]. split; [|split; reflexivity].
    rel_goal. eapply SliceRel_start; eassumption.
  - (* COMMENT_START_OFFSET *)
    injection Hs as <- <- <-.
    eexists _, _, _. split; [reflexivity|]. split; [|split; reflexivity].
    rel_goal. eapply SliceRel_start; eassumption.
  - (* UNKNOWN_START_OFFSET *)
    injection Hs as <- <- <-.
    eexists _, _, _. split; [reflexivity|]. split; [|split; reflexivity].
    rel_goal. eapply SliceRel_start; eassumption.
  - (* UNKNOWN_OPEN_ELEMENT_END_OFFSET *)
    apply bind_Ok_inv in Hs as ([name pW1] & Hg & Hs).
    slice_sim Hg. rewrite bind_Ok.
    unfold withParts in Hs |- *. cbn in Hs |- *. to_whole.
    destruct (falsy _) eqn:Hf; injection Hs as <- <- <-;
      (eexists _, _, _; split; [reflexivity|]; split; [|split; reflexivity]);
      rel_goal; try buf_push; try (eapply SliceRel_closed; eassumption).
  - (* UNKNOWN_CLOSE_ELEMENT_END_OFFSET *)
    apply bind_Ok_inv in Hs as ([name pW1] & Hg & Hs).
    slice_sim Hg. rewrite bind_Ok.
    unfold withParts in Hs |- *. cbn in Hs |- *. to_whole.
    apply bind_Ok_inv in Hs as ([v wW1] & Hv & Hs). injection Hs as <- <- <-.
    destruct (Loc.latestNamespace lW) as [ns|] eqn:Hns.
    + destruct (addElement _ _ _) as [e cfg]. injection Hv as <- <-.
      rewrite ?bind_Ok.
      eexists _, _, _; split; [reflexivity|]; split; [|split; reflexivity].
      rel_goal; try buf_push; try (eapply SliceRel_closed; eassumption).
    + apply bind_Ok_inv in Hv as (v' & Hv' & Hv). injection Hv as <- <-.
      rewrite Hv', ?bind_Ok.
      eexists _, _, _; split; [reflexivity|]; split; [|split; reflexivity].
      rel_goal; try buf_push; try (eapply SliceRel_closed; eassumption).
  - (* UNKNOWN_ATTRIBUTE_END_OFFSET *)
    destruct RE as [[? ?]|[RE1 RE2]]; [lia|].
    apply bind_Ok_inv in Hs as ([name pW1] & Hg & Hs).
    slice_sim Hg. rewrite bind_Ok.
    unfold withParts in Hs |- *. cbn in Hs |- *. to_whole.
    replace (Loc.tokenNum lS + 1 - Loc.elementStart lS)
      with (Loc.tokenNum lW + 1 - Loc.elementStart lW) by lia.
    destruct (falsy _) eqn:Hf; injection Hs as <- <- <-;
      (eexists _, _, _; split; [reflexivity|]; split; [|split; reflexivity]);
      rel_goal; try buf_push; try (eapply SliceRel_closed; eassumption).
  - (* VALUE_END_OFFSET *)
    unfold mbind, Result_bind in Hs |- *.
    destruct (getSlice _ _ pW) as [[str pW1]|] eqn:Hg; [|discriminate].
    injection Hs as <- <- <-.
    slice_sim Hg.
    eexists _, _, _. split; [reflexivity|]. split; [|split; reflexivity].
    rel_goal.
    + buf_push.
    + eapply SliceRel_closed; eassumption.
  - (* TEXT_END_OFFSET *)
    unfold mbind, Result_bind in Hs |- *.
    destruct (getSlice _ _ pW) as [[str pW1]|] eqn:Hg; [|discriminate].
    injection Hs as <- <- <-.
    slice_sim Hg.
    eexists _, _, _. split; [reflexivity|]. split; [|split; reflexivity].
    rel_goal.
    + buf_push.
    + eapply SliceRel_closed; eassumption.
  - (* UNKNOWN_PREFIX_END_OFFSET *)
    apply bind_Ok_inv in Hs as ([[l1 p1] w1] & Hb & Hs). injection Hs as <- <- <-.
    rewrite bool_decide_eq_false_2 in Hb |- * by discriminate.
    apply bind_Ok_inv in Hb as ([name pW1] & Hg & Hb).
    slice_sim Hg. rewrite bind_Ok.
    unfold withParts in Hb |- *. cbn in Hb |- *. to_whole.
    destruct (addPrefix _ _) as [pr cfg]. injection Hb as <- <- <-.
    rewrite ?bind_Ok.
    eexists _, _, _; split; [reflexivity|]; split; [|split; reflexivity].
    rel_goal.
    eapply SliceRel_ext; [eapply SliceRel_closed; exact RS|reflexivity..].
  - (* UNKNOWN_XMLNS_END_OFFSET *)
    apply bind_Ok_inv in Hs as ([[l1 p1] w1] & Hb & Hs). injection Hs as <- <- <-.
    rewrite bool_decide_eq_false_2 in Hb |- * by discriminate.
    apply bind_Ok_inv in Hb as ([name pW1] & Hg & Hb).
    slice_sim Hg. rewrite bind_Ok.
    unfold withParts in Hb |- *. cbn in Hb |- *. to_whole.
    destruct (addPrefix _ _) as [pr cfg]. injection Hb as <- <- <-.
    rewrite ?bind_Ok.
    eexists _, _, _; split; [reflexivity|]; split; [|split; reflexivity].
    rel_goal.
    eapply SliceRel_ext; [eapply SliceRel_closed; exact RS|reflexivity..].
  - (* UNKNOWN_URI_END_OFFSET *)
    destruct RE as [[? ?]|[RE1 RE2]]; [lia|].
    apply bind_Ok_inv in Hs as ([[l1 p1] w1] & Hb & Hs). injection Hs as <- <- <-.
    rewrite bool_decide_eq_true_2 in Hb |- * by reflexivity.
    apply bind_Ok_inv in Hb as ([uri pW1] & Hg & Hb).
    slice_sim Hg. rewrite bind_Ok.
    unfold withParts in Hb |- *. cbn in Hb |- *. to_whole.
    destruct (Loc.latestPrefix lW) as [pr|] eqn:Hpr; [|discriminate].
    destruct (bindNamespace _ _ _) as [id cfg].
    apply bind_Ok_inv in Hb as ([pW2 wW2] & Hr & Hb). injection Hb as <- <- <-.
    pose proof (resolve_keeps _ _ _ _ _ _ _ _ Hr)
      as (KW1 & KW2 & KW3 & KW4 & KW5 & KW6 & KW7 & KW8 & KW9).
    replace (Loc.elementStart lW) with (Loc.elementStart lS + d) in Hr by lia.
    replace (Loc.tokenNum lW) with (Loc.tokenNum lS + d) in Hr by lia.
    cbn in KW2, KW3, KW4, KW5, KW6, KW7, KW8, KW9.
    destruct (resolve_sim d F (Loc.elementStart lS) (Loc.tokenNum lS) (Some pr) id
                (set_partListTotalByteLen (Some 0) (set_partList None pW))
                (set_partListTotalByteLen (Some 0) (set_partList None pS))
                pW2 (set_config cfg wW) (set_config cfg wS) wW2)
      as (pS2 & wS2 & HrS & HL & Hnl);
      [split; [eapply BufRel_ext; [exact RB|reflexivity..]|];
       split; [exact RP3|]; split; [exact RP4|reflexivity]
      | exact RE1 | exact RP1 | exact Hr |].
    rewrite HrS, !bind_Ok.
    pose proof (resolve_keeps _ _ _ _ _ _ _ _ HrS)
      as (KS1 & KS2 & KS3 & KS4 & KS5 & KS6 & KS7 & KS8 & KS9).
    cbn in KS2, KS3, KS4, KS5, KS6, KS7, KS8, KS9.
    destruct HL as (HB & Hpb & Hnb & Hcfg).
    eexists _, _, _. split; [reflexivity|].
    split; [|split; assumption].
    rel_goal.
    eapply SliceRel_ext; [eapply SliceRel_closed; exact RS|assumption..].
  - (* COMMENT_END_OFFSET *)
    cbn in Hs |- *.
    apply bind_Ok_inv in Hs as ([str pW1] & Hg & Hs). injection Hs as <- <- <-.
    slice_sim Hg. rewrite bind_Ok.
    eexists _, _, _. split; [reflexivity|]. split; [|split; reflexivity].
    rel_goal.
    + apply BufRel_tb_set; [|lia|lia|reflexivity|reflexivity]. buf_push.
    + eapply SliceRel_closed; eassumption.
  - (* PARTIAL_LEN *)
    injection Hs as <- <- <-.
    eexists _, _, _. split; [reflexivity|]. split; [|split; reflexivity].
    rel_goal.
  - (* PARTIAL_URI_ID *)
    apply bind_Ok_inv in Hs as ([l1 p1] & Hp & Hs). injection Hs as <- <- <-.
    destruct (partialCase_sim _ _ _ _ _ _ _ _ _ _ _ _ _ _ HR ltac:(lia) Hp)
      as (lS1 & pS1 & HpS & HR1 & K1 & K2).
    rewrite HpS, bind_Ok. eexists _, _, _. split; [reflexivity|].
    split; [exact HR1|]. split; assumption.
  - (* PARTIAL_PREFIX_ID *)
    apply bind_Ok_inv in Hs as ([l1 p1] & Hp & Hs). injection Hs as <- <- <-.
    destruct (partialCase_sim _ _ _ _ _ _ _ _ _ _ _ _ _ _ HR ltac:(lia) Hp)
      as (lS1 & pS1 & HpS & HR1 & K1 & K2).
    rewrite HpS, bind_Ok. eexists _, _, _. split; [reflexivity|].
    split; [exact HR1|]. split; assumption.
  - (* PARTIAL_ATTRIBUTE_ID *)
    apply bind_Ok_inv in Hs as ([l1 p1] & Hp & Hs). injection Hs as <- <- <-.
    destruct (partialCase_sim _ _ _ _ _ _ _ _ _ _ _ _ _ _ HR ltac:(lia) Hp)
      as (lS1 & pS1 & HpS & HR1 & K1 & K2).
    rewrite HpS, bind_Ok. eexists _, _, _. split; [reflexivity|].
    split; [exact HR1|]. split; assumption.
  - (* PARTIAL_ELEMENT_ID *)
    apply bind_Ok_inv in Hs as ([l1 p1] & Hp & Hs). injection Hs as <- <- <-.
    destruct (partialCase_sim _ _ _ _ _ _ _ _ _ _ _ _ _ _ HR ltac:(lia) Hp)
      as (lS1 & pS1 & HpS & HR1 & K1 & K2).
    rewrite HpS, bind_Ok. eexists _, _, _. split; [reflexivity|].
    split; [exact HR1|]. split; assumption.
  - injection Hs as <- <- <-.
    eexists _, _, _. split; [reflexivity|]. split; [|split; reflexivity].
    exact HR.
Qed.

End Simulation.

(** * A document written in two parts *)

Section SplitWrite.
Context {E : Env}.

Lemma parseCodeBuffer_writeBack (pending : bool) (codeBuffer : list Z)
    (p : Parser) (w : World) :
  parseCodeBuffer pending codeBuffer p w
  = '(l, p, w) ← codeLoop (Z.to_nat (cb_get codeBuffer 0)) codeBuffer 0
                   (enterLocals p w) p w;
    Ok (writeBack pending l p w).
Proof.
  unfold parseCodeBuffer, writeBack. unfold mbind, Result_bind.
  destruct (codeLoop _ _ _ _ p w) as [[[l1 p1] w1]|]; [|reflexivity].
  destruct (negb pending && (0 <=? Loc.partStart l1)); reflexivity.
Qed.

(** A safe step leaves the start of the open run inside the input. *)
Lemma step_partStart lo hi kind code (l l' : Loc.t) (p p' : Parser) (w w' : World) :
  safeStep lo hi kind code l = true ->
  step kind code l p w = Ok (l', p', w') ->
  -1 <= hi -> Loc.partStart l <= hi -> Loc.partStart l' <= hi.
Proof.
  intros Hsafe Hs Hhi Hl. unfold safeStep in Hsafe.
  destruct kind; cbn [step isOffsetKind isStartKind isEndKind isPartialKind
                      insideTag opensTag orb andb] in Hs, Hsafe;
    unfold pushToken in Hs; safe_split; inv_ok;
    repeat match goal with
    | H : partialCase _ _ _ _ = Ok _ |- _ =>
        apply partialCase_shape in H; destruct H as (_ & _ & _ & _ & H)
    end;
    cbn in *; lia.
Qed.

(** Safe op-codes do not make the decoder throw. *)
Lemma safeLoop_codeLoop lo hi n codeBuffer codeNum (l : Loc.t) (p : Parser)
    (w : World) :
  safeLoop lo hi n codeBuffer codeNum l p w = true ->
  exists l' p' w', codeLoop n codeBuffer codeNum l p w = Ok (l', p', w').
Proof.
  revert codeNum l p w. induction n as [|n IH]; intros codeNum l p w Hsafe.
  - exists l, p, w. reflexivity.
  - cbn [safeLoop] in Hsafe. apply andb_true_iff in Hsafe as [_ Hrest].
    cbn [codeLoop].
    destruct (step _ _ l p w) as [[[l1 p1] w1]|]; [|discriminate].
    rewrite bind_Ok. apply IH. exact Hrest.
Qed.

(** The loop of [parseCodeBuffer] on the two decoders. *)
Lemma codeLoop_sim (doc pre : bytes) (d : Z) (F : list Value) (n : nat)
    (bW bS : list Z) (codeNum : Z)
    (lW lS lW' : Loc.t) (pW pS pW' : Parser) (wW wS wW' : World) :
  Rel doc pre d F lW pW wW lS pS wS ->
  Inv lW pW wW ->
  (forall i, codeNum < i <= codeNum + Z.of_nat n ->
     codeRel (Z.of_nat (length pre)) (cb_get bW i) (cb_get bS i) = true) ->
  safeLoop (Z.of_nat (length pre))
    (Z.of_nat (length pre) + Z.of_nat (length (chunk pS)))
    n bW codeNum lW pW wW = true ->
  codeLoop n bW codeNum lW pW wW = Ok (lW', pW', wW') ->
  exists lS' pS' wS',
    codeLoop n bS codeNum lS pS wS = Ok (lS', pS', wS')
    /\ Rel doc pre d F lW' pW' wW' lS' pS' wS'
    /\ Inv lW' pW' wW'
    /\ chunk pS' = chunk pS
    /\ tokenChunk pS' = tokenChunk pS
    /\ (Loc.partStart lW
        <= Z.of_nat (length pre) + Z.of_nat (length (chunk pS)) ->
        Loc.partStart lW'
        <= Z.of_nat (length pre) + Z.of_nat (length (chunk pS))).
Proof.
  revert codeNum lW lS pW pS wW wS.
  induction n as [|n IH]; intros codeNum lW lS pW pS wW wS HR HI Hcodes Hsafe HW.
  - cbn in HW. injection HW as <- <- <-.
    exists lS, pS, wS.
    split; [reflexivity|]. split; [exact HR|]. split; [exact HI|].
    split; [reflexivity|]. split; [reflexivity|]. intros H; exact H.
  - cbn [safeLoop] in Hsafe. apply andb_true_iff in Hsafe as [Hstep Hrest].
    cbn [codeLoop] in HW |- *.
    apply bind_Ok_inv in HW as ([[lW1 pW1] wW1] & Hs & HW).
    rewrite Hs in Hrest.
    specialize (Hcodes (codeNum + 1) ltac:(lia)) as Hc.
    unfold codeRel in Hc. apply andb_true_iff in Hc as [Hkind Hpay].
    apply bool_decide_eq_true_1 in Hkind. apply Z.eqb_eq in Hpay.
    destruct (step_sim doc pre d F _ _ lW lS lW1 pW pS pW1 wW wS wW1 HR HI Hstep Hs)
      as (lS1 & pS1 & wS1 & HsS & HR1 & Hch & Htc).
    pose proof (step_inv _ _ _ _ _ _ _ _ _ _ HI Hstep Hs) as HI1.
    rewrite Hkind.
    replace (js_sar (cb_get bS (codeNum + 1)) 5)
      with (js_sar (cb_get bW (codeNum + 1)) 5
            - (if isOffsetKind (codeType (js_and (cb_get bW (codeNum + 1)) 31))
               then Z.of_nat (length pre) else 0)) by lia.
    rewrite HsS, bind_Ok.
    rewrite <- Hch in Hrest.
    destruct (IH (codeNum + 1) lW1 lS1 pW1 pS1 wW1 wS1 HR1 HI1
                ltac:(intros i Hi; apply Hcodes; lia) Hrest HW)
      as (lS' & pS' & wS' & HlS & HR' & HI' & Hch' & Htc' & Hps').
    exists lS', pS', wS'.
    split; [exact HlS|]. split; [exact HR'|]. split; [exact HI'|].
    split; [congruence|]. split; [congruence|].
    intros Hps. rewrite <- Hch. apply Hps'. rewrite Hch.
    eapply step_partStart; [exact Hstep|exact Hs|lia|exact Hps].
Qed.

End SplitWrite.

Section SplitWriteB.
Context {E : Env}.

Lemma bufRel_spec (delta : Z) (bW bS : list Z) :
  bufRel delta bW bS = true ->
  cb_get bS 0 = cb_get bW 0
  /\ forall i, 0 < i <= Z.of_nat (Z.to_nat (cb_get bW 0)) ->
       codeRel delta (cb_get bW i) (cb_get bS i) = true.
Proof.
  unfold bufRel. intros H. apply andb_true_iff in H as [Hc Hall].
  apply Z.eqb_eq in Hc. split; [symmetry; exact Hc|].
  intros i Hi. rewrite forallb_forall in Hall.
  specialize (Hall (Z.to_nat i)). rewrite Z2Nat.id in Hall by lia.
  apply Hall. apply in_seq. lia.
Qed.

Lemma codeRel_refl (c : Z) : codeRel 0 c c = true.
Proof.
  unfold codeRel. apply andb_true_iff. split.
  - apply bool_decide_eq_true_2. reflexivity.
  - apply Z.eqb_eq. destruct (isOffsetKind _); lia.
Qed.

Lemma elems_length (b : JsArray Value) :
  length (elems b) = Z.to_nat (arr_length b).
Proof. unfold elems, arr_elements. rewrite !length_map, length_seq. reflexivity. Qed.

Lemma nth_map_seq {A} (h : nat -> A) (n i : nat) (d : A) :
  (i < n)%nat -> nth i (map h (seq 0 n)) d = h i.
Proof.
  intros Hi.
  rewrite (nth_indep _ d (h 0%nat)) by (rewrite length_map, length_seq; exact Hi).
  rewrite map_nth, seq_nth by exact Hi. reflexivity.
Qed.

Lemma elems_nth (b : JsArray Value) (i : nat) :
  (i < Z.to_nat (arr_length b))%nat ->
  nth i (elems b) VUndefined = default VUndefined (arr_get b (Z.of_nat i)).
Proof.
  intros Hi. unfold elems, arr_elements. rewrite map_map.
  rewrite nth_map_seq by exact Hi. reflexivity.
Qed.

(** The tokens of the whole buffer are those handed over, then those of
    the buffer in use. *)
Lemma BufRel_elems (d : Z) (F : list Value) (bW bS : JsArray Value) :
  BufRel d F bW bS -> elems bW = F ++ elems bS.
Proof.
  intros (B1 & B2 & B3 & B4 & B5).
  apply (nth_ext _ _ VUndefined VUndefined).
  - rewrite length_app, !elems_length. lia.
  - intros i Hi. rewrite elems_length in Hi. rewrite elems_nth by exact Hi.
    destruct (Nat.lt_ge_cases i (length F)) as [Hlt|Hge].
    + rewrite app_nth1 by exact Hlt. apply B5. exact Hlt.
    + rewrite app_nth2 by exact Hge. rewrite elems_nth by lia.
      rewrite <- B4 by lia. do 2 f_equal. lia.
Qed.

Lemma BufRel_refl (b : JsArray Value) : 0 <= arr_length b -> BufRel 0 [] b b.
Proof.
  intros Hb. unfold BufRel. split; [reflexivity|]. split; [lia|].
  split; [exact Hb|]. split.
  - intros j _. rewrite Z.add_0_r. reflexivity.
  - intros i Hi. cbn in Hi. lia.
Qed.

Lemma tokenBuffer_set_chunkLength (p q : Parser) (w : World) (n : Z) :
  tokenBuffer p (set_chunkLength q w n) = tokenBuffer p w.
Proof.
  unfold tokenBuffer, set_chunkLength, TokenChunk.get, TokenChunk.put. cbn.
  destruct (decide (tokenChunk p = tokenChunk q)) as [->|Hne].
  - rewrite lookup_insert_eq. reflexivity.
  - rewrite lookup_insert_ne by congruence. reflexivity.
Qed.

Lemma chunkLength_set_chunkLength (p : Parser) (w : World) (n : Z) :
  TokenChunk.length (TokenChunk.get (chunks (set_chunkLength p w n)) (tokenChunk p)) = n.
Proof.
  unfold set_chunkLength. cbn. rewrite get_put_same. reflexivity.
Qed.

(** The two decoders at the start of the document. *)
Lemma Rel_initial (doc : bytes) (k : Z) (p : Parser) (w : World)
    (logW logS : list NativeCall) :
  0 <= k <= Z.of_nat (length doc) ->
  idle p w ->
  Rel doc [] 0 []
    (enterLocals (set_nativeLog logW (set_chunk doc p)) w)
    (set_nativeLog logW (set_chunk doc p)) w
    (enterLocals (set_nativeLog logS (set_chunk (take (Z.to_nat k) doc) p)) w)
    (set_nativeLog logS (set_chunk (take (Z.to_nat k) doc) p)) w
  /\ Inv (enterLocals (set_nativeLog logW (set_chunk doc p)) w)
       (set_nativeLog logW (set_chunk doc p)) w.
Proof.
  intros Hk (I1 & I2 & I3 & I4 & I5 & I6 & I7 & I8 & I9).
  split.
  - unfold Rel, enterLocals. cbn.
    do 19 (split; [reflexivity|]).
    split; [lia|]. split; [rewrite I7; lia|].
    split; [left; split; assumption|].
    split.
    + unfold tokenBuffer in I8 |- *. cbn. apply BufRel_refl. exact I8.
    + unfold SliceRel. cbn. split; [reflexivity|].
      split; [exists (drop (Z.to_nat k) doc); rewrite take_drop; reflexivity|].
      split; [intros _; exact I4|].
      left. rewrite I2. repeat split.
  - unfold Inv, enterLocals. cbn.
    unfold tokenBuffer in I7, I8 |- *. cbn.
    split; [rewrite I7; lia|]. split; [rewrite I7; lia|].
    split; [left; exact I5|]. split; [intros _; exact I6|].
    split; [lia|]. intros pos Hpos. lia.
Qed.

(** One pass of the decoder over related code buffers. *)
Lemma pass_sim (doc pre : bytes) (d : Z) (F : list Value) (bW bS : list Z)
    (pW pS : Parser) (wW wS : World) :
  Rel doc pre d F (enterLocals pW wW) pW wW (enterLocals pS wS) pS wS ->
  Inv (enterLocals pW wW) pW wW ->
  bounded (tokenBuffer pW wW) ->
  partStart pW <= Z.of_nat (length pre) + Z.of_nat (length (chunk pS)) ->
  bufRel (Z.of_nat (length pre)) bW bS = true ->
  safePass (Z.of_nat (length pre))
    (Z.of_nat (length pre) + Z.of_nat (length (chunk pS))) bW pW wW = true ->
  exists lW pW1 wW1 lS pS1 wS1,
    codeLoop (Z.to_nat (cb_get bW 0)) bW 0 (enterLocals pW wW) pW wW
    = Ok (lW, pW1, wW1)
    /\ codeLoop (Z.to_nat (cb_get bS 0)) bS 0 (enterLocals pS wS) pS wS
       = Ok (lS, pS1, wS1)
    /\ Rel doc pre d F lW pW1 wW1 lS pS1 wS1
    /\ Inv lW pW1 wW1
    /\ bounded (tokenBuffer pW1 wW1)
    /\ pframe pW pW1 /\ pframe pS pS1
    /\ Loc.partStart lW <= Z.of_nat (length pre) + Z.of_nat (length (chunk pS)).
Proof.
  intros HR HI Hb Hps Hbuf Hsafe.
  apply bufRel_spec in Hbuf as [Hn Hcodes].
  unfold safePass in Hsafe.
  destruct (safeLoop_codeLoop _ _ _ _ _ _ _ _ Hsafe) as (lW & pW1 & wW1 & HW).
  destruct (codeLoop_sim doc pre d F _ bW bS 0 _ _ lW pW pS pW1 wW wS wW1
              HR HI Hcodes Hsafe HW)
    as (lS & pS1 & wS1 & HS & HR1 & HI1 & Hch & Htc & Hps1).
  exists lW, pW1, wW1, lS, pS1, wS1.
  split; [exact HW|]. split; [rewrite Hn; exact HS|].
  split; [exact HR1|]. split; [exact HI1|].
  split; [exact (codeLoop_bounded _ _ _ _ _ _ _ _ _ HW Hb)|].
  split; [exact (proj1 (frame_codeLoop _ _ _ _ _ _ _ _ _ HW))|].
  split; [exact (proj1 (frame_codeLoop _ _ _ _ _ _ _ _ _ HS))|].
  apply Hps1. exact Hps.
Qed.

Lemma decodePass_single (b : bytes) (buf : list Z) (st row col : Z)
    (p : Parser) (w : World) :
  decodePass (InArray b) (mkRun [] buf st row col) p w
  = parseCodeBuffer false buf
      (set_nativeLog (nativeLog p ++ [NativeParse b]) (set_chunk b p)) w.
Proof. reflexivity. Qed.

Lemma decodePass_whole (b : bytes) (buf1 buf2 : list Z) (p : Parser) (w : World) :
  decodePass (InArray b) (wholeRun buf1 buf2) p w
  = '(p, w) ← parseCodeBuffer true buf1
                (set_nativeLog (nativeLog p ++ [NativeParse b]) (set_chunk b p)) w;
    parseCodeBuffer false buf2 p w.
Proof.
  unfold decodePass, wholeRun. cbn [pendingBuffers finalBuffer pendingCallbacks inputBytes].
  cbn [chunk set_chunk nativeLog].
  destruct (parseCodeBuffer true buf1 _ w) as [[p1 w1]|]; reflexivity.
Qed.

(** What a write that the scanner accepts hands to the stream. *)
Lemma transform_tail data run (p p1 : Parser) (w w1 : World) :
  hasError p = false -> status run = ErrorType_OK ->
  decodePass data run p w = Ok (p1, w1) ->
  exists c o w',
    _transform data run p w = Ok (set_tokenChunk c (set_output o p1), w')
    /\ config w' = config w1 /\ nextObj w' = nextObj w1
    /\ ((elementStart p1 < 0
         /\ emittedTokens (set_output o p1)
            = emittedTokens p1 ++ elems (tokenBuffer p1 w1)
         /\ tokenBuffer (set_tokenChunk c p1) w' = arr_empty
         /\ TokenChunk.length (TokenChunk.get (chunks w') c) = 0)
        \/ (0 <= elementStart p1
            /\ emittedTokens (set_output o p1) = emittedTokens p1
            /\ c = tokenChunk p1 /\ chunks w' = chunks w1))
    /\ tokensSoFar (set_tokenChunk c (set_output o p1)) w'
       = emittedTokens p1 ++ elems (tokenBuffer p1 w1).
Proof.
  intros He Hst Hd.
  rewrite _transform_unfold, He, Hd, bind_Ok. cbv beta iota.
  rewrite Hst, bool_decide_eq_true_2 by reflexivity. cbn [negb].
  destruct (elementStart p1 <? 0) eqn:Hes.
  - apply Z.ltb_lt in Hes.
    set (w2 := if namespacesChanged p1
               then set_chunkNamespaceList p1 w1 (namespaceList p1) else w1).
    assert (Hw2 : config w2 = config w1 /\ nextObj w2 = nextObj w1
                  /\ TokenChunk.buffer (TokenChunk.get (chunks w2) (tokenChunk p1))
                     = tokenBuffer p1 w1).
    { unfold w2. destruct (namespacesChanged p1); [|repeat split].
      unfold set_chunkNamespaceList, tokenBuffer. cbn. rewrite get_put_same.
      repeat split. }
    destruct Hw2 as (Hc2 & Hn2 & Hb2).
    cbv zeta. fold w2.
    destruct (TokenChunk.allocate None (chunks w2)) as [c store] eqn:Ha.
    exists c, (output p1 ++ [Flush (Some (tokenChunk p1,
                                     TokenChunk.get (chunks w2) (tokenChunk p1)))]),
           (set_chunks store w2).
    split; [reflexivity|]. split; [exact Hc2|]. split; [exact Hn2|].
    assert (Hget : TokenChunk.get store c = TokenChunk.mk 0 arr_empty None None).
    { unfold TokenChunk.allocate in Ha.
      destruct (TokenChunk.first (chunks w2)); injection Ha as <- <-;
        rewrite get_put_same; reflexivity. }
    assert (Hem : emittedTokens
                    (set_output
                       (output p1 ++
                        [Flush (Some (tokenChunk p1,
                                      TokenChunk.get (chunks w2) (tokenChunk p1)))]) p1)
                  = emittedTokens p1 ++ elems (tokenBuffer p1 w1)).
    { unfold emittedTokens. cbn [output set_output].
      rewrite map_app, concat_app. cbn [map concat]. rewrite app_nil_r.
      unfold chunkTokens. rewrite Hb2. reflexivity. }
    split.
    + left. split; [exact Hes|]. split; [exact Hem|]. split.
      * unfold tokenBuffer. cbn. rewrite Hget. reflexivity.
      * cbn. rewrite Hget. reflexivity.
    + unfold tokensSoFar.
      change (emittedTokens (set_tokenChunk c ?q)) with (emittedTokens q).
      rewrite Hem. cbn. rewrite Hget. cbn. rewrite app_nil_r. reflexivity.
  - apply Z.ltb_ge in Hes.
    exists (tokenChunk p1), (output p1 ++ [Flush None]), w1.
    split; [destruct p1; reflexivity|]. split; [reflexivity|]. split; [reflexivity|].
    split.
    + right. split; [exact Hes|]. split; [apply emittedTokens_flush_null|].
      split; reflexivity.
    + unfold tokensSoFar.
      change (emittedTokens (set_tokenChunk (tokenChunk p1) ?q)) with (emittedTokens q).
      rewrite emittedTokens_flush_null. reflexivity.
Qed.

Lemma BufRel_flushed (b : JsArray Value) :
  bounded b -> 0 <= arr_length b ->
  BufRel (Z.of_nat (length (elems b))) (elems b) b arr_empty.
Proof.
  intros Hb Hlen. unfold BufRel. rewrite elems_length.
  split; [reflexivity|]. split; [cbn; lia|]. split; [cbn; lia|]. split.
  - intros j Hj. rewrite Hb by lia. reflexivity.
  - intros i Hi. rewrite elems_nth by exact Hi. reflexivity.
Qed.

(** The saved parts when the first write ends: the decoder that got the
    first part alone saves the open run, the other one goes on. *)
Lemma SliceRel_hand_over (doc : bytes) (k sW sS : Z) (pW pS qW qS : Parser) :
  0 <= k <= Z.of_nat (length doc) ->
  SliceRel doc [] sW pW sS pS ->
  sW <= k ->
  chunk pS = take (Z.to_nat k) doc ->
  chunk qW = chunk pW -> partList qW = partList pW ->
  partListTotalByteLen qW = partListTotalByteLen pW ->
  chunk qS = drop (Z.to_nat k) doc ->
  partList qS = partList (if 0 <=? sS then storeSlice sS None pS else pS) ->
  partListTotalByteLen qS
  = partListTotalByteLen (if 0 <=? sS then storeSlice sS None pS else pS) ->
  SliceRel doc (take (Z.to_nat k) doc) sW qW (if 0 <=? sS then 0 else sS) qS.
Proof.
  intros Hk (S1 & S2 & S3 & S4) Hs Hch HcW HpW HtW HcS HpS HtS.
  assert (Hlen : Z.of_nat (length (take (Z.to_nat k) doc)) = k)
    by (rewrite length_take; lia).
  unfold SliceRel. rewrite HcW, HpW, HtW, HcS.
  split; [exact S1|].
  split; [exists []; rewrite app_nil_r, take_drop; reflexivity|].
  split; [exact S3|].
  rewrite Hlen.
  assert (Hcases : (sW < 0 /\ sS = sW /\ partList pS = partList pW
                    /\ partListTotalByteLen pS = partListTotalByteLen pW)
                   \/ (0 <= sW /\ sS = sW
                       /\ concat (default [] (partList pS))
                          = concat (default [] (partList pW))
                       /\ partListTotalByteLen pS = partListTotalByteLen pW)).
  { destruct S4 as [C|[(A1 & A2 & A3 & A4)|(A1 & A2 & (parts & A3 & A5) & A4)]].
    - left. exact C.
    - right. cbn in A1, A2. split; [lia|]. split; [lia|].
      split; [rewrite A3; reflexivity|exact A4].
    - right. cbn in A1, A2. split; [lia|]. split; [lia|].
      split.
      + rewrite A3. cbn. rewrite A5, drop_nil, app_nil_r. reflexivity.
      + rewrite A4. destruct (partListTotalByteLen pW); cbn; [f_equal; lia|reflexivity]. }
  destruct Hcases as [(A1 & A2 & A3 & A4)|(A1 & A2 & A3 & A4)].
  - left. subst sS.
    destruct (0 <=? sW) eqn:Hz; [apply Z.leb_le in Hz; lia|].
    rewrite HpS, HtS. repeat split; assumption.
  - right. right. subst sS.
    destruct (0 <=? sW) eqn:Hz; [|apply Z.leb_gt in Hz; lia].
    split; [lia|]. split; [reflexivity|].
    rewrite HpS, HtS, storeSlice_withParts.
    rewrite bool_decide_eq_false_2 by discriminate.
    unfold withParts. cbn. rewrite Hch, Hlen. split.
    + eexists. split; [reflexivity|].
      rewrite concat_app, A3. cbn [concat]. rewrite app_nil_r.
      rewrite js_slice_tail by (rewrite Hlen; lia). reflexivity.
    + rewrite A4. destruct (partListTotalByteLen pW); cbn; [f_equal; lia|reflexivity].
Qed.

(** What the end of [parseCodeBuffer] writes to the fields. *)
Lemma writeBack_fields (pending : bool) (l : Loc.t) (p : Parser) (w : World) :
  let store := negb pending && (0 <=? Loc.partStart l) in
  let p0 := if store then storeSlice (Loc.partStart l) None p else p in
  let r := writeBack pending l p w in
  (partialLen (fst r) = Loc.partialLen l
   /\ latestElement (fst r) = Loc.latestElement l
   /\ latestPrefix (fst r) = Loc.latestPrefix l
   /\ latestNamespace (fst r) = Loc.latestNamespace l
   /\ unknownCount (fst r) = Loc.unknownCount l
   /\ elementStart (fst r) = Loc.elementStart l
   /\ partStart (fst r) = (if store then 0 else Loc.partStart l))
  /\ (namespaceList (fst r) = namespaceList p
      /\ namespacesChanged (fst r) = namespacesChanged p
      /\ prefixBuffer (fst r) = prefixBuffer p
      /\ namespaceBuffer (fst r) = namespaceBuffer p
      /\ unknownElementTbl (fst r) = unknownElementTbl p
      /\ unknownAttributeTbl (fst r) = unknownAttributeTbl p
      /\ unknownOffsetList (fst r) = unknownOffsetList p)
  /\ (chunk (fst r) = chunk p
      /\ partList (fst r) = partList p0
      /\ partListTotalByteLen (fst r) = partListTotalByteLen p0
      /\ tokenChunk (fst r) = tokenChunk p
      /\ output (fst r) = output p
      /\ hasError (fst r) = hasError p)
  /\ (config (snd r) = updateNamespaces (config w)
      /\ nextObj (snd r) = nextObj w
      /\ tokenBuffer (fst r) (snd r) = tokenBuffer p w
      /\ TokenChunk.length (TokenChunk.get (chunks (snd r)) (tokenChunk (fst r)))
         = Loc.tokenNum l + 1).
Proof.
  cbv zeta. unfold writeBack.
  destruct (negb pending && (0 <=? Loc.partStart l)).
  - rewrite storeSlice_withParts, bool_decide_eq_false_2 by discriminate.
    unfold withParts. cbn [fst snd].
    split; [cbn; repeat split|]. split; [cbn; repeat split|].
    split; [cbn; repeat split|].
    split; [reflexivity|]. split; [reflexivity|]. split.
    + rewrite tokenBuffer_set_chunkLength. reflexivity.
    + unfold set_chunkLength. cbn. rewrite get_put_same. reflexivity.
  - cbn [fst snd].
    split; [cbn; repeat split|]. split; [cbn; repeat split|].
    split; [cbn; repeat split|].
    split; [reflexivity|]. split; [reflexivity|]. split.
    + rewrite tokenBuffer_set_chunkLength. reflexivity.
    + unfold set_chunkLength. cbn. rewrite get_put_same. reflexivity.
Qed.

(** The two decoders between the two writes. *)
Lemma Rel_boundary (doc : bytes) (k : Z) (lW lS : Loc.t) (pW pS : Parser)
    (wW wS wS' : World) (c : positive) (o : list StreamEvent)
    (log : list NativeCall) (F : list Value) :
  0 <= k <= Z.of_nat (length doc) ->
  Rel doc [] 0 [] lW pW wW lS pS wS ->
  Inv lW pW wW ->
  bounded (tokenBuffer pW wW) ->
  Loc.partStart lW <= k ->
  chunk pS = take (Z.to_nat k) doc ->
  config wS' = config (snd (writeBack false lS pS wS)) ->
  nextObj wS' = nextObj (snd (writeBack false lS pS wS)) ->
  (elementStart (fst (writeBack false lS pS wS)) < 0
   /\ F = elems (tokenBuffer (fst (writeBack false lS pS wS))
                   (snd (writeBack false lS pS wS)))
   /\ tokenBuffer (set_tokenChunk c (fst (writeBack false lS pS wS))) wS' = arr_empty
   /\ TokenChunk.length (TokenChunk.get (chunks wS') c) = 0)
  \/ (0 <= elementStart (fst (writeBack false lS pS wS))
      /\ F = []
      /\ c = tokenChunk (fst (writeBack false lS pS wS))
      /\ chunks wS' = chunks (snd (writeBack false lS pS wS))) ->
  Rel doc (take (Z.to_nat k) doc) (Z.of_nat (length F)) F
    (enterLocals (fst (writeBack true lW pW wW)) (snd (writeBack true lW pW wW)))
    (fst (writeBack true lW pW wW)) (snd (writeBack true lW pW wW))
    (enterLocals
       (set_nativeLog log
          (set_chunk (drop (Z.to_nat k) doc)
             (set_tokenChunk c (set_output o (fst (writeBack false lS pS wS))))))
       wS')
    (set_nativeLog log
       (set_chunk (drop (Z.to_nat k) doc)
          (set_tokenChunk c (set_output o (fst (writeBack false lS pS wS))))))
    wS'
  /\ Inv (enterLocals (fst (writeBack true lW pW wW)) (snd (writeBack true lW pW wW)))
       (fst (writeBack true lW pW wW)) (snd (writeBack true lW pW wW))
  /\ bounded (tokenBuffer (fst (writeBack true lW pW wW)) (snd (writeBack true lW pW wW)))
  /\ partStart (fst (writeBack true lW pW wW)) <= k.
Proof.
  intros Hk HR HI Hb Hps Hch Hcfg Hnext Hcase.
  rel_destruct HR.
  destruct HI as (I1 & I2 & I3 & I4 & I5 & I6).
  pose proof (BufRel_elems _ _ _ _ RB) as Helems.
  pose proof RB as (B1 & B2 & B3 & B4 & B5).
  pose proof (writeBack_fields true lW pW wW) as HfW.
  pose proof (writeBack_fields false lS pS wS) as HfS.
  cbv zeta in HfW, HfS. cbn [negb andb] in HfW, HfS.
  set (rW := writeBack true lW pW wW) in *.
  set (rS := writeBack false lS pS wS) in *.
  destruct HfW as ((W1 & W2 & W3 & W4 & W5 & W6 & W7)
                   & (W8 & W9 & W10 & W11 & W12 & W13 & W14)
                   & (W15 & W16 & W17 & W18 & W19 & W20)
                   & (W21 & W22 & W23 & W24)).
  destruct HfS as ((T1 & T2 & T3 & T4 & T5 & T6 & T7)
                   & (T8 & T9 & T10 & T11 & T12 & T13 & T14)
                   & (T15 & T16 & T17 & T18 & T19 & T20)
                   & (T21 & T22 & T23 & T24)).
  clearbody rW rS.
  assert (HlenF : Z.of_nat (length F)
                  = if elementStart (fst rS) <? 0 then Loc.tokenNum lW + 1 else 0).
  { destruct Hcase as [(C1 & C2 & _)|(C1 & C2 & _)].
    - rewrite (proj2 (Z.ltb_lt _ _) C1). subst F.
      rewrite elems_length, T23. lia.
    - rewrite (proj2 (Z.ltb_ge _ _) C1). subst F. reflexivity. }
  split; [|split; [|split]].
  - unfold Rel, enterLocals. cbn.
    rewrite Hcfg, Hnext, T21, T22, W21, W22, RW1, RW2.
    rewrite T1, T2, T3, T4, T5, T8, T9, T10, T11, T12, T13, T14.
    rewrite W1, W2, W3, W4, W5, W8, W9, W10, W11, W12, W13, W14.
    do 5 (split; [reflexivity|]).
    do 5 (split; [assumption|]).
    do 7 (split; [assumption|]).
    do 2 (split; [reflexivity|]).
    rewrite W24, W6, T6, W7, T7. rewrite T6 in HlenF.
    assert (HS : SliceRel doc (take (Z.to_nat k) doc) (Loc.partStart lW) (fst rW)
                   (if 0 <=? Loc.partStart lS then 0 else Loc.partStart lS)
                   (set_nativeLog log
                      (set_chunk (drop (Z.to_nat k) doc)
                         (set_tokenChunk c (set_output o (fst rS)))))).
    { apply (SliceRel_hand_over doc k _ _ pW pS); try assumption; reflexivity. }
    destruct Hcase as [(C1 & C2 & C3 & C4)|(C1 & C2 & C3 & C4)].
    + rewrite T6 in C1. rewrite (proj2 (Z.ltb_lt _ _) C1) in HlenF.
      rewrite C4, HlenF.
      split; [lia|]. split; [lia|].
      split; [left; destruct RE as [RE|RE]; [exact RE|lia]|].
      split; [|exact HS].
      rewrite (tokenBuffer_same_chunk (set_tokenChunk c (fst rS))
                 (set_nativeLog log _) wS') by reflexivity.
      rewrite C3, W23, <- HlenF, C2, T23.
      change (elems (tokenBuffer pS wS)) with ([] ++ elems (tokenBuffer pS wS)).
      rewrite <- Helems. apply BufRel_flushed; [exact Hb|lia].
    + rewrite T6 in C1. rewrite (proj2 (Z.ltb_ge _ _) C1) in HlenF.
      rewrite HlenF, C3, C4, T24.
      split; [lia|]. split; [lia|].
      split; [right; destruct RE as [RE|RE]; lia|].
      split; [|exact HS].
      rewrite (tokenBuffer_ext (fst rS) (set_nativeLog log _) (snd rS) wS')
        by (try exact C4; reflexivity).
      rewrite W23, T23, C2. exact RB.
  - unfold Inv, enterLocals. cbn. rewrite W23, W24, W5, W6, W14.
    split; [lia|]. split; [lia|]. split; [replace (Loc.tokenNum lW + 1 - 1) with (Loc.tokenNum lW) by lia; exact I3|].
    split; [exact I4|]. split; [exact I5|].
    replace (Loc.tokenNum lW + 1 - 1) with (Loc.tokenNum lW) by lia. exact I6.
  - rewrite W23. exact Hb.
  - rewrite W7. exact Hps.
Qed.

Lemma emittedTokens_output (q p : Parser) :
  output q = output p -> emittedTokens q = emittedTokens p.
Proof. unfold emittedTokens. intros ->. reflexivity. Qed.

Lemma bufRel_refl (b : list Z) : bufRel 0 b b = true.
Proof.
  unfold bufRel. apply andb_true_iff. split; [apply Z.eqb_refl|].
  apply forallb_forall. intros i _. apply codeRel_refl.
Qed.

Lemma parseCodeBuffer_loop (pending : bool) (codeBuffer : list Z)
    (l : Loc.t) (p p1 : Parser) (w w1 : World) :
  codeLoop (Z.to_nat (cb_get codeBuffer 0)) codeBuffer 0 (enterLocals p w) p w
  = Ok (l, p1, w1) ->
  parseCodeBuffer pending codeBuffer p w
  = Ok (fst (writeBack pending l p1 w1), snd (writeBack pending l p1 w1)).
Proof.
  intros Hl. rewrite parseCodeBuffer_writeBack, Hl, bind_Ok.
  destruct (writeBack pending l p1 w1); reflexivity.
Qed.

(** X7. A document written in two parts.  The parser is between two
    documents.  In one run the document [doc] is written at once: the
    scanner hands over the op-codes of its first [k] bytes in a code buffer
    [buf1], through the callback of [setCodeBuffer], and returns with the
    op-codes of the rest in [buf2W].  In the other run the first [k] bytes
    and the rest are written one after the other: the scanner reports
    [buf1] for the first write, and for the second write the op-codes
    [buf2S], which are those of [buf2W] with every offset counted from the
    start of the second write.  The op-codes are those of a scanner that
    keeps to its protocol ([safeWhole]): offsets lie in the bytes they
    were reported for, a run of text is opened before it is closed, names
    inside a start tag follow its element.  Then none of the three calls of
    [_transform] throws, and the tokens the parser has produced after the
    two writes, handed to the stream or still in its chunk, are those it
    has produced after the single write, in the same order.  This holds
    wherever the cut falls: inside a text, an attribute value, a comment or
    an undeclared name the bytes before the cut are saved by [storeSlice]
    and decoded together with the rest; between two elements the first
    write hands its chunk to the stream and the second one fills a new
    chunk. *)
Theorem X7_document_written_in_two_parts (doc : bytes) (k : Z)
    (buf1 buf2W buf2S : list Z) (p : Parser) (w : World) :
  0 <= k <= Z.of_nat (length doc) ->
  idle p w ->
  bufRel k buf2W buf2S = true ->
  safeWhole doc k buf1 buf2W p w = true ->
  exists pW wW pS1 wS1 pS wS,
    _transform (InArray doc) (wholeRun buf1 buf2W) p w = Ok (pW, wW)
    /\ _transform (InArray (take (Z.to_nat k) doc)) (firstRun buf1) p w
       = Ok (pS1, wS1)
    /\ _transform (InArray (drop (Z.to_nat k) doc)) (secondRun buf2S) pS1 wS1
       = Ok (pS, wS)
    /\ tokensSoFar pS wS = tokensSoFar pW wW.
Proof.
  intros Hk Hidle Hbuf Hsafe.
  pose proof Hidle as (J1 & J2 & J3 & J4 & J5 & J6 & J7 & J8 & J9).
  assert (Hlt : Z.of_nat (length (take (Z.to_nat k) doc)) = k)
    by (rewrite length_take; lia).
  assert (Hld : Z.of_nat (length (drop (Z.to_nat k) doc)) = Z.of_nat (length doc) - k)
    by (rewrite length_drop; lia).
  unfold safeWhole in Hsafe. cbv zeta in Hsafe.
  apply andb_true_iff in Hsafe as [Hs1 Hs2].
  change (nativeLog (set_chunk doc p)) with (nativeLog p) in Hs1, Hs2.
  change (chunk (set_chunk doc p)) with doc in Hs1, Hs2.
  set (pW0 := set_nativeLog (nativeLog p ++ [NativeParse doc]) (set_chunk doc p)) in *.
  set (pS0 := set_nativeLog (nativeLog p ++ [NativeParse (take (Z.to_nat k) doc)])
                (set_chunk (take (Z.to_nat k) doc) p)).
  destruct (Rel_initial doc k p w (nativeLog p ++ [NativeParse doc])
              (nativeLog p ++ [NativeParse (take (Z.to_nat k) doc)]) Hk Hidle)
    as [HR0 HI0].
  fold pW0 pS0 in HR0, HI0.
  (* the first code buffer *)
  destruct (pass_sim doc [] 0 [] buf1 buf1 pW0 pS0 w w HR0 HI0)
    as (lW1 & pW1 & wW1 & lS1 & pS1 & wS1 & HW1 & HS1 & HR1 & HI1 & Hb1
        & HfW1 & HfS1 & Hps1).
  { exact J9. }
  { change (partStart pW0) with (partStart p). rewrite J2. cbn [length]. lia. }
  { apply bufRel_refl. }
  { cbn [length]. change (chunk pS0) with (take (Z.to_nat k) doc).
    rewrite Hlt. exact Hs1. }
  change (chunk pS0) with (take (Z.to_nat k) doc) in Hps1.
  cbn [length] in Hps1. rewrite Hlt in Hps1.
  pose proof (parseCodeBuffer_loop true _ _ _ _ _ _ HW1) as HpW1.
  pose proof (parseCodeBuffer_loop false _ _ _ _ _ _ HS1) as HpS1.
  rewrite HpW1 in Hs2.
  (* the first write *)
  destruct (transform_tail (InArray (take (Z.to_nat k) doc)) (firstRun buf1)
              p (fst (writeBack false lS1 pS1 wS1)) w
              (snd (writeBack false lS1 pS1 wS1)) J1 eq_refl)
    as (c & o & wS' & Ht1 & Hcfg & Hnext & Hcase & _).
  { unfold firstRun. rewrite decodePass_single. exact HpS1. }
  pose proof (writeBack_fields true lW1 pW1 wW1)
    as (_ & _ & (_ & _ & _ & _ & HoW1 & _) & _).
  pose proof (writeBack_fields false lS1 pS1 wS1)
    as (_ & _ & (_ & _ & _ & _ & HoS1 & HeS1) & _).
  cbv zeta in HoW1, HoS1, HeS1.
  set (rS1 := writeBack false lS1 pS1 wS1) in *.
  set (rW1 := writeBack true lW1 pW1 wW1) in *.
  set (F := if elementStart (fst rS1) <? 0
            then elems (tokenBuffer (fst rS1) (snd rS1)) else []).
  destruct HfW1 as (OW1 & _).
  destruct HfS1 as (OS1 & ES1 & _ & CS1 & _).
  assert (HemS1 : emittedTokens (set_output o (fst rS1)) = emittedTokens p ++ F).
  { assert (H0 : emittedTokens (fst rS1) = emittedTokens p).
    { apply emittedTokens_output. rewrite HoS1, OS1. reflexivity. }
    unfold F. destruct Hcase as [(C1 & C2 & _)|(C1 & C2 & _)].
    - rewrite (proj2 (Z.ltb_lt _ _) C1), C2, H0. reflexivity.
    - rewrite (proj2 (Z.ltb_ge _ _) C1), C2, H0, app_nil_r. reflexivity. }
  assert (Hcase' :
    (elementStart (fst rS1) < 0
     /\ F = elems (tokenBuffer (fst rS1) (snd rS1))
     /\ tokenBuffer (set_tokenChunk c (fst rS1)) wS' = arr_empty
     /\ TokenChunk.length (TokenChunk.get (chunks wS') c) = 0)
    \/ (0 <= elementStart (fst rS1)
        /\ F = []
        /\ c = tokenChunk (fst rS1)
        /\ chunks wS' = chunks (snd rS1))).
  { unfold F. destruct Hcase as [(C1 & C2 & C3 & C4)|(C1 & C2 & C3 & C4)].
    - left. rewrite (proj2 (Z.ltb_lt _ _) C1).
      split; [exact C1|]. split; [reflexivity|]. split; [exact C3|exact C4].
    - right. rewrite (proj2 (Z.ltb_ge _ _) C1).
      split; [exact C1|]. split; [reflexivity|]. split; [exact C3|exact C4]. }
  clearbody F.
  set (pSa := set_tokenChunk c (set_output o (fst rS1))) in *.
  set (logS := nativeLog pSa ++ [NativeParse (drop (Z.to_nat k) doc)]).
  destruct (Rel_boundary doc k lW1 lS1 pW1 pS1 wW1 wS1 wS' c o logS F
              Hk HR1 HI1 Hb1 ltac:(lia) CS1 Hcfg Hnext Hcase')
    as (HR2 & HI2 & Hb2 & Hps2).
  fold rW1 rS1 in HR2, HI2, Hb2, Hps2. fold pSa in HR2.
  set (pS3 := set_nativeLog logS (set_chunk (drop (Z.to_nat k) doc) pSa)) in *.
  (* the second code buffer *)
  destruct (pass_sim doc (take (Z.to_nat k) doc) (Z.of_nat (length F)) F
              buf2W buf2S (fst rW1) pS3 (snd rW1) wS' HR2 HI2 Hb2)
    as (lW2 & pW2 & wW2 & lS2 & pS2 & wS2 & HW2 & HS2 & HR3 & HI3 & Hb3
        & HfW2 & HfS2 & Hps3).
  { change (chunk pS3) with (drop (Z.to_nat k) doc). rewrite Hlt, Hld. lia. }
  { rewrite Hlt. exact Hbuf. }
  { change (chunk pS3) with (drop (Z.to_nat k) doc). rewrite Hlt, Hld.
    replace (k + (Z.of_nat (length doc) - k)) with (Z.of_nat (length doc)) by lia.
    exact Hs2. }
  pose proof (parseCodeBuffer_loop false _ _ _ _ _ _ HW2) as HpW2.
  pose proof (parseCodeBuffer_loop false _ _ _ _ _ _ HS2) as HpS2.
  pose proof (writeBack_fields false lW2 pW2 wW2)
    as (_ & _ & (_ & _ & _ & _ & HoW2 & _) & (_ & _ & HbW2 & _)).
  pose proof (writeBack_fields false lS2 pS2 wS2)
    as (_ & _ & (_ & _ & _ & _ & HoS2 & _) & (_ & _ & HbS2 & _)).
  cbv zeta in HoW2, HoS2, HbW2, HbS2.
  set (rW2 := writeBack false lW2 pW2 wW2) in *.
  set (rS2 := writeBack false lS2 pS2 wS2) in *.
  destruct HfW2 as (OW2 & _).
  destruct HfS2 as (OS2 & _).
  (* the document written at once *)
  destruct (transform_tail (InArray doc) (wholeRun buf1 buf2W) p (fst rW2) w
              (snd rW2) J1 eq_refl)
    as (cW & oW & wWf & HtW & _ & _ & _ & HtokW).
  { rewrite decodePass_whole. fold pW0. rewrite HpW1, bind_Ok. exact HpW2. }
  (* the second write *)
  destruct (transform_tail (InArray (drop (Z.to_nat k) doc)) (secondRun buf2S)
              pSa (fst rS2) wS' (snd rS2))
    as (cS & oS & wSf & HtS & _ & _ & _ & HtokS).
  { change (hasError pSa) with (hasError (fst rS1)).
    rewrite HeS1, ES1. exact J1. }
  { reflexivity. }
  { unfold secondRun. rewrite decodePass_single. exact HpS2. }
  eexists _, _, _, _, _, _.
  split; [exact HtW|]. split; [exact Ht1|]. split; [exact HtS|].
  rewrite HtokW, HtokS, HbW2, HbS2.
  rewrite (emittedTokens_output (fst rW2) p)
    by (rewrite HoW2, OW2, HoW1, OW1; reflexivity).
  rewrite (emittedTokens_output (fst rS2) (set_output o (fst rS1)))
    by (rewrite HoS2, OS2; reflexivity).
  rewrite HemS1, <- app_assoc. f_equal.
  destruct HR3 as (_ & _ & _ & _ & _ & _ & _ & _ & _ & _ & _ & _ & _ & _ & _ & _
                   & _ & _ & _ & _ & _ & _ & RB3 & _).
  symmetry. apply (BufRel_elems _ _ _ _ RB3).
Qed.

End SplitWriteB.

(** Witness of X7: [<doc/>hello<doc/>] cut after [<doc/>he]. *)
Lemma X7_document_written_in_two_parts_witness :
  tokensSoFar (fst SampleRuns.afterTwoDocsCut) (snd SampleRuns.afterTwoDocsCut)
  = tokensSoFar (fst SampleRuns.afterTwoDocs) (snd SampleRuns.afterTwoDocs)
  /\ tokensSoFar (fst SampleRuns.afterTwoDocs) (snd SampleRuns.afterTwoDocs)
     = [VMember (mkMember KOpen 201 (jstr "doc") None);
        VMember (mkMember KClose 201 (jstr "doc") None);
        VString (jstr "hello");
        VMember (mkMember KOpen 201 (jstr "doc") None);
        VMember (mkMember KClose 201 (jstr "doc") None)].
Proof.
  destruct (X7_document_written_in_two_parts (E:=Sample.env)
              SampleRuns.twoDocs 8 SampleRuns.twoDocsHead
              (SampleRuns.twoDocsTail 0) (SampleRuns.twoDocsTail 8)
              SampleRuns.parser0 SampleRuns.world0)
    as (pW & wW & pS1 & wS1 & pS & wS & HW & HS1 & HS & Heq).
  - vm_compute. split; discriminate.
  - do 8 (split; [vm_compute; first [reflexivity|discriminate]|]).
    exact bounded_empty.
  - vm_compute. reflexivity.
  - vm_compute. reflexivity.
  - vm_compute in HW. injection HW as <- <-.
    vm_compute in HS1. injection HS1 as <- <-.
    vm_compute in HS. injection HS as <- <-.
    split; [vm_compute in Heq |- *; exact Heq|vm_compute; reflexivity].
Defined.

(** * Further properties: the chunk pool, newlines, slices, the decoder *)

(** X1. The pool of chunks is a stack: of two different chunks released
    one after the other, the next call of [allocate] returns the one
    released last and the call after it the one released first; the free
    list is then what it was before the two were released. *)
Theorem X1_pool_is_last_in_first_out (a b : positive) (s : TokenChunk.Store) :
  a <> b ->
  let s2 := TokenChunk.free b (TokenChunk.free a s) in
  let r1 := TokenChunk.allocate None s2 in
  let r2 := TokenChunk.allocate None (snd r1) in
  fst r1 = b /\ fst r2 = a /\ TokenChunk.first (snd r2) = TokenChunk.first s.
Proof.
  intros Hne. cbn zeta.
  rewrite (allocate_from_free_list None (TokenChunk.free b (TokenChunk.free a s)) b)
    by reflexivity.
  cbn [fst snd].
  assert (Hnext : TokenChunk.next
                    (TokenChunk.get (TokenChunk.free b (TokenChunk.free a s)) b)
                  = Some a).
  { unfold TokenChunk.free, TokenChunk.get. cbn.
    rewrite lookup_insert_eq. reflexivity. }
  rewrite Hnext.
  rewrite (allocate_from_free_list None _ a) by reflexivity.
  cbn [fst snd].
  split; [reflexivity|]. split; [reflexivity|].
  unfold TokenChunk.put, TokenChunk.free, TokenChunk.get. cbn.
  rewrite lookup_insert_ne by (intros Heq; apply Hne; symmetry; exact Heq).
  rewrite lookup_insert_ne by (intros Heq; apply Hne; symmetry; exact Heq).
  rewrite lookup_insert_eq. reflexivity.
Qed.

(** Witness of X1: chunks 1 and 2 released into the empty pool. *)
Lemma X1_pool_is_last_in_first_out_witness :
  fst (TokenChunk.allocate None
         (TokenChunk.free 2 (TokenChunk.free 1 TokenChunk.empty))) = 2%positive.
Proof.
  exact (proj1 (X1_pool_is_last_in_first_out 1 2 TokenChunk.empty
                  ltac:(discriminate))).
Defined.

(** X2. [free] does not check whether the chunk is already on the free
    list: after a chunk is released twice, two calls of [allocate] in a
    row return that same chunk, which then has two owners. *)
Theorem X2_chunk_released_twice_is_handed_out_twice (a : positive)
    (s : TokenChunk.Store) :
  let s2 := TokenChunk.free a (TokenChunk.free a s) in
  let r1 := TokenChunk.allocate None s2 in
  let r2 := TokenChunk.allocate None (snd r1) in
  fst r1 = a /\ fst r2 = a /\ TokenChunk.first (snd r2) = None.
Proof.
  cbn zeta.
  rewrite (allocate_from_free_list None (TokenChunk.free a (TokenChunk.free a s)) a)
    by reflexivity.
  cbn [fst snd].
  assert (Hnext : TokenChunk.next
                    (TokenChunk.get (TokenChunk.free a (TokenChunk.free a s)) a)
                  = Some a).
  { unfold TokenChunk.free, TokenChunk.get. cbn.
    rewrite lookup_insert_eq. reflexivity. }
  rewrite Hnext.
  rewrite (allocate_from_free_list None _ a) by reflexivity.
  cbn [fst snd].
  split; [reflexivity|]. split; [reflexivity|].
  unfold TokenChunk.put, TokenChunk.get. cbn.
  rewrite lookup_insert_eq. reflexivity.
Qed.

Lemma scanNewlines_fixed (s : jsstring) :
  existsb (N.eqb CR) s = false -> scanNewlines s = s.
Proof.
  induction s as [|c t IH]; [reflexivity|].
  cbn [existsb]. intros Hc. apply orb_false_elim in Hc as [Hc Ht].
  rewrite N.eqb_sym in Hc.
  cbn [scanNewlines]. rewrite Hc.
  destruct (N.eqb_spec c LF) as [->|Hne].
  - destruct t as [|d t']; [reflexivity|].
    cbn [existsb] in Ht. apply orb_false_elim in Ht as [Hd Ht'].
    rewrite N.eqb_sym in Hd. rewrite Hd.
    f_equal. apply IH. cbn [existsb]. rewrite N.eqb_sym in Hd. rewrite Hd. exact Ht'.
  - f_equal. apply IH. exact Ht.
Qed.

Lemma scanNewlines_length (s : jsstring) :
  (length (scanNewlines s) <= length s)%nat.
Proof.
  induction s as [s IH] using (induction_ltof1 _ (@length N)).
  unfold ltof in IH.
  destruct s as [|c t]; [reflexivity|].
  cbn [scanNewlines].
  destruct (N.eqb c CR).
  - destruct t as [|d t']; [cbn; lia|].
    destruct (N.eqb d LF).
    + specialize (IH t' ltac:(cbn; lia)). cbn [length] in *. lia.
    + specialize (IH (d :: t') ltac:(cbn; lia)). cbn [length] in *. lia.
  - destruct (N.eqb c LF).
    + destruct t as [|d t']; [cbn; lia|].
      destruct (N.eqb d CR).
      * specialize (IH t' ltac:(cbn; lia)). cbn [length] in *. lia.
      * specialize (IH (d :: t') ltac:(cbn; lia)). cbn [length] in *. lia.
    + specialize (IH t ltac:(cbn; lia)). cbn [length] in *. lia.
Qed.

(** X3. Normalising the newlines of a string a second time changes
    nothing, and the result is never longer than the string: a string that
    [getSlice] returned can be passed through the same replacement again,
    as when the tokens are parsed a second time. *)
Theorem X3_newline_normalization_is_idempotent (s : jsstring) :
  normalizeNewlines (normalizeNewlines s) = normalizeNewlines s
  /\ (length (normalizeNewlines s) <= length s)%nat.
Proof.
  rewrite !normalizeNewlines_scan. split.
  - apply scanNewlines_fixed. apply scanNewlines_no_CR.
  - apply scanNewlines_length.
Qed.

Section Extras.
Context {E : Env}.

(** X4. A run of text cut by the end of an input buffer.  The run starts
    at offset [s] of the buffer [pre]; at the end of the pass [storeSlice]
    saves the bytes from [s] on; the next buffer is [rest] and the run ends
    at its offset [e - length pre].  The string [getSlice] returns is the
    one it returns, for the offsets [s] and [e], when the two buffers
    arrive as the single buffer [pre ++ rest]: the bytes from [s] to [e] of
    the whole input, decoded in one piece; afterwards no part is saved. *)
Theorem X4_run_cut_between_buffers (pre rest : bytes) (s e : Z) (p : Parser) :
  partList p = None ->
  partListTotalByteLen p = Some 0 ->
  0 <= s <= Z.of_nat (length pre) ->
  Z.of_nat (length pre) <= e <= Z.of_nat (length pre) + Z.of_nat (length rest) ->
  let whole := set_chunk (pre ++ rest) p in
  let second := set_chunk rest (storeSlice s None (set_chunk pre p)) in
  let str :=
    normalizeNewlines
      (decodeBytes (take (Z.to_nat (e - s)) (drop (Z.to_nat s) (pre ++ rest)))) in
  getSlice s (Some e) whole = Ok (str, whole)
  /\ getSlice 0 (Some (e - Z.of_nat (length pre))) second
     = Ok (str, withParts None (Some 0) second).
Proof.
  intros Hparts Htotal Hs He. cbn zeta.
  assert (HW : getSlice s (Some e) (set_chunk (pre ++ rest) p)
               = Ok (normalizeNewlines
                       (decodeBytes (take (Z.to_nat (e - s))
                                       (drop (Z.to_nat s) (pre ++ rest)))),
                     set_chunk (pre ++ rest) p)).
  { rewrite getSlice_direct by exact Hparts. cbn [chunk set_chunk].
    rewrite js_slice_in by (rewrite ?length_app; lia). reflexivity. }
  split; [exact HW|].
  refine (proj1 (getSlice_sim (pre ++ rest) pre s 0 e
                   (set_chunk (pre ++ rest) p)
                   (set_chunk rest (storeSlice s None (set_chunk pre p)))
                   _ _ _ _ _ HW)); [|lia|cbn [chunk set_chunk]; lia].
  split; [reflexivity|].
  split; [exists []; cbn [chunk set_chunk]; rewrite app_nil_r; reflexivity|].
  split; [intros _; exact Htotal|].
  right. right.
  split; [lia|]. split; [reflexivity|].
  rewrite storeSlice_withParts.
  rewrite bool_decide_eq_false_2 by discriminate.
  cbn [partList partListTotalByteLen chunk set_chunk withParts
       set_partListTotalByteLen set_partList].
  rewrite Hparts, Htotal. cbn [default mbind option_bind app].
  split.
  - eexists. split; [reflexivity|].
    cbn [concat]. rewrite app_nil_r. apply js_slice_tail. lia.
  - cbn. f_equal; lia.
Qed.

(** X5. What a decoding pass never does: [parseCodeBuffer] hands nothing
    to the stream, leaves the error flag, the listeners, the input buffer
    and the choice of the output chunk as they are, and in the pool it
    changes neither the free list nor any chunk but the one it fills. *)
Theorem X5_decoding_pass_keeps_to_its_chunk (pending : bool) (codeBuffer : list Z)
    (p p' : Parser) (w w' : World) :
  parseCodeBuffer pending codeBuffer p w = Ok (p', w') ->
  output p' = output p
  /\ hasError p' = hasError p
  /\ errorListeners p' = errorListeners p
  /\ chunk p' = chunk p
  /\ tokenChunk p' = tokenChunk p
  /\ TokenChunk.first (chunks w') = TokenChunk.first (chunks w)
  /\ TokenChunk.fresh (chunks w') = TokenChunk.fresh (chunks w)
  /\ forall c, c <> tokenChunk p ->
       TokenChunk.objects (chunks w') !! c = TokenChunk.objects (chunks w) !! c.
Proof.
  intros Hp.
  apply frame_parseCodeBuffer in Hp
    as [(A1 & A2 & A3 & A4 & A5) (W1 & W2 & W3 & _)].
  repeat split; assumption.
Qed.

(** X6. The table of undeclared element names is looked up before a token
    is made: for a name that [Object.prototype] does not define, the
    decoder pushes the token the table holds for the name if there is one,
    and otherwise a new open token with a new identity, which it enters in
    the table; afterwards the table holds the pushed token under the name,
    and every other entry is as before. *)
Theorem X6_undeclared_element_is_interned (code : Z) (name : jsstring)
    (l l' : Loc.t) (p p1 p' : Parser) (w w' : World) :
  getSlice (Loc.partStart l) (Some code) p = Ok (name, p1) ->
  name ∉ objectPrototypeNames ->
  step UNKNOWN_OPEN_ELEMENT_END_OFFSET code l p w = Ok (l', p', w') ->
  let t := default (mkMember KOpen (nextObj w) name None)
             (unknownElementTbl p !! name) in
  tb_get p' w' (Loc.tokenNum l + 1) = VMember t
  /\ Loc.latestElement l' = VMember t
  /\ unknownElementTbl p' !! name = Some t
  /\ (forall other, other <> name ->
        unknownElementTbl p' !! other = unknownElementTbl p !! other)
  /\ nextObj w'
     = match unknownElementTbl p !! name with
       | Some _ => nextObj w
       | None => Pos.succ (nextObj w)
       end.
Proof.
  intros Hg Hplain Hs. cbn zeta.
  pose proof (getSlice_keeps _ _ _ _ _ Hg) as (K1 & _ & _ & _ & K5 & _).
  assert (Hpush : forall (q : Parser) (x : World) (i : Z) (v : Value),
            tokenChunk q = tokenChunk p1 -> tb_get q (tb_set p1 x i v) i = v).
  { intros q x i v Hq. unfold tb_get.
    rewrite (tokenBuffer_tb_set_other p1 q) by exact Hq.
    unfold arr_get, arr_set. cbn. rewrite lookup_insert_eq. reflexivity. }
  cbn [step] in Hs. rewrite Hg, bind_Ok in Hs.
  cbn [Loc.latestElement Loc.set_latestElement] in Hs.
  rewrite tbl_get_plain, K5 in Hs by exact Hplain.
  destruct (unknownElementTbl p !! name) as [t|] eqn:Hlook;
    cbn [falsy default] in Hs |- *; unfold pushToken in Hs;
    injection Hs as <- <- <-; cbn.
  - rewrite K5.
    split; [apply Hpush; reflexivity|].
    split; [reflexivity|]. split; [exact Hlook|]. split; reflexivity.
  - rewrite ?K5.
    split; [apply Hpush; reflexivity|].
    split; [reflexivity|]. split; [apply lookup_insert_eq|].
    split; [|reflexivity].
    intros other Hne. apply lookup_insert_ne. congruence.
Qed.

End Extras.

(** Witness of X4: [<t>hel] and [lo</t>], the text starting at offset 3 of
    the first buffer and ending at offset 2 of the second. *)
Lemma X4_run_cut_between_buffers_witness :
  getSlice (E:=Sample.env) 0 (Some 2)
    (set_chunk (Sample.ascii_bytes "lo</t>")
       (storeSlice 3 None
          (set_chunk (Sample.ascii_bytes "<t>hel") SampleRuns.parser0)))
  = Ok (jstr "hello",
        withParts None (Some 0)
          (set_chunk (Sample.ascii_bytes "lo</t>")
             (storeSlice 3 None
                (set_chunk (Sample.ascii_bytes "<t>hel") SampleRuns.parser0)))).
Proof.
  exact (proj2 (X4_run_cut_between_buffers (E:=Sample.env)
                  (Sample.ascii_bytes "<t>hel") (Sample.ascii_bytes "lo</t>")
                  3 8 SampleRuns.parser0
                  ltac:(reflexivity) ltac:(reflexivity)
                  ltac:(vm_compute; split; discriminate)
                  ltac:(vm_compute; split; discriminate))).
Defined.

(** Witness of X5: the pass over the op-codes of [<doc id='7]. *)
Lemma X5_decoding_pass_keeps_to_its_chunk_witness :
  output (fst SampleRuns.afterOpenTagPass) = []
  /\ tokenChunk (fst SampleRuns.afterOpenTagPass) = tokenChunk SampleRuns.parser0.
Proof.
  destruct (X5_decoding_pass_keeps_to_its_chunk (E:=Sample.env) false
              (finalBuffer SampleRuns.openTagRun)
              (set_nativeLog [NativeParse (Sample.ascii_bytes "<doc id='7")]
                 (set_chunk (Sample.ascii_bytes "<doc id='7") SampleRuns.parser0))
              (fst SampleRuns.afterOpenTagPass)
              SampleRuns.world0 (snd SampleRuns.afterOpenTagPass))
    as (H1 & _ & _ & _ & H5 & _).
  - vm_compute. reflexivity.
  - split; [exact H1|exact H5].
Defined.

(** Witness of X6: the name [item] in the empty table of a new parser. *)
Lemma X6_undeclared_element_is_interned_witness :
  unknownElementTbl (snd (fst SampleRuns.afterItemName)) !! jstr "item"
  = Some (mkMember KOpen 1000 (jstr "item") None).
Proof.
  destruct (X6_undeclared_element_is_interned (E:=Sample.env) 5 (jstr "item")
              (fst (fst SampleRuns.beforeItemName))
              (fst (fst SampleRuns.afterItemName))
              (snd (fst SampleRuns.beforeItemName))
              (snd (fst SampleRuns.beforeItemName))
              (snd (fst SampleRuns.afterItemName))
              (snd SampleRuns.beforeItemName)
              (snd SampleRuns.afterItemName))
    as (_ & _ & H3 & _).
  - vm_compute. reflexivity.
  - vm_compute. intros H. repeat (apply elem_of_cons in H as [H|H]; [discriminate H|]).
    apply elem_of_nil in H. exact H.
  - vm_compute. reflexivity.
  - exact H3.
Defined.
